(** * A contact book: validated fields, records, the address book and its
      command handlers (core_08_homework.py), embedded and verified.

    Python values are embedded as follows.
    - A [str] is a Rocq [string].  A character of a Rocq string is one of the
      256 values of [ascii]; it stands for the code point of the same number
      (U+0000 .. U+00FF), so the embedding covers the Python strings whose
      code points are below 256.  [strptime] and [Birthday], which treat
      the decimal digits of all scripts alike in some places, are also
      embedded on lists of arbitrary code points (module [Unicode]).
    - An exception is a value of [exn]; a call that may raise returns
      [result A], and a method that mutates its object returns the object's
      final state next to the outcome.
    - A [dict] iterated in insertion order is an association list.
    - [datetime.today()] is an input of the functions that read the clock. *)

From Stdlib Require Import ZArith Lia Bool List Ascii String.
Import ListNotations.

Local Open Scope string_scope.
Local Open Scope Z_scope.

(** ** Exceptions *)

(** The exception classes of the script (lines 9-16), each with the message
    it is raised with, and the built-in ones that its calls can raise. *)
Inductive exn : Type :=
| PhoneValidationError (msg : string)
| MissingPhoneError (msg : string)
| DateValidationError (msg : string)
| ValueError
| IndexError
| KeyError
| AttributeError
| OverflowError.

Definition result (A : Type) : Type := (exn + A)%type.

Definition ok {A : Type} (a : A) : result A := inr a.
Definition raise {A : Type} (e : exn) : result A := inl e.

Definition bind {A B : Type} (m : result A) (k : A -> result B) : result B :=
  match m with
  | inl e => inl e
  | inr a => k a
  end.

Notation "x <- m ;; k" := (bind m (fun x => k))
  (at level 61, m at next level, right associativity).

(** ** Python strings *)

Module PyStr.

Definition code (c : ascii) : nat := nat_of_ascii c.

(** A character class [lo-hi] of a regular expression, by code point. *)
Definition in_range (lo hi : ascii) (c : ascii) : bool :=
  (code lo <=? code c)%nat && (code c <=? code hi)%nat.

(** [\d] of a [str] pattern matches the characters of category Nd; below
    U+0100 these are '0' .. '9'. *)
Definition is_decimal (c : ascii) : bool := in_range "0" "9" c.

(** [str.isdigit] holds of a character whose Unicode property
    Numeric_Type is Digit or Decimal.  Below U+0100 these are '0' .. '9'
    and the superscripts U+00B2, U+00B3 and U+00B9. *)
Definition char_isdigit (c : ascii) : bool :=
  is_decimal c
  || (code c =? 178)%nat || (code c =? 179)%nat || (code c =? 185)%nat.

Fixpoint forallb_str (p : ascii -> bool) (s : string) : bool :=
  match s with
  | EmptyString => true
  | String c s' => p c && forallb_str p s'
  end.

(** [s.isdigit()]: every character is a digit and there is at least one. *)
Definition isdigit (s : string) : bool :=
  match s with
  | EmptyString => false
  | _ => forallb_str char_isdigit s
  end.

(** [len(s)] *)
Definition len (s : string) : Z := Z.of_nat (String.length s).

Definition digit_value (c : ascii) : Z := Z.of_nat (code c) - 48.

(** The value of a run of decimal digits, most significant first. *)
Fixpoint digits_value (acc : Z) (s : string) : Z :=
  match s with
  | EmptyString => acc
  | String c s' => digits_value (10 * acc + digit_value c) s'
  end.

(** [s.lstrip()] for the one white-space character the patterns of this
    development can match, the space. *)
Fixpoint lstrip (s : string) : string :=
  match s with
  | String " " s' => lstrip s'
  | _ => s
  end.

(** [int(s)] on a string that is a run of decimal digits after optional
    leading spaces, the only strings it is applied to here. *)
Definition int (s : string) : Z := digits_value 0 (lstrip s).


End PyStr.

(** ** Validated value types (lines 18-42) *)

(** [Field]: an object with the one attribute [value].  [Name], [Phone] and
    [Birthday] are its subclasses; they add no attribute, so the three are
    told apart by the constructor that built them. *)
Record Field : Type := mkField { value : string }.

Definition Name (v : string) : Field := mkField v.

Definition Phone (v : string) : result Field :=
  if negb (PyStr.len v =? 10) then
    raise (PhoneValidationError "Phone number must be 10 digits long")
  else if negb (PyStr.isdigit v) then
    raise (PhoneValidationError "Phone number must contain digits only")
  else ok (mkField v).

(** ** The [datetime] library, as far as the script uses it *)

(** The script builds [datetime] objects with [strptime], [today] and
    [replace], and reads them with [year], [toordinal], [weekday],
    [+ timedelta(days=k)] and [strftime].  None of these reads or changes
    the time of day when the other operand is a whole number of days, so a
    [datetime] is embedded as its calendar date. *)
Module Datetime.

Record datetime : Type := mkDate { year : Z; month : Z; day : Z }.

Definition MINYEAR : Z := 1.
Definition MAXYEAR : Z := 9999.
Definition MAXORDINAL : Z := 3652059.

Definition DAYS_IN_MONTH (m : Z) : Z :=
  match m with
  | 1 => 31 | 2 => 28 | 3 => 31 | 4 => 30 | 5 => 31 | 6 => 30
  | 7 => 31 | 8 => 31 | 9 => 30 | 10 => 31 | 11 => 30 | 12 => 31
  | _ => -1
  end.

Definition DAYS_BEFORE_MONTH (m : Z) : Z :=
  match m with
  | 1 => 0 | 2 => 31 | 3 => 59 | 4 => 90 | 5 => 120 | 6 => 151
  | 7 => 181 | 8 => 212 | 9 => 243 | 10 => 273 | 11 => 304 | 12 => 334
  | _ => -1
  end.

Definition is_leap (y : Z) : bool :=
  (y mod 4 =? 0) && (negb (y mod 100 =? 0) || (y mod 400 =? 0)).

Definition days_before_year (y : Z) : Z :=
  let y := y - 1 in
  y * 365 + y / 4 - y / 100 + y / 400.

Definition days_in_month (y m : Z) : Z :=
  if (m =? 2) && is_leap y then 29 else DAYS_IN_MONTH m.

Definition days_before_month (y m : Z) : Z :=
  DAYS_BEFORE_MONTH m + (if (2 <? m) && is_leap y then 1 else 0).

Definition ymd2ord (y m d : Z) : Z :=
  days_before_year y + days_before_month y m + d.

(** The range check of the constructor. *)
Definition check_date_fields (y m d : Z) : bool :=
  (MINYEAR <=? y) && (y <=? MAXYEAR)
  && (1 <=? m) && (m <=? 12)
  && (1 <=? d) && (d <=? days_in_month y m).

(** [datetime(y, m, d)] *)
Definition new (y m d : Z) : result datetime :=
  if check_date_fields y m d then ok (mkDate y m d) else raise ValueError.

(** [dt.replace(year=y)] builds a new object from the changed fields. *)
Definition replace_year (dt : datetime) (y : Z) : result datetime :=
  new y (month dt) (day dt).

Definition toordinal (dt : datetime) : Z :=
  ymd2ord (year dt) (month dt) (day dt).

(** Monday is 0, Sunday is 6. *)
Definition weekday (dt : datetime) : Z := (toordinal dt + 6) mod 7.

Definition DI400Y : Z := 146097.
Definition DI100Y : Z := 36524.
Definition DI4Y : Z := 1461.

(** The date of an ordinal, by the library's algorithm. *)
Definition ord2ymd (n : Z) : datetime :=
  let n := n - 1 in
  let n400 := n / DI400Y in
  let n := n mod DI400Y in
  let y := n400 * 400 + 1 in
  let n100 := n / DI100Y in
  let n := n mod DI100Y in
  let n4 := n / DI4Y in
  let n := n mod DI4Y in
  let n1 := n / 365 in
  let n := n mod 365 in
  let y := y + n100 * 100 + n4 * 4 + n1 in
  if (n1 =? 4) || (n100 =? 4) then mkDate (y - 1) 12 31
  else
    let leapyear := (n1 =? 3) && (negb (n4 =? 24) || (n100 =? 3)) in
    let m := Z.shiftr (n + 50) 5 in
    let preceding :=
      DAYS_BEFORE_MONTH m + (if (2 <? m) && leapyear then 1 else 0) in
    if n <? preceding then
      let m' := m - 1 in
      let preceding' :=
        preceding
        - (DAYS_IN_MONTH m' + (if (m' =? 2) && leapyear then 1 else 0)) in
      mkDate y m' (n - preceding' + 1)
    else mkDate y m (n - preceding + 1).

(** [dt + timedelta(days=k)] *)
Definition add_days (dt : datetime) (k : Z) : result datetime :=
  let o := toordinal dt + k in
  if (0 <? o) && (o <=? MAXORDINAL) then ok (ord2ymd o)
  else raise OverflowError.

(** *** [strptime(s, "%d.%m.%Y")]

    The format is turned into the regular expression
    [(?P<d>3[0-1]|[1-2]\d|0[1-9]|[1-9]| [1-9])\.(?P<m>1[0-2]|0[1-9]|[1-9])\.(?P<Y>\d\d\d\d)],
    matched at the start of the string by a backtracking matcher that tries
    the alternatives of a group from left to right. *)

Definition is_char (x c : ascii) : bool := (PyStr.code c =? PyStr.code x)%nat.

(** An alternative made of one or of two character classes: the text it
    matches and the rest of the input. *)
Definition seq1 (p : ascii -> bool) (s : string) : option (string * string) :=
  match s with
  | String a r => if p a then Some (String a "", r) else None
  | _ => None
  end.

Definition seq2 (p q : ascii -> bool) (s : string)
  : option (string * string) :=
  match s with
  | String a (String b r) =>
      if p a && q b then Some (String a (String b ""), r) else None
  | _ => None
  end.

Definition alts_d : list (string -> option (string * string)) :=
  [ seq2 (is_char "3") (PyStr.in_range "0" "1");
    seq2 (PyStr.in_range "1" "2") PyStr.is_decimal;
    seq2 (is_char "0") (PyStr.in_range "1" "9");
    seq1 (PyStr.in_range "1" "9");
    seq2 (is_char " ") (PyStr.in_range "1" "9") ].

Definition alts_m : list (string -> option (string * string)) :=
  [ seq2 (is_char "1") (PyStr.in_range "0" "2");
    seq2 (is_char "0") (PyStr.in_range "1" "9");
    seq1 (PyStr.in_range "1" "9") ].

(** A group of alternatives followed by the rest of the pattern [k]: the
    first alternative after which the rest matches is taken. *)
Fixpoint alt {R : Type} (branches : list (string -> option (string * string)))
    (k : string -> string -> option R) (s : string) : option R :=
  match branches with
  | [] => None
  | br :: branches' =>
      match br s with
      | Some (g, s') =>
          match k g s' with
          | Some r => Some r
          | None => alt branches' k s
          end
      | None => alt branches' k s
      end
  end.

Definition lit {R : Type} (c : ascii) (k : string -> option R) (s : string)
  : option R :=
  match s with
  | String a r => if is_char c a then k r else None
  | _ => None
  end.

Definition year4 {R : Type} (k : string -> string -> option R) (s : string)
  : option R :=
  match s with
  | String a (String b (String c (String d r))) =>
      if PyStr.is_decimal a && PyStr.is_decimal b
         && PyStr.is_decimal c && PyStr.is_decimal d
      then k (String a (String b (String c (String d "")))) r
      else None
  | _ => None
  end.

(** The groups of a match and the input left after it. *)
Record found : Type :=
  mkFound { group_d : string; group_m : string; group_Y : string;
            unconverted : string }.

Definition format_regex_match (s : string) : option found :=
  alt alts_d (fun d s1 =>
    lit "." (fun s2 =>
      alt alts_m (fun m s3 =>
        lit "." (fun s4 =>
          year4 (fun y s5 => Some (mkFound d m y s5)) s4) s3) s2) s1) s.

(** [ValueError] when the string does not match, when input is left after
    the match, or when the fields are not a date. *)
Definition strptime (s : string) : result datetime :=
  match format_regex_match s with
  | None => raise ValueError
  | Some f =>
      if negb (String.eqb (unconverted f) "") then raise ValueError
      else new (PyStr.int (group_Y f)) (PyStr.int (group_m f))
               (PyStr.int (group_d f))
  end.

(** *** [strftime("%d.%m.%Y")] *)

Definition digit_char (n : Z) : ascii := ascii_of_nat (Z.to_nat (48 + n)).

(** [%d] and [%m]: two digits, zero-padded. *)
Definition two_digits (n : Z) : string :=
  String (digit_char (n / 10)) (String (digit_char (n mod 10)) "").

Fixpoint decimal_from (fuel : nat) (n : Z) (acc : string) : string :=
  match fuel with
  | O => acc
  | S fuel' =>
      let acc' := String (digit_char (n mod 10)) acc in
      if n <? 10 then acc' else decimal_from fuel' (n / 10) acc'
  end.

(** [%Y]: the year as a decimal number, as the C library prints it (four
    digits from the year 1000 on; no padding is added below). *)
Definition decimal (n : Z) : string :=
  decimal_from (S (Z.to_nat (Z.log2 n))) n "".

Definition strftime (dt : datetime) : string :=
  two_digits (day dt) ++ "." ++ two_digits (month dt) ++ "."
  ++ decimal (year dt).

End Datetime.

Import Datetime.

(** [Birthday.__init__] (lines 28-34).  A [datetime] object is always true,
    so the value is stored whenever [strptime] returns; only [ValueError] is
    turned into [DateValidationError]. *)
Definition Birthday (v : string) : result Field :=
  match strptime v with
  | inr _ => ok (mkField v)
  | inl ValueError =>
      raise (DateValidationError "Invalid date (try using DD.MM.YYYY format)")
  | inl e => raise e
  end.

(** ** Methods that mutate their object *)

(** A computation over a mutable object of type [S]: the object's final
    state, and the value returned or the exception raised. *)
Definition M (S A : Type) : Type := S -> S * result A.

Definition ret {S A : Type} (a : A) : M S A := fun s => (s, ok a).
Definition raiseM {S A : Type} (e : exn) : M S A := fun s => (s, raise e).

Definition bindM {S A B : Type} (m : M S A) (k : A -> M S B) : M S B :=
  fun s =>
    match m s with
    | (s', inl e) => (s', inl e)
    | (s', inr a) => k a s'
    end.

Notation "x <-- m ;;; k" := (bindM m (fun x => k))
  (at level 61, m at next level, right associativity).

(** ** Contact record (lines 44-80) *)

(** The class [Record] of the script. *)
Record ContactRecord : Type :=
  mkRecord { name : Field; phones : list Field; birthday : option Field }.

(** [Record(name)] *)
Definition new_record (n : string) : ContactRecord :=
  mkRecord (Name n) [] None.

Definition set_phones (r : ContactRecord) (l : list Field) : ContactRecord :=
  mkRecord (name r) l (birthday r).

Definition set_birthday (r : ContactRecord) (b : Field) : ContactRecord :=
  mkRecord (name r) (phones r) (Some b).

Fixpoint find_phone_in (phone : string) (l : list Field) : option Field :=
  match l with
  | [] => None
  | ph :: l' =>
      if String.eqb phone (value ph) then Some ph else find_phone_in phone l'
  end.

Definition find_phone (phone : string) (r : ContactRecord) : option Field :=
  find_phone_in phone (phones r).

(** [x in l] for a list of strings. *)
Definition str_in (x : string) (l : list string) : bool :=
  existsb (String.eqb x) l.

Definition add_phone (phone : string) : M ContactRecord unit :=
  fun r =>
    match Phone phone with
    | inl e => (r, inl e)
    | inr ph =>
        if negb (str_in (value ph) (map value (phones r)))
        then (set_phones r (phones r ++ [ph]), ok tt)
        else (r, ok tt)
    end.

Definition remove_phone (phone : string) : M ContactRecord unit :=
  fun r =>
    (set_phones r
       (filter (fun ph => negb (String.eqb (value ph) phone)) (phones r)),
     ok tt).

Definition edit_phone (old_phone new_phone : string) : M ContactRecord unit :=
  fun r =>
    match find_phone old_phone r with
    | Some _ => (_ <-- add_phone new_phone ;;; remove_phone old_phone) r
    | None =>
        (r, raise (MissingPhoneError
                     "Phone number to be edited is missing from the list"))
    end.

Definition add_birthday (b : string) : M ContactRecord unit :=
  fun r =>
    match Birthday b with
    | inl e => (r, inl e)
    | inr f => (set_birthday r f, ok tt)
    end.

(** [sep.join(l)] *)
Fixpoint join (sep : string) (l : list string) : string :=
  match l with
  | [] => ""
  | [x] => x
  | x :: l' => x ++ sep ++ join sep l'
  end.

(** [Record.__str__] *)
Definition record_str (r : ContactRecord) : string :=
  "Contact name: " ++ value (name r) ++ "; phone(s): "
  ++ join ", " (map value (phones r))
  ++ match birthday r with
     | Some b => "; birthday: " ++ value b
     | None => ""
     end.

(** ** Address book (lines 82-133) *)

(** The [data] dictionary of the [UserDict]: keys in insertion order. *)
Definition AddressBook : Type := list (string * ContactRecord).

Fixpoint dict_get (k : string) (d : AddressBook) : option ContactRecord :=
  match d with
  | [] => None
  | (k', v) :: d' => if String.eqb k k' then Some v else dict_get k d'
  end.

(** [d[k] = v]: a key that is present keeps its place. *)
Fixpoint dict_set (k : string) (v : ContactRecord) (d : AddressBook)
  : AddressBook :=
  match d with
  | [] => [(k, v)]
  | (k', v') :: d' =>
      if String.eqb k k' then (k', v) :: d' else (k', v') :: dict_set k v d'
  end.

(** [d.pop(k)] for a key that is present. *)
Fixpoint dict_pop (k : string) (d : AddressBook) : AddressBook :=
  match d with
  | [] => []
  | (k', v') :: d' =>
      if String.eqb k k' then d' else (k', v') :: dict_pop k d'
  end.

Definition dict_mem (k : string) (d : AddressBook) : bool :=
  match dict_get k d with Some _ => true | None => false end.

Definition keys (d : AddressBook) : list string := map fst d.

Definition add_record (record : ContactRecord) (book : AddressBook)
  : AddressBook :=
  dict_set (value (name record)) record book.

Definition find (nm : string) (book : AddressBook) : option ContactRecord :=
  if dict_mem nm book then dict_get nm book else None.

Definition delete (nm : string) (book : AddressBook) : AddressBook :=
  if dict_mem nm book then dict_pop nm book else book.

Definition date_to_string (date : datetime) : string := strftime date.

Definition find_next_weekday (start_date : datetime) (wd : Z)
  : result datetime :=
  let days_ahead := wd - weekday start_date in
  let days_ahead := if days_ahead <=? 0 then days_ahead + 7 else days_ahead in
  add_days start_date days_ahead.

Definition adjust_for_weekend (b : datetime) : result datetime :=
  if 5 <=? weekday b then find_next_weekday b 0 else ok b.

(** An element of the list [get_upcoming_birthdays] returns: the dictionary
    with the keys "name" and "congratulation_date". *)
Record congratulation : Type :=
  mkCongratulation { c_name : string; congratulation_date : string }.

(** The body of the loop of [get_upcoming_birthdays] for one key whose
    record has a birthday: the element to append, if any. *)
Definition upcoming_entry (today : datetime) (nm : string) (b : Field)
  : result (option congratulation) :=
  bday <- strptime (value b) ;;
  this_year <- replace_year bday (year today) ;;
  this_year <- (if toordinal this_year <? toordinal today
                then replace_year bday (year today + 1)
                else ok this_year) ;;
  if (0 <=? toordinal this_year - toordinal today)
     && (toordinal this_year - toordinal today <=? 7)
  then
    adjusted <- adjust_for_weekend this_year ;;
    ok (Some (mkCongratulation nm (date_to_string adjusted)))
  else ok None.

(** The loop over the keys, with the list built so far.  The keys of a
    dictionary are distinct, so [self.data[name]] is the record stored next
    to the key. *)
Fixpoint upcoming_loop (today : datetime) (data : AddressBook)
    (upcoming_birthdays : list congratulation) : result (list congratulation) :=
  match data with
  | [] => ok upcoming_birthdays
  | (nm, r) :: data' =>
      match birthday r with
      | Some b =>
          e <- upcoming_entry today nm b ;;
          match e with
          | Some c => upcoming_loop today data' (upcoming_birthdays ++ [c])
          | None => upcoming_loop today data' upcoming_birthdays
          end
      | None => upcoming_loop today data' upcoming_birthdays
      end
  end.

Definition get_upcoming_birthdays (today : datetime) (book : AddressBook)
  : result (list congratulation) :=
  upcoming_loop today book [].

(** [AddressBook.__str__] *)
Definition book_str (book : AddressBook) : string :=
  join (String "010" "") (map (fun kv => record_str (snd kv)) book).

(** ** Command handlers (lines 135-294) *)

(** The escape sequences of [colorama.Fore], a line feed and a quotation
    mark. *)
Definition Fore_RED : string := String "027" "[31m".
Definition Fore_GREEN : string := String "027" "[32m".
Definition nl : string := String "010" "".
Definition quotation_mark : string := String "034" "".

(** The decorator [input_error]: the exceptions it names become the text
    returned, any other exception passes through. *)
Definition input_error {S : Type} (func : M S string) : M S string :=
  fun s =>
    match func s with
    | (s', inr out) => (s', ok out)
    | (s', inl ValueError) =>
        (s', ok (Fore_RED ++ nl
                 ++ "Invalid command format (name/phone missing)"))
    | (s', inl IndexError) =>
        (s', ok (Fore_RED ++ nl ++ "Enter argument for the command please"))
    | (s', inl KeyError) | (s', inl AttributeError) =>
        (s', ok (Fore_RED ++ nl ++ "Contact doesn't exist"))
    | (s', inl (PhoneValidationError e)) | (s', inl (MissingPhoneError e))
    | (s', inl (DateValidationError e)) =>
        (s', ok (Fore_RED ++ nl ++ e))
    | (s', inl OverflowError) => (s', raise OverflowError)
    end.

(** A method call on the record stored under a key, [book[nm].method(...)]:
    the record is the object the dictionary holds, so the book sees its final
    state. *)
Definition on_record {A : Type} (nm : string) (method : M ContactRecord A)
  : M AddressBook A :=
  fun book =>
    match dict_get nm book with
    | None => (book, raise KeyError)
    | Some r => let (r', res) := method r in (dict_set nm r' book, res)
    end.

Definition add_contact_body (args : list string) : M AddressBook string :=
  match args with
  | nm :: phone :: _ =>
      fun book =>
        match find nm book with
        | Some _ =>
            (_ <-- on_record nm (add_phone phone) ;;;
             ret (Fore_GREEN ++ nl ++ "Contact/phone added: "
                  ++ nm ++ " " ++ phone)) book
        | None =>
            match add_phone phone (new_record nm) with
            | (_, inl e) => (book, inl e)
            | (record, inr _) =>
                (add_record record book,
                 ok (Fore_GREEN ++ nl ++ "Contact/phone added: "
                     ++ nm ++ " " ++ phone))
            end
        end
  | _ => raiseM ValueError
  end.

Definition add_contact (args : list string) : M AddressBook string :=
  input_error (add_contact_body args).

Definition change_contact_body (args : list string) : M AddressBook string :=
  match args with
  | nm :: old_phone :: new_phone :: _ =>
      fun book =>
        match find nm book with
        | None => (book, raise AttributeError)
        | Some _ =>
            (_ <-- on_record nm (edit_phone old_phone new_phone) ;;;
             ret (Fore_GREEN ++ nl ++ nm ++ ": phone " ++ old_phone
                  ++ " changed to " ++ new_phone)) book
        end
  | _ => raiseM ValueError
  end.

Definition change_contact (args : list string) : M AddressBook string :=
  input_error (change_contact_body args).

Definition show_phone_body (args : list string) : M AddressBook string :=
  match args with
  | [] => raiseM IndexError
  | nm :: _ =>
      fun book =>
        match dict_get nm book with
        | None => (book, raise KeyError)
        | Some r =>
            (book, ok (Fore_GREEN ++ nl ++ nm ++ ": "
                       ++ join "; " (map value (phones r))))
        end
  end.

Definition show_phone (args : list string) : M AddressBook string :=
  input_error (show_phone_body args).

Definition add_birthday_body (args : list string) : M AddressBook string :=
  match args with
  | nm :: b :: _ =>
      _ <-- on_record nm (add_birthday b) ;;;
      ret (Fore_GREEN ++ nl ++ "Birthday added: " ++ nm ++ " " ++ b)
  | _ => raiseM ValueError
  end.

(** The handler [add_birthday] of the script, named apart from the method of
    the record that it calls. *)
Definition add_birthday_handler (args : list string) : M AddressBook string :=
  input_error (add_birthday_body args).

Definition show_birthday_body (args : list string) : M AddressBook string :=
  match args with
  | [] => raiseM IndexError
  | nm :: _ =>
      fun book =>
        match find nm book with
        | Some r =>
            match birthday r with
            | Some b => (book, ok (Fore_GREEN ++ nl ++ nm ++ ": " ++ value b))
            | None =>
                (book, ok (Fore_GREEN ++ nl ++ "There is no birthday for "
                           ++ nm ++ " yet"))
            end
        | None =>
            (book, ok (Fore_GREEN ++ nl ++ "Contact " ++ quotation_mark ++ nm
                       ++ quotation_mark ++ " doesn't exist"))
        end
  end.

Definition show_birthday (args : list string) : M AddressBook string :=
  input_error (show_birthday_body args).

(** [birthdays]: the list is computed for the test and again for the text;
    both calls read the same clock value [today]. *)
Definition birthdays_body (today : datetime) : M AddressBook string :=
  fun book =>
    match get_upcoming_birthdays today book with
    | inl e => (book, inl e)
    | inr [] => (book, ok (Fore_GREEN ++ nl ++ "Congratulation list is empty"))
    | inr _ =>
        match get_upcoming_birthdays today book with
        | inl e => (book, inl e)
        | inr items =>
            (book,
             ok (Fore_GREEN ++ nl ++ "Don't forget to congratulate:" ++ nl
                 ++ nl
                 ++ join nl
                      (map (fun item =>
                              c_name item ++ " on " ++ congratulation_date item)
                           items)))
        end
    end.

Definition birthdays (today : datetime) : M AddressBook string :=
  input_error (birthdays_body today).

Definition show_all_contacts : M AddressBook string :=
  fun book =>
    match book with
    | [] => (book, ok (Fore_GREEN ++ nl ++ "There are no contacts yet"))
    | _ => (book, ok (nl ++ Fore_GREEN ++ book_str book))
    end.

(** The commands of the main loop that call a handler, each with the
    arguments the loop passes on. *)
Inductive command : Type :=
| CmdAdd (args : list string)
| CmdChange (args : list string)
| CmdPhone (args : list string)
| CmdAddBirthday (args : list string)
| CmdShowBirthday (args : list string)
| CmdBirthdays
| CmdAll.

Definition handle (today : datetime) (c : command) : M AddressBook string :=
  match c with
  | CmdAdd args => add_contact args
  | CmdChange args => change_contact args
  | CmdPhone args => show_phone args
  | CmdAddBirthday args => add_birthday_handler args
  | CmdShowBirthday args => show_birthday args
  | CmdBirthdays => birthdays today
  | CmdAll => show_all_contacts
  end.

(** ** Reading a command (lines 157-171) *)

(** The string methods [parse_input] calls, on code points below 256. *)
Module PyWords.

(** [str.isspace] of a character: U+0009 .. U+000D, U+001C .. U+0020, U+0085
    and U+00A0. *)
Definition char_isspace (c : ascii) : bool :=
  ((9 <=? PyStr.code c)%nat && (PyStr.code c <=? 13)%nat)
  || ((28 <=? PyStr.code c)%nat && (PyStr.code c <=? 32)%nat)
  || (PyStr.code c =? 133)%nat || (PyStr.code c =? 160)%nat.

(** [s.split()]: the maximal runs of characters that are not white space.
    [word] holds the run being read. *)
Fixpoint split_words (word : string) (s : string) : list string :=
  match s with
  | EmptyString => match word with EmptyString => [] | _ => [word] end
  | String c s' =>
      if char_isspace c then
        match word with
        | EmptyString => split_words "" s'
        | _ => word :: split_words "" s'
        end
      else split_words (word ++ String c "") s'
  end.

Definition split (s : string) : list string := split_words "" s.

Fixpoint lstrip_space (s : string) : string :=
  match s with
  | String c s' => if char_isspace c then lstrip_space s' else s
  | EmptyString => EmptyString
  end.

Fixpoint reverse (acc s : string) : string :=
  match s with
  | EmptyString => acc
  | String c s' => reverse (String c acc) s'
  end.

(** [s.strip()] *)
Definition strip (s : string) : string :=
  reverse "" (lstrip_space (reverse "" (lstrip_space s))).

(** [str.lower] of a character: the letters A .. Z and U+00C0 .. U+00DE
    without the multiplication sign U+00D7 move up by 32. *)
Definition char_lower (c : ascii) : ascii :=
  if ((65 <=? PyStr.code c)%nat && (PyStr.code c <=? 90)%nat)
     || ((192 <=? PyStr.code c)%nat && (PyStr.code c <=? 222)%nat
         && negb (PyStr.code c =? 215)%nat)
  then ascii_of_nat (PyStr.code c + 32)
  else c.

Fixpoint lower (s : string) : string :=
  match s with
  | EmptyString => EmptyString
  | String c s' => String (char_lower c) (lower s')
  end.

End PyWords.

(** [parse_input]: the command word in lower case and the arguments.
    Unpacking an empty list of words raises [ValueError]. *)
Definition parse_input (user_input : string) : result (string * list string) :=
  match PyWords.split user_input with
  | [] => raise ValueError
  | cmd :: args => ok (PyWords.lower (PyWords.strip cmd), args)
  end.

(** ** The loop of [main] (lines 363-402) *)

Definition Fore_YELLOW : string := String "027" "[33m".
Definition Fore_BLUE : string := String "027" "[34m".
Definition Fore_WHITE : string := String "027" "[37m".
Definition Fore_RESET : string := String "027" "[39m".

(** One line of the list of commands. *)
Definition command_line (usage description : string) : string :=
  "    " ++ Fore_WHITE ++ usage ++ Fore_BLUE ++ description ++ nl.

(** [command_list], with [.upper()] applied to its heading. *)
Definition command_list : string :=
  nl ++ "    " ++ Fore_BLUE ++ "LIST OF AVAILABLE COMMANDS" ++ ":" ++ nl ++ nl
  ++ command_line "hello " "- say hello to the bot"
  ++ command_line "help " "- show list of commands"
  ++ command_line "add <username> <phone> "
       "- add a new contact with phone number"
  ++ command_line "change <username> <old phone> <new phone>"
       "- change phone number"
  ++ command_line "phone <username> " "- show phone number"
  ++ command_line "add-birthday <username> <birthday (dd.mm.YYYY)>"
       "- add/change birthday"
  ++ command_line "show-birthday <username> " "- show birthday"
  ++ command_line "birthdays "
       "- show all congratulation dates within the next 7 days"
  ++ command_line "all " "- show all contacts"
  ++ command_line "exit " "- exit the bot"
  ++ command_line "close " "- exit the bot"
  ++ "    ".

(** What one turn of the loop does besides changing the book: it writes a
    text and goes on, or it calls [save_data] on the book, writes a text and
    leaves the loop. *)
Inductive turn : Type :=
| Continue (written : string)
| Break (saved : AddressBook) (written : string).

(** [print(text)] writes the text and a line feed. *)
Definition print (text : string) : string := text ++ nl.

(** The body of the loop for one line read, on the day [today]. *)
Definition loop_body (today : datetime) (user_input : string)
  : M AddressBook turn :=
  fun book =>
    match parse_input user_input with
    | inl e => (book, inl e)
    | inr (command, args) =>
        if str_in command ["exit"; "close"] then
          (book, ok (Break book (print (Fore_GREEN ++ nl ++ "GOODBYE!"))))
        else if String.eqb command "hello" then
          (book, ok (Continue (print (Fore_WHITE ++ nl
                                      ++ "How can I help you?"))))
        else if String.eqb command "help" then
          (book, ok (Continue command_list))
        else if String.eqb command "add" then
          (out <-- add_contact args ;;; ret (Continue (print out))) book
        else if String.eqb command "change" then
          (out <-- change_contact args ;;; ret (Continue (print out))) book
        else if String.eqb command "phone" then
          (out <-- show_phone args ;;; ret (Continue (print out))) book
        else if String.eqb command "add-birthday" then
          (out <-- add_birthday_handler args ;;;
           ret (Continue (print out))) book
        else if String.eqb command "show-birthday" then
          (out <-- show_birthday args ;;; ret (Continue (print out))) book
        else if String.eqb command "birthdays" then
          (out <-- birthdays today ;;; ret (Continue (print out))) book
        else if String.eqb command "all" then
          (out <-- show_all_contacts ;;; ret (Continue (print out))) book
        else
          (book, ok (Continue (print (Fore_RED ++ nl ++ "Invalid command"))))
    end.

(** How a run of the loop over the lines typed so far stands: waiting for
    the next line, left through exit or close with the book saved, or ended
    by an exception. *)
Inductive session_end : Type :=
| Waiting
| Exited (saved : AddressBook)
| Crashed (e : exn).

(** The prompt [input] writes before it reads a line. *)
Definition prompt : string :=
  Fore_YELLOW ++ nl ++ "Enter a command: " ++ Fore_WHITE.

(** The loop over the lines typed, each with the day on which it is
    handled: the book in memory at the end, the texts written, and how the
    run stands.  After the loop [main] writes [Fore.RESET]. *)
Fixpoint main_loop (inputs : list (datetime * string)) (book : AddressBook)
  : AddressBook * list string * session_end :=
  match inputs with
  | [] => (book, [prompt], Waiting)
  | (today, user_input) :: inputs' =>
      match loop_body today user_input book with
      | (book', inl e) => (book', [prompt], Crashed e)
      | (book', inr (Break saved written)) =>
          (book', [prompt; written; Fore_RESET], Exited saved)
      | (book', inr (Continue written)) =>
          match main_loop inputs' book' with
          | (book'', texts, e) => (book'', prompt :: written :: texts, e)
          end
      end
  end.

(** ** Dates in strings of arbitrary code points

    [Birthday] is the validator whose outcome depends on characters above
    U+00FF: the [\d] of the pattern of [strptime] matches every character
    of category Nd, and [int] reads each of them as the digit it stands
    for.  This module embeds [strptime] and [Birthday] on strings given as
    the list of their code points; on the strings of code points below 256
    they are the functions of the same names above. *)

Module Unicode.

Definition ustr : Type := list Z.

(** [ord(c)] of a character below U+0100. *)
Definition chr (a : ascii) : Z := Z.of_nat (PyStr.code a).

Fixpoint of_string (s : string) : ustr :=
  match s with
  | EmptyString => []
  | String a s' => chr a :: of_string s'
  end.

Section Decimal.

(** The Unicode database above U+00FF: the digit that a character of
    category Nd stands for, and nothing for the other characters.  Which
    characters are digits depends on the version of the database, so it is
    an argument of the definitions. *)
Variable nd : Z -> option Z.

(** The digit of a decimal character.  Below U+0100 the decimal characters
    are '0' .. '9'. *)
Definition to_decimal (c : Z) : option Z :=
  if (48 <=? c) && (c <=? 57) then Some (c - 48)
  else if c <? 256 then None
  else nd c.

(** [\d] of a [str] pattern. *)
Definition is_decimal (c : Z) : bool :=
  match to_decimal c with
  | Some _ => true
  | None => false
  end.

Definition digit_value (c : Z) : Z :=
  match to_decimal c with
  | Some v => v
  | None => 0
  end.

(** The value of a run of decimal digits, most significant first. *)
Fixpoint digits_value (acc : Z) (s : ustr) : Z :=
  match s with
  | [] => acc
  | c :: s' => digits_value (10 * acc + digit_value c) s'
  end.

Fixpoint lstrip (s : ustr) : ustr :=
  match s with
  | c :: s' => if c =? chr " " then lstrip s' else s
  | [] => []
  end.

(** [int(s)] on a run of decimal digits after optional leading spaces. *)
Definition int (s : ustr) : Z := digits_value 0 (lstrip s).

(** A character class [lo-hi], and a literal character. *)
Definition in_range (lo hi : ascii) (c : Z) : bool :=
  (chr lo <=? c) && (c <=? chr hi).

Definition is_char (x : ascii) (c : Z) : bool := c =? chr x.

Definition seq1 (p : Z -> bool) (s : ustr) : option (ustr * ustr) :=
  match s with
  | a :: r => if p a then Some ([a], r) else None
  | _ => None
  end.

Definition seq2 (p q : Z -> bool) (s : ustr) : option (ustr * ustr) :=
  match s with
  | a :: b :: r => if p a && q b then Some ([a; b], r) else None
  | _ => None
  end.

(** [3[0-1]|[1-2]\d|0[1-9]|[1-9]| [1-9]] *)
Definition alts_d : list (ustr -> option (ustr * ustr)) :=
  [ seq2 (is_char "3") (in_range "0" "1");
    seq2 (in_range "1" "2") is_decimal;
    seq2 (is_char "0") (in_range "1" "9");
    seq1 (in_range "1" "9");
    seq2 (is_char " ") (in_range "1" "9") ].

(** [1[0-2]|0[1-9]|[1-9]] *)
Definition alts_m : list (ustr -> option (ustr * ustr)) :=
  [ seq2 (is_char "1") (in_range "0" "2");
    seq2 (is_char "0") (in_range "1" "9");
    seq1 (in_range "1" "9") ].

(** A group of alternatives followed by the rest of the pattern [k]: the
    first alternative after which the rest matches is taken. *)
Fixpoint alt {R : Type} (branches : list (ustr -> option (ustr * ustr)))
    (k : ustr -> ustr -> option R) (s : ustr) : option R :=
  match branches with
  | [] => None
  | br :: branches' =>
      match br s with
      | Some (g, s') =>
          match k g s' with
          | Some r => Some r
          | None => alt branches' k s
          end
      | None => alt branches' k s
      end
  end.

Definition lit {R : Type} (c : ascii) (k : ustr -> option R) (s : ustr)
  : option R :=
  match s with
  | a :: r => if is_char c a then k r else None
  | _ => None
  end.

(** [\d\d\d\d] *)
Definition year4 {R : Type} (k : ustr -> ustr -> option R) (s : ustr)
  : option R :=
  match s with
  | a :: b :: c :: d :: r =>
      if is_decimal a && is_decimal b && is_decimal c && is_decimal d
      then k [a; b; c; d] r
      else None
  | _ => None
  end.

Record found : Type :=
  mkFound { group_d : ustr; group_m : ustr; group_Y : ustr;
            unconverted : ustr }.

Definition format_regex_match (s : ustr) : option found :=
  alt alts_d (fun d s1 =>
    lit "." (fun s2 =>
      alt alts_m (fun m s3 =>
        lit "." (fun s4 =>
          year4 (fun y s5 => Some (mkFound d m y s5)) s4) s3) s2) s1) s.

(** [strptime(s, "%d.%m.%Y")]: [ValueError] when the string does not match,
    when input is left after the match, or when the fields are not a
    date. *)
Definition strptime (s : ustr) : result datetime :=
  match format_regex_match s with
  | None => raise ValueError
  | Some f =>
      match unconverted f with
      | _ :: _ => raise ValueError
      | [] => new (int (group_Y f)) (int (group_m f)) (int (group_d f))
      end
  end.

Record Field : Type := mkField { value : ustr }.

(** [Birthday.__init__] (lines 28-34). *)
Definition Birthday (v : ustr) : result Field :=
  match strptime v with
  | inr _ => ok (mkField v)
  | inl ValueError =>
      raise (DateValidationError "Invalid date (try using DD.MM.YYYY format)")
  | inl e => raise e
  end.

End Decimal.

(** The characters [0] of the decimal digits above U+00FF in version 14.0
    of the database (the one of CPython 3.11): each is followed by the
    characters of the digits one to nine of its script. *)
Definition zeros_14 : list Z :=
  [ 0x660; 0x6f0; 0x7c0; 0x966; 0x9e6; 0xa66; 0xae6; 0xb66; 0xbe6; 0xc66;
    0xce6; 0xd66; 0xde6; 0xe50; 0xed0; 0xf20; 0x1040; 0x1090; 0x17e0;
    0x1810; 0x1946; 0x19d0; 0x1a80; 0x1a90; 0x1b50; 0x1bb0; 0x1c40; 0x1c50;
    0xa620; 0xa8d0; 0xa900; 0xa9d0; 0xa9f0; 0xaa50; 0xabf0; 0xff10;
    0x104a0; 0x10d30; 0x11066; 0x110f0; 0x11136; 0x111d0; 0x112f0; 0x11450;
    0x114d0; 0x11650; 0x116c0; 0x11730; 0x118e0; 0x11950; 0x11c50; 0x11d50;
    0x11da0; 0x16a60; 0x16ac0; 0x16b50; 0x1d7ce; 0x1d7d8; 0x1d7e2; 0x1d7ec;
    0x1d7f6; 0x1e140; 0x1e2f0; 0x1e950; 0x1fbf0 ].

Definition decimal_14 (c : Z) : option Z :=
  match List.find (fun z => (z <=? c) && (c <=? z + 9)) zeros_14 with
  | Some z => Some (c - z)
  | None => None
  end.

End Unicode.

(** * Specification-level notions *)

(** A record is well formed when no two of its phones have the same value. *)
Definition phones_distinct (r : ContactRecord) : Prop :=
  NoDup (map value (phones r)).

(** A phone string is valid when the constructor accepts it. *)
Definition valid_phone (v : string) : Prop := exists f, Phone v = ok f.

(** The invariant of the directory: every key is the name of its record. *)
Definition keys_match (book : AddressBook) : Prop :=
  forall k r, In (k, r) book -> k = value (name r).


(** A date of the calendar: a year from 1 to 9999, a month from 1 to 12 and
    a day of that month, February having 29 days in the years divisible by 4
    that are not divisible by 100 unless they are divisible by 400. *)
Definition leap_year (y : Z) : Prop :=
  (4 | y) /\ (~ (100 | y) \/ (400 | y)).

Definition month_length (y m : Z) : Z :=
  if m =? 2 then (if is_leap y then 29 else 28)
  else if (m =? 4) || (m =? 6) || (m =? 9) || (m =? 11) then 30
  else 31.

Definition real_date (y m d : Z) : Prop :=
  1 <= y <= 9999 /\ 1 <= m <= 12 /\ 1 <= d <= month_length y m.

Definition valid_date (dt : datetime) : Prop :=
  real_date (year dt) (month dt) (day dt).

(** The order of the calendar. *)
Definition date_lt (a b : datetime) : Prop :=
  year a < year b
  \/ (year a = year b
      /\ (month a < month b \/ (month a = month b /\ day a < day b))).

(** *** Date strings *)

Definition decimal_digit (c : ascii) : Prop := PyStr.is_decimal c = true.

(** The format DD.MM.YYYY: two digits, a full stop, two digits, a full stop
    and four digits; the year, month and day the digits denote. *)
Definition DD_MM_YYYY (s : string) : option (Z * Z * Z) :=
  match s with
  | String d1 (String d2 (String p1 (String m1 (String m2 (String p2
      (String y1 (String y2 (String y3 (String y4 EmptyString))))))))) =>
      if PyStr.is_decimal d1 && PyStr.is_decimal d2
         && PyStr.is_decimal m1 && PyStr.is_decimal m2
         && PyStr.is_decimal y1 && PyStr.is_decimal y2
         && PyStr.is_decimal y3 && PyStr.is_decimal y4
         && Ascii.eqb p1 "." && Ascii.eqb p2 "."
      then Some (1000 * PyStr.digit_value y1 + 100 * PyStr.digit_value y2
                 + 10 * PyStr.digit_value y3 + PyStr.digit_value y4,
                 10 * PyStr.digit_value m1 + PyStr.digit_value m2,
                 10 * PyStr.digit_value d1 + PyStr.digit_value d2)
      else None
  | _ => None
  end.

(** The day field [strptime] reads: two digits, one digit, or a space and
    one digit. *)
Inductive day_field : string -> Z -> Prop :=
| day_two_digits (a b : ascii) :
    decimal_digit a -> decimal_digit b ->
    day_field (String a (String b ""))
      (10 * PyStr.digit_value a + PyStr.digit_value b)
| day_one_digit (a : ascii) :
    decimal_digit a -> day_field (String a "") (PyStr.digit_value a)
| day_space_digit (a : ascii) :
    decimal_digit a ->
    day_field (String " " (String a "")) (PyStr.digit_value a).

(** The month field: two digits or one. *)
Inductive month_field : string -> Z -> Prop :=
| month_two_digits (a b : ascii) :
    decimal_digit a -> decimal_digit b ->
    month_field (String a (String b ""))
      (10 * PyStr.digit_value a + PyStr.digit_value b)
| month_one_digit (a : ascii) :
    decimal_digit a -> month_field (String a "") (PyStr.digit_value a).

(** The year field: four digits. *)
Inductive year_field : string -> Z -> Prop :=
| year_four_digits (a b c d : ascii) :
    decimal_digit a -> decimal_digit b -> decimal_digit c ->
    decimal_digit d ->
    year_field (String a (String b (String c (String d ""))))
      (1000 * PyStr.digit_value a + 100 * PyStr.digit_value b
       + 10 * PyStr.digit_value c + PyStr.digit_value d).

(** A date string as [strptime] accepts it: day, month and year fields
    separated by full stops, with nothing before, between or after. *)
Definition date_string (s : string) (y m d : Z) : Prop :=
  exists ds ms ys,
    s = ds ++ "." ++ ms ++ "." ++ ys
    /\ day_field ds d /\ month_field ms m /\ year_field ys y.

(** *** Upcoming birthdays *)

(** The occurrence of a birthday in a year: the same month and day. *)
Definition occurrence (bday : datetime) (y : Z) : datetime :=
  mkDate y (month bday) (day bday).

Definition date_ltb (a b : datetime) : bool :=
  (year a <? year b)
  || ((year a =? year b)
      && ((month a <? month b)
          || ((month a =? month b) && (day a <? day b)))).

Definition date_eqb (a b : datetime) : bool :=
  (year a =? year b) && (month a =? month b) && (day a =? day b).

(** The next occurrence: this year's, or next year's when this year's is
    before today. *)
Definition next_occurrence (today bday : datetime) : datetime :=
  if date_ltb (occurrence bday (year today)) today
  then occurrence bday (year today + 1)
  else occurrence bday (year today).

(** The dates from today to seven days from today. *)
Definition window (today : datetime) : list datetime :=
  flat_map (fun k => match add_days today k with
                     | inr d => [d]
                     | inl _ => []
                     end)
    [0; 1; 2; 3; 4; 5; 6; 7].

Definition in_window (today occ : datetime) : bool :=
  existsb (date_eqb occ) (window today).

(** A record is due when it has a birthday whose next occurrence is in the
    window. *)
Definition due (today : datetime) (r : ContactRecord) : bool :=
  match birthday r with
  | Some b =>
      match strptime (value b) with
      | inr bday => in_window today (next_occurrence today bday)
      | inl _ => false
      end
  | None => false
  end.

(** [c] is the first Monday after [occ]. *)
Definition next_monday_after (occ c : datetime) : Prop :=
  valid_date c /\ weekday c = 0 /\ date_lt occ c
  /\ forall x, valid_date x -> date_lt occ x -> date_lt x c -> weekday x <> 0.

(** The day to congratulate on: the occurrence itself on a working day, the
    first Monday after it on a Saturday (5) or a Sunday (6). *)
Definition congratulation_day (occ c : datetime) : Prop :=
  (weekday occ < 5 /\ c = occ) \/ (5 <= weekday occ /\ next_monday_after occ c).

(** What an element of the result says about the directory: its name is a
    key whose record has a birthday with its next occurrence in the window,
    and its date is the day to congratulate on, printed by [date_to_string]. *)
Definition reported_for (today : datetime) (book : AddressBook)
    (c : congratulation) : Prop :=
  exists r b bday cday,
    In (c_name c, r) book
    /\ birthday r = Some b
    /\ strptime (value b) = ok bday
    /\ valid_date (next_occurrence today bday)
    /\ in_window today (next_occurrence today bday) = true
    /\ congratulation_day (next_occurrence today bday) cday
    /\ congratulation_date c = date_to_string cday
    /\ (1000 <= year today ->
        DD_MM_YYYY (congratulation_date c)
        = Some (year cday, month cday, day cday)).

(** The records the script can build: [Record(name)] followed by any calls
    of the methods, whether they return or raise. *)
Inductive record_built : ContactRecord -> Prop :=
| built_new (n : string) : record_built (new_record n)
| built_add_phone (v : string) (r : ContactRecord) :
    record_built r -> record_built (fst (add_phone v r))
| built_remove_phone (v : string) (r : ContactRecord) :
    record_built r -> record_built (fst (remove_phone v r))
| built_edit_phone (o n : string) (r : ContactRecord) :
    record_built r -> record_built (fst (edit_phone o n r))
| built_add_birthday (b : string) (r : ContactRecord) :
    record_built r -> record_built (fst (add_birthday b r)).

(** *** Well-formed records and directories *)

(** A record as the script builds them: distinct phones, each one a string
    [Phone] accepts, and a birthday, if any, that [Birthday] accepts. *)
Definition record_ok (r : ContactRecord) : Prop :=
  phones_distinct r
  /\ (forall ph, In ph (phones r) -> valid_phone (value ph))
  /\ (forall b, birthday r = Some b -> Birthday (value b) = ok b).

(** A directory as the script builds them: a dictionary (no key twice) that
    maps each key to a well-formed record of that name. *)
Definition book_ok (book : AddressBook) : Prop :=
  NoDup (keys book)
  /\ keys_match book
  /\ forall k r, In (k, r) book -> record_ok r.

(** *** Words *)

(** A line with nothing but white space. *)
Definition blank (s : string) : bool :=
  PyStr.forallb_str PyWords.char_isspace s.

(** A word: at least one character, none of them white space. *)
Definition is_word (s : string) : bool :=
  match s with
  | EmptyString => false
  | _ => PyStr.forallb_str (fun c => negb (PyWords.char_isspace c)) s
  end.

(** The birthdays that have no occurrence in some years. *)
Definition february_29 (bday : datetime) : bool :=
  (month bday =? 2) && (day bday =? 29).

(** *** Handlers *)

(** A handler body behaves well at a book when an exception leaves the book
    as it was and is one that [input_error] catches, and a text returned
    does not start in red. *)
Definition behaves (body : M AddressBook string) (book : AddressBook) : Prop :=
  match body book with
  | (book', inl e) => book' = book /\ e <> OverflowError
  | (_, inr out) => String.prefix Fore_RED out = false
  end.

(** No character of the string is white space. *)
Definition nospace (s : string) : bool :=
  PyStr.forallb_str (fun c => negb (PyWords.char_isspace c)) s.

(** *** Date strings of arbitrary code points *)

Module UnicodeDate.

Section Fields.

Variable nd : Z -> option Z.

(** An ASCII digit '0' .. '9' and the number it stands for. *)
Definition ascii_digit (c v : Z) : Prop := 48 <= c <= 57 /\ v = c - 48.

(** A decimal digit: an ASCII digit, or a character above U+00FF to which
    the database gives a digit. *)
Definition decimal_digit (c v : Z) : Prop :=
  ascii_digit c v \/ (256 <= c /\ nd c = Some v).

(** The day field [strptime] reads: two digits, one digit, or a space and
    one digit.  The digits are ASCII digits, except that after a first digit
    1 or 2 the second one may be any decimal digit. *)
Inductive day_field : Unicode.ustr -> Z -> Prop :=
| day_two_digits (a b va vb : Z) :
    ascii_digit a va -> decimal_digit b vb ->
    (va <> 1 -> va <> 2 -> ascii_digit b vb) ->
    day_field [a; b] (10 * va + vb)
| day_one_digit (a va : Z) :
    ascii_digit a va -> day_field [a] va
| day_space_digit (a va : Z) :
    ascii_digit a va -> day_field [32; a] va.

(** The month field: two ASCII digits or one. *)
Inductive month_field : Unicode.ustr -> Z -> Prop :=
| month_two_digits (a b va vb : Z) :
    ascii_digit a va -> ascii_digit b vb ->
    month_field [a; b] (10 * va + vb)
| month_one_digit (a va : Z) :
    ascii_digit a va -> month_field [a] va.

(** The year field: four decimal digits. *)
Inductive year_field : Unicode.ustr -> Z -> Prop :=
| year_four_digits (a b c d va vb vc vd : Z) :
    decimal_digit a va -> decimal_digit b vb -> decimal_digit c vc ->
    decimal_digit d vd ->
    year_field [a; b; c; d] (1000 * va + 100 * vb + 10 * vc + vd).

(** A date string as [strptime] accepts it: day, month and year fields
    separated by full stops (U+002E), with nothing before, between or
    after. *)
Definition date_string (s : Unicode.ustr) (y m d : Z) : Prop :=
  exists ds ms ys,
    s = (ds ++ [46] ++ ms ++ [46] ++ ys)%list
    /\ day_field ds d /\ month_field ms m /\ year_field ys y.

End Fields.

Definition is_ascii_digit (c : Z) : bool := (48 <=? c) && (c <=? 57).

(** The format DD.MM.YYYY in ASCII digits: two digits, a full stop, two
    digits, a full stop and four digits; the year, month and day the digits
    denote. *)
Definition DD_MM_YYYY (s : Unicode.ustr) : option (Z * Z * Z) :=
  match s with
  | [d1; d2; p1; m1; m2; p2; y1; y2; y3; y4] =>
      if is_ascii_digit d1 && is_ascii_digit d2
         && is_ascii_digit m1 && is_ascii_digit m2
         && is_ascii_digit y1 && is_ascii_digit y2
         && is_ascii_digit y3 && is_ascii_digit y4
         && (p1 =? 46) && (p2 =? 46)
      then Some (1000 * (y1 - 48) + 100 * (y2 - 48) + 10 * (y3 - 48)
                 + (y4 - 48),
                 10 * (m1 - 48) + (m2 - 48),
                 10 * (d1 - 48) + (d2 - 48))
      else None
  | _ => None
  end.

End UnicodeDate.

(** *** The strings of code points below 256 among the others *)

Definition groups_of_string (gs : string * string)
  : Unicode.ustr * Unicode.ustr :=
  (Unicode.of_string (fst gs), Unicode.of_string (snd gs)).

Definition found_of_string (f : found) : Unicode.found :=
  Unicode.mkFound (Unicode.of_string (group_d f))
    (Unicode.of_string (group_m f)) (Unicode.of_string (group_Y f))
    (Unicode.of_string (unconverted f)).

(** An alternative on code points does on a string of code points below
    256 what the alternative on characters does. *)
Definition simulates
    (br' : Unicode.ustr -> option (Unicode.ustr * Unicode.ustr))
    (br : string -> option (string * string)) : Prop :=
  forall s, br' (Unicode.of_string s) = option_map groups_of_string (br s).
(** * Properties *)

(** ** Results *)

Lemma ok_inj {A : Type} (a b : A) : ok a = ok b -> a = b.
Proof. unfold ok. congruence. Qed.

Lemma ok_not_raise {A : Type} (a : A) (e : exn) : ok a <> raise e.
Proof. unfold ok, raise. discriminate. Qed.

(** ** Strings and phones *)






Lemma Phone_ok_value (v : string) (f : Field) : Phone v = ok f -> f = mkField v.
Proof.
  unfold Phone, ok, raise.
  destruct (negb _); [discriminate|].
  destruct (negb _); [discriminate|]. congruence.
Qed.

Lemma Phone_total (v : string) :
  Phone v = ok (mkField v)
  \/ exists msg, Phone v = raise (PhoneValidationError msg).
Proof.
  unfold Phone.
  destruct (negb _); [right; eauto|].
  destruct (negb _); [right; eauto|]. left; reflexivity.
Qed.



(** ** Contact records *)

Lemma str_in_iff (x : string) (l : list string) : str_in x l = true <-> In x l.
Proof.
  unfold str_in. rewrite existsb_exists. split.
  - intros [y [Hy E]]. apply String.eqb_eq in E. subst. exact Hy.
  - intros H. exists x. split; [exact H | apply String.eqb_refl].
Qed.

Lemma str_in_false_iff (x : string) (l : list string) :
  str_in x l = false <-> ~ In x l.
Proof.
  rewrite <- str_in_iff. destruct (str_in x l); split; congruence.
Qed.

Lemma find_phone_in_None (p : string) (l : list Field) :
  find_phone_in p l = None <-> ~ In p (map value l).
Proof.
  induction l as [|ph l IH]; simpl.
  - split; auto.
  - destruct (String.eqb_spec p (value ph)) as [E|E].
    + split; [discriminate | intros H; exfalso; apply H; left; congruence].
    + rewrite IH. split; [intros H [H1|H1]; [congruence | auto] | tauto].
Qed.

Lemma find_phone_in_Some (p : string) (l : list Field) (ph : Field) :
  find_phone_in p l = Some ph -> In ph l /\ value ph = p.
Proof.
  induction l as [|x l IH]; simpl; [discriminate|].
  destruct (String.eqb_spec p (value x)) as [E|E].
  - intros [= <-]. auto.
  - intros H. destruct (IH H). auto.
Qed.

Lemma valid_phone_ok (v : string) : valid_phone v -> Phone v = ok (mkField v).
Proof. intros [f Hf]. rewrite Hf, (Phone_ok_value v f Hf). reflexivity. Qed.

(** What [add_phone] does, by cases. *)
Lemma add_phone_invalid (v : string) (r : ContactRecord) (e : exn) :
  Phone v = raise e -> add_phone v r = (r, raise e).
Proof. unfold add_phone, raise. intros ->. reflexivity. Qed.

Lemma add_phone_present (v : string) (r : ContactRecord) :
  valid_phone v -> In v (map value (phones r)) -> add_phone v r = (r, ok tt).
Proof.
  intros Hv Hin. unfold add_phone. rewrite (valid_phone_ok v Hv). simpl.
  apply str_in_iff in Hin. rewrite Hin. reflexivity.
Qed.

Lemma add_phone_absent (v : string) (r : ContactRecord) :
  valid_phone v -> ~ In v (map value (phones r)) ->
  add_phone v r = (set_phones r (phones r ++ [mkField v]), ok tt).
Proof.
  intros Hv Hin. unfold add_phone. rewrite (valid_phone_ok v Hv). simpl.
  apply str_in_false_iff in Hin. rewrite Hin. reflexivity.
Qed.

Lemma add_phone_cases (v : string) (r : ContactRecord) :
  (exists e, Phone v = raise e /\ add_phone v r = (r, raise e))
  \/ (valid_phone v /\ In v (map value (phones r))
      /\ add_phone v r = (r, ok tt))
  \/ (valid_phone v /\ ~ In v (map value (phones r))
      /\ add_phone v r = (set_phones r (phones r ++ [mkField v]), ok tt)).
Proof.
  destruct (Phone v) as [e|f] eqn:E.
  - left. exists e. split; [reflexivity | apply add_phone_invalid; exact E].
  - assert (Hv : valid_phone v) by (exists f; exact E).
    destruct (in_dec string_dec v (map value (phones r))) as [Hin|Hin].
    + right; left. auto using add_phone_present.
    + right; right. auto using add_phone_absent.
Qed.

(** The name of a record never changes, and the phones stay distinct. *)
Lemma add_phone_name (v : string) (r : ContactRecord) :
  name (fst (add_phone v r)) = name r
  /\ birthday (fst (add_phone v r)) = birthday r.
Proof.
  destruct (add_phone_cases v r) as [[e [_ ->]]|[[_ [_ ->]]|[_ [_ ->]]]];
    simpl; auto.
Qed.

Lemma add_phone_distinct (v : string) (r : ContactRecord) :
  phones_distinct r -> phones_distinct (fst (add_phone v r)).
Proof.
  unfold phones_distinct. intros Hr.
  destruct (add_phone_cases v r) as [[e [_ ->]]|[[_ [_ ->]]|[_ [Hin ->]]]];
    simpl; auto.
  rewrite map_app. simpl. apply NoDup_app.
  repeat split; auto.
  - constructor; [simpl; tauto | constructor].
  - intros x Hx [<-|[]]. exact (Hin Hx).
Qed.

Lemma NoDup_map_filter (p : Field -> bool) (l : list Field) :
  NoDup (map value l) -> NoDup (map value (filter p l)).
Proof.
  induction l as [|x l IH]; simpl; auto.
  intros H. inversion H as [|? ? Hx Hl]; subst.
  destruct (p x); simpl; auto.
  constructor; auto.
  intros Hin. apply Hx. apply in_map_iff in Hin as [y [Ey Hy]].
  apply filter_In in Hy as [Hy _]. rewrite <- Ey. apply in_map. exact Hy.
Qed.

Lemma remove_phone_distinct (v : string) (r : ContactRecord) :
  phones_distinct r -> phones_distinct (fst (remove_phone v r)).
Proof. unfold phones_distinct. simpl. apply NoDup_map_filter. Qed.

Lemma edit_phone_name (o n : string) (r : ContactRecord) :
  name (fst (edit_phone o n r)) = name r
  /\ birthday (fst (edit_phone o n r)) = birthday r.
Proof.
  unfold edit_phone. destruct (find_phone o r); [|simpl; auto].
  unfold bindM.
  pose proof (add_phone_name n r) as [Hn Hb].
  destruct (add_phone n r) as [r1 [e|[]]]; simpl in *; auto.
Qed.

Lemma edit_phone_distinct (o n : string) (r : ContactRecord) :
  phones_distinct r -> phones_distinct (fst (edit_phone o n r)).
Proof.
  intros Hr. unfold edit_phone. destruct (find_phone o r); [|exact Hr].
  unfold bindM.
  pose proof (add_phone_distinct n r Hr) as H1.
  destruct (add_phone n r) as [r1 [e|[]]]; simpl in *; auto.
  apply (remove_phone_distinct o r1 H1).
Qed.

Lemma add_birthday_name (b : string) (r : ContactRecord) :
  name (fst (add_birthday b r)) = name r
  /\ phones (fst (add_birthday b r)) = phones r.
Proof. unfold add_birthday. destruct (Birthday b); simpl; auto. Qed.

(** Every record the script can build has distinct phones. *)
Lemma record_built_distinct (r : ContactRecord) :
  record_built r -> phones_distinct r.
Proof.
  induction 1 as [n|v r _ IH|v r _ IH|o n r _ IH|b r _ IH].
  - constructor.
  - apply add_phone_distinct. exact IH.
  - apply remove_phone_distinct. exact IH.
  - apply edit_phone_distinct. exact IH.
  - unfold phones_distinct.
    rewrite (proj2 (add_birthday_name b r)). exact IH.
Qed.

(** C6: [edit_phone] on a record with no phone equal to the old value raises
    [MissingPhoneError], and the record it leaves is the record it was given:
    same name, same list of phones, same birthday. *)
Theorem edit_phone_missing_leaves_record : forall (r : ContactRecord)
    (old_value new_value : string),
  ~ In old_value (map value (phones r)) ->
  exists msg,
    edit_phone old_value new_value r = (r, raise (MissingPhoneError msg)).
Proof.
  intros r o n Hin. unfold edit_phone, find_phone.
  apply find_phone_in_None in Hin. rewrite Hin. eexists. reflexivity.
Qed.

Lemma edit_phone_missing_witness :
  exists msg,
    edit_phone "0000000000" "1111111111"
      (mkRecord (Name "Ann") [mkField "0123456789"] (Some (mkField "24.12.1990")))
    = (mkRecord (Name "Ann") [mkField "0123456789"]
         (Some (mkField "24.12.1990")),
       raise (MissingPhoneError msg)).
Proof.
  apply (edit_phone_missing_leaves_record
           (mkRecord (Name "Ann") [mkField "0123456789"]
              (Some (mkField "24.12.1990")))
           "0000000000" "1111111111").
  simpl. intros [H|[]]. discriminate H.
Defined.

Lemma count_occ_NoDup_In (l : list string) (x : string) :
  NoDup l -> In x l -> count_occ string_dec l x = 1%nat.
Proof.
  intros Hl Hx.
  apply (proj1 (NoDup_count_occ string_dec l)) with (x := x) in Hl.
  apply (proj1 (count_occ_In string_dec l x)) in Hx. lia.
Qed.

(** Two calls of [add_phone] with the same valid value on a record whose
    phones are distinct. *)
Lemma add_phone_twice_distinct (r : ContactRecord) (v : string) :
  phones_distinct r ->
  valid_phone v ->
  exists r1,
    add_phone v r = (r1, ok tt)
    /\ add_phone v r1 = (r1, ok tt)
    /\ count_occ string_dec (map value (phones r1)) v = 1%nat.
Proof.
  intros Hr Hv.
  pose proof (add_phone_distinct v r Hr) as Hd.
  destruct (add_phone_cases v r) as [[e [He _]]|[[_ [Hin Ha]]|[_ [Hin Ha]]]].
  - rewrite (valid_phone_ok v Hv) in He. discriminate He.
  - exists r. repeat split; auto.
    apply count_occ_NoDup_In; assumption.
  - rewrite Ha in Hd. simpl in Hd.
    assert (Hin' : In v (map value
                            (phones (set_phones r (phones r ++ [mkField v]))))).
    { simpl. rewrite map_app. apply in_or_app. right. simpl. auto. }
    eexists. split; [exact Ha|]. split.
    + apply add_phone_present; assumption.
    + apply count_occ_NoDup_In; assumption.
Qed.

(** C7: for every record the script can build and every valid phone string,
    two calls of [add_phone] with that string both return normally, the
    second changes nothing, and the record then holds exactly one phone with
    that value. *)
Theorem add_phone_twice_one_entry : forall (r : ContactRecord) (v : string),
  record_built r ->
  valid_phone v ->
  exists r1,
    add_phone v r = (r1, ok tt)
    /\ add_phone v r1 = (r1, ok tt)
    /\ count_occ string_dec (map value (phones r1)) v = 1%nat.
Proof.
  intros r v Hr Hv. apply add_phone_twice_distinct; [|exact Hv].
  apply record_built_distinct. exact Hr.
Qed.

Lemma add_phone_twice_witness :
  exists r1,
    add_phone "0123456789" (new_record "Ann") = (r1, ok tt)
    /\ add_phone "0123456789" r1 = (r1, ok tt)
    /\ count_occ string_dec (map value (phones r1)) "0123456789" = 1%nat.
Proof.
  apply (add_phone_twice_one_entry (new_record "Ann") "0123456789").
  - apply built_new.
  - exists (mkField "0123456789"). reflexivity.
Defined.

(** ** The directory *)

Lemma dict_get_In (k : string) (d : AddressBook) (r : ContactRecord) :
  dict_get k d = Some r -> In (k, r) d.
Proof.
  induction d as [|[k' v] d IH]; simpl; [discriminate|].
  destruct (String.eqb_spec k k') as [E|E].
  - intros [= <-]. left. congruence.
  - auto.
Qed.

Lemma dict_get_set_same (k : string) (v : ContactRecord) (d : AddressBook) :
  dict_get k (dict_set k v d) = Some v.
Proof.
  induction d as [|[k' v'] d IH]; simpl.
  - rewrite String.eqb_refl. reflexivity.
  - destruct (String.eqb k k') eqn:E; simpl; rewrite E; auto.
Qed.

Lemma dict_get_set_other (k k0 : string) (v : ContactRecord) (d : AddressBook) :
  k0 <> k -> dict_get k0 (dict_set k v d) = dict_get k0 d.
Proof.
  intros Hne. induction d as [|[k' v'] d IH]; simpl.
  - apply String.eqb_neq in Hne. rewrite Hne. reflexivity.
  - destruct (String.eqb_spec k k') as [E|E]; simpl.
    + subst k'. apply String.eqb_neq in Hne. rewrite Hne. reflexivity.
    + rewrite IH. reflexivity.
Qed.

Lemma keys_set_present (k : string) (v r : ContactRecord) (d : AddressBook) :
  dict_get k d = Some r -> keys (dict_set k v d) = keys d.
Proof.
  unfold keys. induction d as [|[k' v'] d IH]; simpl; [discriminate|].
  destruct (String.eqb k k'); simpl; [reflexivity|].
  intros H. rewrite (IH H). reflexivity.
Qed.

Lemma In_dict_set (k k0 : string) (v x : ContactRecord) (d : AddressBook) :
  In (k0, x) (dict_set k v d) -> In (k0, x) d \/ (k0 = k /\ x = v).
Proof.
  induction d as [|[k' v'] d IH]; simpl.
  - intros [[= <- <-]|[]]. auto.
  - destruct (String.eqb_spec k k') as [E|E]; simpl.
    + intros [[= <- <-]|H]; auto.
    + intros [H|H]; auto. destruct (IH H); auto.
Qed.

Lemma In_dict_pop (k : string) (e : string * ContactRecord) (d : AddressBook) :
  In e (dict_pop k d) -> In e d.
Proof.
  induction d as [|[k' v'] d IH]; simpl; auto.
  destruct (String.eqb k k'); simpl; auto.
  intros [H|H]; auto.
Qed.

Lemma find_dict_get (nm : string) (book : AddressBook) :
  find nm book = dict_get nm book.
Proof. unfold find, dict_mem. destruct (dict_get nm book); reflexivity. Qed.

Lemma add_record_keys_match (r : ContactRecord) (book : AddressBook) :
  keys_match book -> keys_match (add_record r book).
Proof.
  intros Hb k x Hin. apply In_dict_set in Hin as [Hin|[-> ->]]; auto.
Qed.

Lemma delete_keys_match (nm : string) (book : AddressBook) :
  keys_match book -> keys_match (delete nm book).
Proof.
  intros Hb. unfold delete. destruct (dict_mem nm book); auto.
  intros k x Hin. apply In_dict_pop in Hin. auto.
Qed.

Lemma on_record_keys_match {A : Type} (nm : string) (m : M ContactRecord A)
    (book : AddressBook) :
  (forall r, name (fst (m r)) = name r) ->
  keys_match book -> keys_match (fst (on_record nm m book)).
Proof.
  intros Hm Hb. unfold on_record.
  destruct (dict_get nm book) as [r|] eqn:E; simpl; auto.
  specialize (Hm r). destruct (m r) as [r' res]. simpl in *.
  intros k x Hin. apply In_dict_set in Hin as [Hin|[-> ->]]; auto.
  rewrite Hm. apply Hb. apply dict_get_In. exact E.
Qed.

Lemma input_error_state {S : Type} (f : M S string) (s : S) :
  fst (input_error f s) = fst (f s).
Proof.
  unfold input_error. destruct (f s) as [s' [e|out]]; [destruct e|];
    reflexivity.
Qed.

Lemma bindM_ret_state {S A B : Type} (m : M S A) (b : B) (s : S) :
  fst ((_ <-- m ;;; ret b) s) = fst (m s).
Proof. unfold bindM, ret. destruct (m s) as [s' [e|a]]; reflexivity. Qed.

Lemma add_contact_body_keys_match (args : list string) (book : AddressBook) :
  keys_match book -> keys_match (fst (add_contact_body args book)).
Proof.
  intros Hb. unfold add_contact_body.
  destruct args as [|nm [|phone rest]]; simpl; auto.
  destruct (find nm book).
  - rewrite bindM_ret_state. apply on_record_keys_match; auto.
    intros r. apply add_phone_name.
  - destruct (add_phone phone (new_record nm)) as [record [e|u]]; simpl; auto.
    apply add_record_keys_match. exact Hb.
Qed.

Lemma change_contact_body_keys_match (args : list string) (book : AddressBook) :
  keys_match book -> keys_match (fst (change_contact_body args book)).
Proof.
  intros Hb. unfold change_contact_body.
  destruct args as [|nm [|o [|n rest]]]; simpl; auto.
  destruct (find nm book); simpl; auto.
  rewrite bindM_ret_state. apply on_record_keys_match; auto.
  intros r. apply edit_phone_name.
Qed.

Lemma add_birthday_body_keys_match (args : list string) (book : AddressBook) :
  keys_match book -> keys_match (fst (add_birthday_body args book)).
Proof.
  intros Hb. unfold add_birthday_body.
  destruct args as [|nm [|b rest]]; simpl; auto.
  rewrite bindM_ret_state. apply on_record_keys_match; auto.
  intros r. apply add_birthday_name.
Qed.

Lemma show_phone_body_state (args : list string) (book : AddressBook) :
  fst (show_phone_body args book) = book.
Proof.
  unfold show_phone_body. destruct args as [|nm rest]; simpl; auto.
  destruct (dict_get nm book); reflexivity.
Qed.

Lemma show_birthday_body_state (args : list string) (book : AddressBook) :
  fst (show_birthday_body args book) = book.
Proof.
  unfold show_birthday_body. destruct args as [|nm rest]; simpl; auto.
  destruct (find nm book) as [r|]; [destruct (birthday r)|]; reflexivity.
Qed.

Lemma birthdays_body_state (today : datetime) (book : AddressBook) :
  fst (birthdays_body today book) = book.
Proof.
  unfold birthdays_body.
  destruct (get_upcoming_birthdays today book) as [e|[|c l]]; reflexivity.
Qed.

Lemma show_all_contacts_state (book : AddressBook) :
  fst (show_all_contacts book) = book.
Proof. destruct book; reflexivity. Qed.

(** C9: the operations of the directory keep every key equal to the name of
    its record: [add_record], [delete], and every command handler, whatever
    its arguments and whether it returns a result or an error text. *)
Theorem directory_operations_keep_keys_match : forall book : AddressBook,
  keys_match book ->
  (forall r, keys_match (add_record r book))
  /\ (forall nm, keys_match (delete nm book))
  /\ (forall today c, keys_match (fst (handle today c book))).
Proof.
  intros book Hb. split; [|split].
  - intros r. apply add_record_keys_match. exact Hb.
  - intros nm. apply delete_keys_match. exact Hb.
  - intros today [args|args|args|args|args| |]; simpl;
      unfold add_contact, change_contact, show_phone, add_birthday_handler,
        show_birthday, birthdays;
      rewrite ?input_error_state.
    + apply add_contact_body_keys_match. exact Hb.
    + apply change_contact_body_keys_match. exact Hb.
    + rewrite show_phone_body_state. exact Hb.
    + apply add_birthday_body_keys_match. exact Hb.
    + rewrite show_birthday_body_state. exact Hb.
    + rewrite birthdays_body_state. exact Hb.
    + rewrite show_all_contacts_state. exact Hb.
Qed.

(** The empty directory satisfies the invariant, so every directory built
    from it by the operations above does. *)
Lemma keys_match_empty : keys_match [].
Proof. intros k r []. Qed.

Lemma directory_operations_witness :
  (forall r, keys_match (add_record r [("Ann", new_record "Ann")]))
  /\ (forall nm, keys_match (delete nm [("Ann", new_record "Ann")]))
  /\ (forall today c,
        keys_match (fst (handle today c [("Ann", new_record "Ann")]))).
Proof.
  apply (directory_operations_keep_keys_match [("Ann", new_record "Ann")]).
  intros k r [[= <- <-]|[]]. reflexivity.
Defined.

(** C8: the add command on a name that is present changes the record stored
    under that name and nothing else: the keys of the directory and the
    records under the other names are the same, the record keeps its name
    and birthday, its phones are the old ones, followed by the new phone when
    that is valid and was not there; a valid phone is among them afterwards. *)
Theorem add_contact_existing_name : forall (book : AddressBook)
    (nm phone : string) (rest : list string) (r : ContactRecord),
  dict_get nm book = Some r ->
  keys (fst (add_contact (nm :: phone :: rest) book)) = keys book
  /\ (forall k, k <> nm ->
        dict_get k (fst (add_contact (nm :: phone :: rest) book))
        = dict_get k book)
  /\ exists r',
       dict_get nm (fst (add_contact (nm :: phone :: rest) book)) = Some r'
       /\ name r' = name r
       /\ birthday r' = birthday r
       /\ (phones r' = phones r \/ phones r' = (phones r ++ [mkField phone])%list)
       /\ (valid_phone phone -> In phone (map value (phones r'))).
Proof.
  intros book nm phone rest r Hget.
  unfold add_contact. rewrite input_error_state.
  unfold add_contact_body. rewrite find_dict_get, Hget.
  rewrite bindM_ret_state. unfold on_record. rewrite Hget.
  pose proof (add_phone_name phone r) as [Hn Hb].
  assert (Hp : (phones (fst (add_phone phone r)) = phones r
                \/ phones (fst (add_phone phone r))
                   = (phones r ++ [mkField phone])%list)
               /\ (valid_phone phone ->
                   In phone (map value (phones (fst (add_phone phone r)))))).
  { destruct (add_phone_cases phone r)
      as [[e [He ->]]|[[Hv [Hin ->]]|[Hv [Hin ->]]]]; simpl.
    - split; auto. intros Hv. rewrite (valid_phone_ok _ Hv) in He.
      discriminate He.
    - split; auto.
    - split; auto. intros _. rewrite map_app. apply in_or_app.
      right. simpl. auto. }
  destruct (add_phone phone r) as [r' res]. simpl in *.
  split; [apply (keys_set_present nm r' r book Hget)|].
  split; [intros k Hk; apply dict_get_set_other; exact Hk|].
  exists r'. split; [apply dict_get_set_same|]. tauto.
Qed.

Lemma add_contact_existing_witness :
  keys (fst (add_contact ["Ann"; "0123456789"]
               [("Ann", new_record "Ann"); ("Bob", new_record "Bob")]))
  = ["Ann"; "Bob"]
  /\ (forall k, k <> "Ann" ->
        dict_get k (fst (add_contact ["Ann"; "0123456789"]
                           [("Ann", new_record "Ann"); ("Bob", new_record "Bob")]))
        = dict_get k [("Ann", new_record "Ann"); ("Bob", new_record "Bob")])
  /\ exists r',
       dict_get "Ann" (fst (add_contact ["Ann"; "0123456789"]
                              [("Ann", new_record "Ann"); ("Bob", new_record "Bob")]))
       = Some r'
       /\ name r' = name (new_record "Ann")
       /\ birthday r' = birthday (new_record "Ann")
       /\ (phones r' = phones (new_record "Ann")
           \/ phones r' = (phones (new_record "Ann") ++ [mkField "0123456789"])%list)
       /\ (valid_phone "0123456789" -> In "0123456789" (map value (phones r'))).
Proof.
  apply (add_contact_existing_name
           [("Ann", new_record "Ann"); ("Bob", new_record "Bob")]
           "Ann" "0123456789" [] (new_record "Ann")).
  reflexivity.
Defined.

(** ** The calendar *)

Ltac divmod := Z.div_mod_to_equations; lia.

Lemma is_leap_true_iff (y : Z) :
  is_leap y = true <-> y mod 4 = 0 /\ (y mod 100 <> 0 \/ y mod 400 = 0).
Proof.
  unfold is_leap.
  rewrite andb_true_iff, orb_true_iff, negb_true_iff, !Z.eqb_eq, Z.eqb_neq.
  tauto.
Qed.

Lemma days_before_year_succ (y : Z) :
  days_before_year (y + 1)
  = days_before_year y + 365 + (if is_leap y then 1 else 0).
Proof.
  unfold days_before_year.
  replace (y + 1 - 1) with y by lia.
  destruct (is_leap y) eqn:L.
  - apply is_leap_true_iff in L. divmod.
  - assert (N : ~ (y mod 4 = 0 /\ (y mod 100 <> 0 \/ y mod 400 = 0))).
    { rewrite <- is_leap_true_iff. congruence. }
    divmod.
Qed.

Lemma days_before_year_mono (y1 y2 : Z) :
  y1 <= y2 -> days_before_year y1 + 365 * (y2 - y1) <= days_before_year y2.
Proof.
  intros H. replace y2 with (y1 + (y2 - y1)) at 2 by lia.
  assert (Hk : 0 <= y2 - y1) by lia. revert Hk.
  generalize (y2 - y1) as k. intros k Hk. pattern k.
  apply natlike_ind; [| |exact Hk].
  - replace (y1 + 0) with y1 by lia. lia.
  - intros x Hx IH. replace (y1 + Z.succ x) with ((y1 + x) + 1) by lia.
    rewrite days_before_year_succ. destruct (is_leap (y1 + x)); lia.
Qed.

Lemma is_leap_leap_year (y : Z) : is_leap y = true <-> leap_year y.
Proof.
  rewrite is_leap_true_iff. unfold leap_year.
  rewrite <- !Z.mod_divide by lia. tauto.
Qed.

Lemma days_in_month_length (y m : Z) :
  1 <= m <= 12 -> days_in_month y m = month_length y m.
Proof.
  intros Hm. unfold days_in_month, month_length.
  assert (C : m = 1 \/ m = 2 \/ m = 3 \/ m = 4 \/ m = 5 \/ m = 6 \/ m = 7
              \/ m = 8 \/ m = 9 \/ m = 10 \/ m = 11 \/ m = 12) by lia.
  repeat (destruct C as [->|C]); try subst m; simpl;
    destruct (is_leap y); reflexivity.
Qed.

Lemma check_date_fields_iff (y m d : Z) :
  check_date_fields y m d = true <-> real_date y m d.
Proof.
  unfold check_date_fields, real_date, MINYEAR, MAXYEAR.
  rewrite !andb_true_iff, !Z.leb_le. split.
  - intros [[[[[H1 H2] H3] H4] H5] H6].
    rewrite <- days_in_month_length by lia. lia.
  - intros [H1 [H2 H3]]. rewrite days_in_month_length by lia. lia.
Qed.

Lemma new_ok_iff (y m d : Z) (dt : datetime) :
  new y m d = ok dt <-> real_date y m d /\ dt = mkDate y m d.
Proof.
  unfold new, ok, raise. rewrite <- check_date_fields_iff.
  destruct (check_date_fields y m d); split.
  - intros [= <-]. auto.
  - intros [_ ->]. reflexivity.
  - discriminate.
  - intros [H _]. discriminate.
Qed.

Lemma new_raises (y m d : Z) :
  ~ real_date y m d -> new y m d = raise ValueError.
Proof.
  unfold new. rewrite <- check_date_fields_iff.
  destruct (check_date_fields y m d); [intros H; exfalso; auto | reflexivity].
Qed.

Ltac month_cases m :=
  let C := fresh "C" in
  assert (C : m = 1 \/ m = 2 \/ m = 3 \/ m = 4 \/ m = 5 \/ m = 6 \/ m = 7
              \/ m = 8 \/ m = 9 \/ m = 10 \/ m = 11 \/ m = 12) by lia;
  repeat (destruct C as [C|C]); subst m.

(** The days of a year are numbered after those of the years before it. *)
Lemma toordinal_in_year (dt : datetime) :
  valid_date dt ->
  days_before_year (year dt) < toordinal dt <= days_before_year (year dt + 1).
Proof.
  destruct dt as [y m d]. unfold valid_date, real_date, toordinal, ymd2ord.
  simpl. intros [Hy [Hm Hd]].
  rewrite days_before_year_succ. unfold days_before_month.
  unfold month_length in Hd.
  month_cases m; simpl in *; destruct (is_leap y); simpl; lia.
Qed.

Lemma days_before_year_1 : days_before_year 1 = 0.
Proof. reflexivity. Qed.

Lemma days_before_year_10000 : days_before_year 10000 = MAXORDINAL.
Proof. reflexivity. Qed.

Lemma toordinal_range (dt : datetime) :
  valid_date dt -> 1 <= toordinal dt <= MAXORDINAL.
Proof.
  intros H. pose proof (toordinal_in_year dt H) as Hin.
  destruct H as [Hy _].
  pose proof (days_before_year_mono 1 (year dt) ltac:(lia)) as H1.
  pose proof (days_before_year_mono (year dt + 1) 10000 ltac:(lia)) as H2.
  rewrite days_before_year_1 in H1. rewrite days_before_year_10000 in H2.
  lia.
Qed.

(** The order of the ordinals is the order of the calendar. *)
Lemma toordinal_lt (a b : datetime) :
  valid_date a -> valid_date b -> date_lt a b -> toordinal a < toordinal b.
Proof.
  intros Ha Hb [Hy|[Hy Hmd]].
  - pose proof (toordinal_in_year a Ha). pose proof (toordinal_in_year b Hb).
    pose proof (days_before_year_mono (year a + 1) (year b) ltac:(lia)). lia.
  - destruct a as [y m d], b as [y' m' d'].
    unfold valid_date, real_date, toordinal, ymd2ord in *. simpl in *.
    subst y'. destruct Ha as [_ [Hm Hd]], Hb as [_ [Hm' Hd']].
    unfold days_before_month. unfold month_length in *.
    destruct Hmd as [Hlt|[-> Hlt]]; [|lia].
    month_cases m; month_cases m'; try lia; simpl in *;
      destruct (is_leap y); simpl; lia.
Qed.

Lemma date_lt_trichotomy (a b : datetime) : date_lt a b \/ a = b \/ date_lt b a.
Proof.
  destruct a as [y m d], b as [y' m' d']. unfold date_lt. simpl.
  destruct (Z.lt_trichotomy y y') as [H|[H|H]];
    [left; lia | | right; right; lia].
  destruct (Z.lt_trichotomy m m') as [H1|[H1|H1]];
    [left; lia | | right; right; lia].
  destruct (Z.lt_trichotomy d d') as [H2|[H2|H2]];
    [left; lia | | right; right; lia].
  right; left. congruence.
Qed.

Lemma toordinal_lt_iff (a b : datetime) :
  valid_date a -> valid_date b -> (toordinal a < toordinal b <-> date_lt a b).
Proof.
  intros Ha Hb. split; [|apply toordinal_lt; assumption].
  intros H. destruct (date_lt_trichotomy a b) as [L|[E|L]]; auto.
  - subst. lia.
  - apply toordinal_lt in L; auto. lia.
Qed.

Lemma toordinal_inj (a b : datetime) :
  valid_date a -> valid_date b -> toordinal a = toordinal b -> a = b.
Proof.
  intros Ha Hb H. destruct (date_lt_trichotomy a b) as [L|[E|L]]; auto;
    apply toordinal_lt in L; auto; lia.
Qed.

(** *** Ordinals and dates *)

Lemma days_before_year_decomposed (a b c e : Z) :
  0 <= b <= 3 -> 0 <= c <= 24 -> 0 <= e <= 3 ->
  days_before_year (400 * a + 100 * b + 4 * c + e + 1)
  = 146097 * a + 36524 * b + 1461 * c + 365 * e.
Proof. intros Hb Hc He. unfold days_before_year. divmod. Qed.

Lemma is_leap_decomposed (a b c e : Z) :
  0 <= b <= 3 -> 0 <= c <= 24 -> 0 <= e <= 3 ->
  is_leap (400 * a + 100 * b + 4 * c + e + 1)
  = (e =? 3) && (negb (c =? 24) || (b =? 3)).
Proof.
  intros Hb Hc He. apply eq_true_iff_eq.
  rewrite is_leap_true_iff.
  rewrite andb_true_iff, orb_true_iff, negb_true_iff, !Z.eqb_eq, Z.eqb_neq.
  split.
  - intros [H4 H100].
    assert (E : e = 3) by divmod. subst e. clear H4. split; [reflexivity|].
    destruct (Z.eq_dec c 24) as [C|C]; [right|left; exact C].
    subst c.
    replace (400 * a + 100 * b + 4 * 24 + 3 + 1) with (100 * (4 * a + b + 1))
      in H100 by lia.
    destruct H100 as [H|H].
    + exfalso. apply H. rewrite Z.mul_comm. apply Z.mod_mul. lia.
    + replace (100 * (4 * a + b + 1)) with ((b + 1) * 100 + a * 400) in H
        by lia.
      divmod.
  - intros [-> H]. split; [divmod|].
    destruct (Z.eq_dec c 24) as [C|C].
    + right. assert (B : b = 3) by tauto. subst b c.
      replace (400 * a + 100 * 3 + 4 * 24 + 3 + 1) with ((a + 1) * 400) by lia.
      apply Z.mod_mul. lia.
    + left.
      replace (400 * a + 100 * b + 4 * c + 3 + 1)
        with (4 * (c + 1) + (4 * a + b) * 100) by lia.
      rewrite Z.mod_add by lia. rewrite Z.mod_small by lia. lia.
Qed.

Lemma date_of_parts (y m d n : Z) (L : bool) :
  is_leap y = L ->
  1 <= y <= 9999 ->
  1 <= m <= 12 ->
  1 <= d <= (if (m =? 2) && L then 29 else DAYS_IN_MONTH m) ->
  days_before_year y + (DAYS_BEFORE_MONTH m + (if (2 <? m) && L then 1 else 0))
  + d = n ->
  valid_date (mkDate y m d) /\ toordinal (mkDate y m d) = n.
Proof.
  intros HL Hy Hm Hd Hn. subst L. split.
  - unfold valid_date, real_date. simpl.
    rewrite <- days_in_month_length by lia. unfold days_in_month. lia.
  - unfold toordinal, ymd2ord, days_before_month. simpl. exact Hn.
Qed.

(** Look up the tables and decide the tests at a month that is a numeral. *)
Ltac numeral k :=
  lazymatch k with Z0 => idtac | Zpos _ => idtac | Zneg _ => idtac end.

Ltac tables :=
  repeat match goal with
    | |- context [DAYS_BEFORE_MONTH ?k] =>
        numeral k;
        let v := eval compute in (DAYS_BEFORE_MONTH k) in
        progress change (DAYS_BEFORE_MONTH k) with v
    | |- context [DAYS_IN_MONTH ?k] =>
        numeral k;
        let v := eval compute in (DAYS_IN_MONTH k) in
        progress change (DAYS_IN_MONTH k) with v
    | |- context [2 <? ?k] =>
        numeral k;
        let v := eval compute in (2 <? k) in
        progress change (2 <? k) with v
    | |- context [?k =? 2] =>
        numeral k;
        let v := eval compute in (k =? 2) in
        progress change (k =? 2) with v
    end.

(** The month and the day of the [f]-th day of a year ([f] from 0), as
    [ord2ymd] finds them from the estimate [(f + 50) >> 5]. *)
Lemma month_estimate (f : Z) (L : bool) :
  0 <= f <= 364 ->
  let m := Z.shiftr (f + 50) 5 in
  let preceding := DAYS_BEFORE_MONTH m + (if (2 <? m) && L then 1 else 0) in
  let m' := if f <? preceding then m - 1 else m in
  let preceding' :=
    if f <? preceding
    then preceding
         - (DAYS_IN_MONTH (m - 1) + (if (m - 1 =? 2) && L then 1 else 0))
    else preceding in
  1 <= m' <= 12
  /\ 1 <= f - preceding' + 1
       <= (if (m' =? 2) && L then 29 else DAYS_IN_MONTH m')
  /\ (DAYS_BEFORE_MONTH m' + (if (2 <? m') && L then 1 else 0))
     + (f - preceding' + 1) = f + 1.
Proof.
  intros Hf. rewrite Z.shiftr_div_pow2 by lia. change (2 ^ 5) with 32.
  set (m := (f + 50) / 32).
  assert (Hm : 32 * m <= f + 50 < 32 * m + 32) by (subst m; divmod).
  assert (Hm' : 1 <= m <= 12) by lia.
  clearbody m. cbv zeta.
  month_cases m;
    match goal with
    | |- context [?k - 1] =>
        let v := eval compute in (k - 1) in change (k - 1) with v
    end;
    tables; destruct L; cbn [andb];
    match goal with
    | |- context [f <? ?p] => destruct (Z.ltb_spec f p)
    end; cbv beta iota; tables; cbn [andb]; lia.
Qed.

Theorem ord2ymd_toordinal (n : Z) :
  1 <= n <= MAXORDINAL ->
  valid_date (ord2ymd n) /\ toordinal (ord2ymd n) = n.
Proof.
  unfold MAXORDINAL. intros Hn.
  unfold ord2ymd, DI400Y, DI100Y, DI4Y. cbv zeta.
  set (n0 := n - 1).
  set (a := n0 / 146097). set (r1 := n0 mod 146097).
  set (b := r1 / 36524). set (r2 := r1 mod 36524).
  set (c := r2 / 1461). set (r3 := r2 mod 1461).
  set (e := r3 / 365). set (f := r3 mod 365).
  assert (Ha : n0 = 146097 * a + r1 /\ 0 <= r1 < 146097)
    by (subst a r1; divmod).
  assert (Hb : r1 = 36524 * b + r2 /\ 0 <= r2 < 36524)
    by (subst b r2; divmod).
  assert (Hc : r2 = 1461 * c + r3 /\ 0 <= r3 < 1461)
    by (subst c r3; divmod).
  assert (He : r3 = 365 * e + f /\ 0 <= f < 365)
    by (subst e f; divmod).
  assert (Hn0 : n0 = n - 1) by reflexivity.
  clearbody n0 a r1 b r2 c r3 e f.
  assert (Ra : 0 <= a <= 24) by lia.
  assert (Rb : 0 <= b <= 4) by lia.
  assert (Rc : 0 <= c <= 24) by lia.
  assert (Re : 0 <= e <= 4) by lia.
  destruct (Z.eqb_spec e 4) as [E4|E4]; cbn [orb].
  - (* the last day of a leap year that is not the last of its century *)
    assert (Hb3 : 0 <= b <= 3) by lia.
    assert (Hc23 : 0 <= c <= 23) by lia.
    replace (a * 400 + 1 + b * 100 + c * 4 + e - 1)
      with (400 * a + 100 * b + 4 * c + 3 + 1) by lia.
    apply (date_of_parts _ 12 31 n true).
    + rewrite is_leap_decomposed by lia.
      destruct (Z.eqb_spec c 24); [lia | reflexivity].
    + lia.
    + lia.
    + tables; cbn [andb]; cbv beta iota; lia.
    + rewrite days_before_year_decomposed by lia.
      tables; cbn [andb]; cbv beta iota; lia.
  - destruct (Z.eqb_spec b 4) as [B4|B4]; cbn [orb].
    + (* the last day of a cycle of 400 years *)
      replace (a * 400 + 1 + b * 100 + c * 4 + e - 1)
        with (400 * a + 100 * 3 + 4 * 24 + 3 + 1) by lia.
      apply (date_of_parts _ 12 31 n true).
      * rewrite is_leap_decomposed by lia. reflexivity.
      * lia.
      * lia.
      * tables; cbn [andb]; cbv beta iota; lia.
      * rewrite days_before_year_decomposed by lia.
      tables; cbn [andb]; cbv beta iota; lia.
    + assert (Hb3 : 0 <= b <= 3) by lia.
      assert (He3 : 0 <= e <= 3) by lia.
      replace (a * 400 + 1 + b * 100 + c * 4 + e)
        with (400 * a + 100 * b + 4 * c + e + 1) by lia.
      set (L := (e =? 3) && (negb (c =? 24) || (b =? 3))).
      pose proof (month_estimate f L ltac:(lia)) as Hmd. cbv zeta in Hmd.
      destruct Hmd as [Hm [Hd Hsum]].
      destruct (f <? DAYS_BEFORE_MONTH (Z.shiftr (f + 50) 5)
                     + (if (2 <? Z.shiftr (f + 50) 5) && L then 1 else 0));
        apply (date_of_parts _ _ _ n L);
        try (rewrite is_leap_decomposed by lia; reflexivity);
        try assumption; try lia;
        rewrite days_before_year_decomposed by lia; lia.
Qed.

(** ** Parsing dates *)

Lemma in_range_spec (lo hi c : ascii) :
  PyStr.in_range lo hi c = true
  <-> (PyStr.code lo <= PyStr.code c <= PyStr.code hi)%nat.
Proof.
  unfold PyStr.in_range. rewrite andb_true_iff, !Nat.leb_le. tauto.
Qed.

Lemma is_char_spec (x c : ascii) :
  is_char x c = true <-> PyStr.code c = PyStr.code x.
Proof. unfold is_char. apply Nat.eqb_eq. Qed.

Lemma code_inj (a b : ascii) : PyStr.code a = PyStr.code b -> a = b.
Proof.
  unfold PyStr.code. intros H.
  rewrite <- (ascii_nat_embedding a), <- (ascii_nat_embedding b), H.
  reflexivity.
Qed.

Lemma is_char_eq (x c : ascii) : is_char x c = true <-> c = x.
Proof.
  rewrite is_char_spec. split; [apply code_inj | intros ->; reflexivity].
Qed.

Lemma decimal_digit_spec (c : ascii) :
  decimal_digit c <-> (48 <= PyStr.code c <= 57)%nat.
Proof. unfold decimal_digit, PyStr.is_decimal. apply in_range_spec. Qed.

Lemma digit_value_range (c : ascii) :
  decimal_digit c -> 0 <= PyStr.digit_value c <= 9.
Proof. rewrite decimal_digit_spec. unfold PyStr.digit_value. lia. Qed.

Lemma lstrip_not_space (a : ascii) (s : string) :
  PyStr.code a <> 32%nat -> PyStr.lstrip (String a s) = String a s.
Proof.
  destruct a as [[] [] [] [] [] [] [] []]; intros H; try reflexivity.
  exfalso. apply H. reflexivity.
Qed.

Lemma int_digits (s : string) (a : ascii) :
  decimal_digit a ->
  PyStr.int (String a s) = PyStr.digits_value 0 (String a s).
Proof.
  intros Ha. unfold PyStr.int. rewrite lstrip_not_space; [reflexivity|].
  apply decimal_digit_spec in Ha. lia.
Qed.

Lemma int_space_digit (a : ascii) :
  decimal_digit a ->
  PyStr.int (String " " (String a "")) = PyStr.digit_value a.
Proof.
  intros Ha. unfold PyStr.int.
  change (PyStr.lstrip (String " " (String a "")))
    with (PyStr.lstrip (String a "")).
  rewrite lstrip_not_space by (apply decimal_digit_spec in Ha; lia).
  cbn [PyStr.digits_value]. lia.
Qed.

(** The integer [strptime] reads from a field is the number the field
    denotes. *)
Lemma day_field_int (ds : string) (d : Z) : day_field ds d -> PyStr.int ds = d.
Proof.
  intros [a b Ha Hb|a Ha|a Ha].
  - rewrite int_digits by assumption. cbn [PyStr.digits_value]. lia.
  - rewrite int_digits by assumption. cbn [PyStr.digits_value]. lia.
  - apply int_space_digit. assumption.
Qed.

Lemma month_field_int (ms : string) (m : Z) :
  month_field ms m -> PyStr.int ms = m.
Proof.
  intros [a b Ha Hb|a Ha]; rewrite int_digits by assumption;
    cbn [PyStr.digits_value]; lia.
Qed.

Lemma year_field_int (ys : string) (y : Z) :
  year_field ys y -> PyStr.int ys = y.
Proof.
  intros [a b c d Ha Hb Hc Hd]. rewrite int_digits by assumption.
  cbn [PyStr.digits_value]. lia.
Qed.

(** *** The regular expression *)

Lemma alt_Some {R : Type} (brs : list (string -> option (string * string)))
    (k : string -> string -> option R) (s : string) (r : R) :
  alt brs k s = Some r ->
  exists br g s', In br brs /\ br s = Some (g, s') /\ k g s' = Some r.
Proof.
  induction brs as [|br brs IH]; simpl; [discriminate|].
  destruct (br s) as [[g s']|] eqn:E.
  - destruct (k g s') as [r'|] eqn:K.
    + intros [= <-]. exists br, g, s'. auto.
    + intros H. destruct (IH H) as [br' [g' [s'' [Hin H']]]].
      exists br', g', s''. auto.
  - intros H. destruct (IH H) as [br' [g' [s'' [Hin H']]]].
    exists br', g', s''. auto.
Qed.

Lemma seq1_Some (p : ascii -> bool) (s g s' : string) :
  seq1 p s = Some (g, s') ->
  exists a, s = String a s' /\ g = String a "" /\ p a = true.
Proof.
  unfold seq1. destruct s as [|a r]; [discriminate|].
  destruct (p a) eqn:P; [|discriminate]. intros [= <- <-]. eauto.
Qed.

Lemma seq2_Some (p q : ascii -> bool) (s g s' : string) :
  seq2 p q s = Some (g, s') ->
  exists a b,
    s = String a (String b s') /\ g = String a (String b "")
    /\ p a = true /\ q b = true.
Proof.
  unfold seq2. destruct s as [|a [|b r]]; try discriminate.
  destruct (p a) eqn:P; [|discriminate].
  destruct (q b) eqn:Q; [|discriminate]. intros [= <- <-].
  exists a, b. auto.
Qed.

Lemma lit_Some {R : Type} (c : ascii) (k : string -> option R) (s : string)
    (r : R) :
  lit c k s = Some r -> exists s', s = String c s' /\ k s' = Some r.
Proof.
  unfold lit. destruct s as [|a s']; [discriminate|].
  destruct (is_char c a) eqn:E; [|discriminate].
  apply is_char_eq in E. subst a. eauto.
Qed.

Lemma year4_Some {R : Type} (k : string -> string -> option R) (s : string)
    (r : R) :
  year4 k s = Some r ->
  exists g s' y, s = g ++ s' /\ year_field g y /\ k g s' = Some r.
Proof.
  unfold year4. destruct s as [|a [|b [|c [|d s']]]]; try discriminate.
  destruct (PyStr.is_decimal a) eqn:A; [|discriminate].
  destruct (PyStr.is_decimal b) eqn:B; [|discriminate].
  destruct (PyStr.is_decimal c) eqn:C; [|discriminate].
  destruct (PyStr.is_decimal d) eqn:D; [|discriminate].
  simpl. intros H. eexists _, s', _. split; [|split; [|exact H]].
  - reflexivity.
  - constructor; assumption.
Qed.

(** Character classes as facts about code points. *)
Ltac codes :=
  repeat match goal with
    | H : decimal_digit _ |- _ => apply decimal_digit_spec in H
    | H : PyStr.is_decimal _ = true |- _ =>
        apply (proj1 (decimal_digit_spec _)) in H
    | H : PyStr.in_range _ _ _ = true |- _ => apply in_range_spec in H
    | H : is_char _ _ = true |- _ => apply is_char_spec in H
    end;
  change (PyStr.code "0") with 48%nat in *;
  change (PyStr.code "1") with 49%nat in *;
  change (PyStr.code "2") with 50%nat in *;
  change (PyStr.code "3") with 51%nat in *;
  change (PyStr.code "9") with 57%nat in *;
  change (PyStr.code " ") with 32%nat in *;
  change (PyStr.code ".") with 46%nat in *.

Lemma alts_d_sound (br : string -> option (string * string))
    (s g s' : string) :
  In br alts_d -> br s = Some (g, s') ->
  s = g ++ s' /\ exists d, day_field g d.
Proof.
  unfold alts_d. simpl.
  intros [<-|[<-|[<-|[<-|[<-|[]]]]]] H;
    first [ apply seq2_Some in H as [a [b [-> [-> [Ha Hb]]]]]
          | apply seq1_Some in H as [a [-> [-> Ha]]] ];
    (split; [reflexivity|]); codes.
  - eexists. apply day_two_digits; apply decimal_digit_spec; lia.
  - eexists. apply day_two_digits; apply decimal_digit_spec; lia.
  - eexists. apply day_two_digits; apply decimal_digit_spec; lia.
  - eexists. apply day_one_digit; apply decimal_digit_spec; lia.
  - assert (E : a = " "%char) by (apply code_inj; exact Ha). subst a.
    eexists. apply day_space_digit; apply decimal_digit_spec; lia.
Qed.

Lemma alts_m_sound (br : string -> option (string * string))
    (s g s' : string) :
  In br alts_m -> br s = Some (g, s') ->
  s = g ++ s' /\ exists m, month_field g m.
Proof.
  unfold alts_m. simpl.
  intros [<-|[<-|[<-|[]]]] H;
    first [ apply seq2_Some in H as [a [b [-> [-> [Ha Hb]]]]]
          | apply seq1_Some in H as [a [-> [-> Ha]]] ];
    (split; [reflexivity|]); codes.
  - eexists. apply month_two_digits; apply decimal_digit_spec; lia.
  - eexists. apply month_two_digits; apply decimal_digit_spec; lia.
  - eexists. apply month_one_digit; apply decimal_digit_spec; lia.
Qed.

Lemma append_assoc (a b c : string) : (a ++ b) ++ c = a ++ (b ++ c).
Proof.
  induction a as [|x a IH]; simpl; [reflexivity | rewrite IH; reflexivity].
Qed.

Lemma append_empty_r (a : string) : a ++ "" = a.
Proof.
  induction a as [|x a IH]; simpl; [reflexivity | rewrite IH; reflexivity].
Qed.

(** A match splits the input into the three fields, the two separators and
    what is left. *)
Lemma format_regex_match_sound (s : string) (f : found) :
  format_regex_match s = Some f ->
  s = group_d f ++ "." ++ group_m f ++ "." ++ group_Y f ++ unconverted f
  /\ (exists d, day_field (group_d f) d)
  /\ (exists m, month_field (group_m f) m)
  /\ (exists y, year_field (group_Y f) y).
Proof.
  unfold format_regex_match. intros H.
  apply alt_Some in H as [br [gd [s1 [Hbr [Hd H]]]]].
  apply lit_Some in H as [s2 [-> H]].
  apply alt_Some in H as [br' [gm [s3 [Hbr' [Hm H]]]]].
  apply lit_Some in H as [s4 [-> H]].
  apply year4_Some in H as [gy [s5 [y [-> [Hy H]]]]].
  injection H as <-. simpl.
  destruct (alts_d_sound _ _ _ _ Hbr Hd) as [-> Dd].
  destruct (alts_m_sound _ _ _ _ Hbr' Hm) as [-> Dm].
  repeat split; eauto.
Qed.

(** Decide the character tests of a goal, keeping each outcome as a fact
    about code points. *)
Ltac bool_cases :=
  repeat match goal with
    | |- context [is_char ?x ?c] =>
        let E := fresh "E" in
        destruct (is_char x c) eqn:E;
        [ apply is_char_spec in E
        | apply not_true_iff_false in E; rewrite is_char_spec in E ]
    | |- context [PyStr.in_range ?x ?y ?c] =>
        let E := fresh "E" in
        destruct (PyStr.in_range x y c) eqn:E;
        [ apply in_range_spec in E
        | apply not_true_iff_false in E; rewrite in_range_spec in E ]
    | |- context [PyStr.is_decimal ?c] =>
        let E := fresh "E" in
        destruct (PyStr.is_decimal c) eqn:E;
        [ apply (proj1 (decimal_digit_spec _)) in E
        | apply not_true_iff_false in E;
          change (~ decimal_digit c) in E; rewrite decimal_digit_spec in E ]
    end.

Lemma alts_d_complete (ds : string) (d : Z) :
  day_field ds d -> 1 <= d <= 31 ->
  forall (R : Type) (k : string -> string -> option R) (rest : string) (r : R),
    k ds (String "." rest) = Some r ->
    alt alts_d k (ds ++ String "." rest) = Some r.
Proof.
  intros [a b Ha Hb|a Ha|a Ha] Hd R k rest r Hk;
    unfold PyStr.digit_value in Hd; codes;
    cbn [append alt alts_d seq1 seq2];
    bool_cases; codes; cbn [andb]; rewrite ?Hk; try reflexivity; lia.
Qed.

Lemma alts_m_complete (ms : string) (m : Z) :
  month_field ms m -> 1 <= m <= 12 ->
  forall (R : Type) (k : string -> string -> option R) (rest : string) (r : R),
    k ms (String "." rest) = Some r ->
    alt alts_m k (ms ++ String "." rest) = Some r.
Proof.
  intros [a b Ha Hb|a Ha] Hm R k rest r Hk;
    unfold PyStr.digit_value in Hm; codes;
    cbn [append alt alts_m seq1 seq2];
    bool_cases; codes; cbn [andb]; rewrite ?Hk; try reflexivity; lia.
Qed.

Lemma year4_complete (ys : string) (y : Z) :
  year_field ys y ->
  forall (R : Type) (k : string -> string -> option R) (rest : string),
    year4 k (ys ++ rest) = k ys rest.
Proof.
  intros [a b c d Ha Hb Hc Hd] R k rest. unfold decimal_digit in *.
  cbn [append year4]. rewrite Ha, Hb, Hc, Hd. reflexivity.
Qed.

Lemma lit_same {R : Type} (c : ascii) (k : string -> option R) (s : string) :
  lit c k (String c s) = k s.
Proof.
  unfold lit. replace (is_char c c) with true; [reflexivity|].
  symmetry. apply is_char_eq. reflexivity.
Qed.

(** A date string whose day and month are in range is matched whole, with
    its fields as the groups. *)
Lemma format_regex_match_complete (ds ms ys : string) (y m d : Z) :
  day_field ds d -> month_field ms m -> year_field ys y ->
  1 <= d <= 31 -> 1 <= m <= 12 ->
  format_regex_match (ds ++ "." ++ ms ++ "." ++ ys)
  = Some (mkFound ds ms ys "").
Proof.
  intros Hd Hm Hy Rd Rm. unfold format_regex_match.
  change ("." ++ ms ++ "." ++ ys) with (String "." (ms ++ String "." ys)).
  apply (alts_d_complete ds d Hd Rd). rewrite lit_same.
  apply (alts_m_complete ms m Hm Rm). rewrite lit_same.
  rewrite <- (append_empty_r ys) at 1.
  rewrite (year4_complete ys y Hy). reflexivity.
Qed.

(** *** [strptime] and [Birthday] *)

Lemma month_length_le_31 (y m : Z) : month_length y m <= 31.
Proof.
  unfold month_length.
  destruct (m =? 2); [destruct (is_leap y); lia|].
  destruct ((m =? 4) || (m =? 6) || (m =? 9) || (m =? 11)); lia.
Qed.

Lemma strptime_ok_iff (s : string) (dt : datetime) :
  strptime s = ok dt <->
  exists y m d, date_string s y m d /\ real_date y m d /\ dt = mkDate y m d.
Proof.
  unfold strptime. split.
  - destruct (format_regex_match s) as [f|] eqn:F; [|discriminate].
    destruct (String.eqb_spec (unconverted f) "") as [U|U];
      cbn [negb]; [|discriminate].
    intros H. apply new_ok_iff in H as [Hreal ->].
    destruct (format_regex_match_sound s f F)
      as [Hs [[d Hd] [[m Hm] [y Hy]]]].
    rewrite U, append_empty_r in Hs.
    rewrite (day_field_int _ _ Hd), (month_field_int _ _ Hm),
      (year_field_int _ _ Hy) in *.
    exists y, m, d. split; [|auto].
    exists (group_d f), (group_m f), (group_Y f). auto.
  - intros [y [m [d [[ds [ms [ys [-> [Hd [Hm Hy]]]]]] [Hreal ->]]]]].
    pose proof (month_length_le_31 y m) as Hle.
    rewrite (format_regex_match_complete ds ms ys y m d Hd Hm Hy)
      by (unfold real_date in Hreal; lia).
    cbn [unconverted group_d group_m group_Y String.eqb negb].
    rewrite (day_field_int _ _ Hd), (month_field_int _ _ Hm),
      (year_field_int _ _ Hy).
    apply new_ok_iff. auto.
Qed.

Lemma strptime_total (s : string) :
  (exists dt, strptime s = ok dt) \/ strptime s = raise ValueError.
Proof.
  unfold strptime. destruct (format_regex_match s) as [f|]; [|auto].
  destruct (negb _); [auto|].
  unfold new. destruct (check_date_fields _ _ _); eauto.
Qed.

Lemma strptime_valid (s : string) (dt : datetime) :
  strptime s = ok dt -> valid_date dt.
Proof.
  intros H. apply strptime_ok_iff in H as [y [m [d [_ [Hreal ->]]]]].
  exact Hreal.
Qed.

Lemma Birthday_ok_iff (v : string) :
  Birthday v = ok (mkField v) <-> exists dt, strptime v = ok dt.
Proof.
  unfold Birthday. destruct (strptime_total v) as [[dt H]|H]; rewrite H.
  - split; eauto.
  - split; [discriminate | intros [dt' H']; discriminate].
Qed.

Lemma Birthday_total (v : string) :
  Birthday v = ok (mkField v)
  \/ Birthday v
     = raise (DateValidationError "Invalid date (try using DD.MM.YYYY format)").
Proof.
  unfold Birthday. destruct (strptime_total v) as [[dt H]|H]; rewrite H; auto.
Qed.

Lemma Birthday_ok_value (v : string) (f : Field) :
  Birthday v = ok f -> f = mkField v.
Proof.
  unfold ok, raise.
  destruct (Birthday_total v) as [H|H]; rewrite H; unfold ok, raise;
    [intros [= <-]; reflexivity | discriminate].
Qed.

(** A string in the format DD.MM.YYYY is a date string in one way only. *)
Lemma DD_MM_YYYY_date_string (v : string) (y m d : Z) :
  DD_MM_YYYY v = Some (y, m, d) ->
  date_string v y m d
  /\ forall y' m' d', date_string v y' m' d' -> y' = y /\ m' = m /\ d' = d.
Proof.
  unfold DD_MM_YYYY.
  destruct v as [|d1 [|d2 [|p1 [|m1 [|m2 [|p2 [|y1 [|y2 [|y3 [|y4 [|? ?]]]]]]]]]]];
    try discriminate.
  destruct (PyStr.is_decimal d1) eqn:D1; [|discriminate].
  destruct (PyStr.is_decimal d2) eqn:D2; [|discriminate].
  destruct (PyStr.is_decimal m1) eqn:M1; [|discriminate].
  destruct (PyStr.is_decimal m2) eqn:M2; [|discriminate].
  destruct (PyStr.is_decimal y1) eqn:Y1; [|discriminate].
  destruct (PyStr.is_decimal y2) eqn:Y2; [|discriminate].
  destruct (PyStr.is_decimal y3) eqn:Y3; [|discriminate].
  destruct (PyStr.is_decimal y4) eqn:Y4; [|discriminate].
  destruct (Ascii.eqb_spec p1 ".") as [->|]; [|discriminate].
  destruct (Ascii.eqb_spec p2 ".") as [->|]; [|discriminate].
  cbn [andb]. intros H.
  assert (Ey : y = 1000 * PyStr.digit_value y1 + 100 * PyStr.digit_value y2
                   + 10 * PyStr.digit_value y3 + PyStr.digit_value y4)
    by congruence.
  assert (Em : m = 10 * PyStr.digit_value m1 + PyStr.digit_value m2)
    by congruence.
  assert (Ed : d = 10 * PyStr.digit_value d1 + PyStr.digit_value d2)
    by congruence.
  subst y m d. clear H. split.
  - exists (String d1 (String d2 "")), (String m1 (String m2 "")),
      (String y1 (String y2 (String y3 (String y4 "")))).
    repeat split; first [assumption | constructor; assumption].
  - intros y' m' d' [ds [ms [ys [E [Hd [Hm Hy]]]]]].
    destruct Hd as [a b Ha Hb|a Ha|a Ha]; cbn [append] in E.
    + destruct Hm as [a' b' Ha' Hb'|a' Ha']; cbn [append] in E.
      * destruct Hy as [c1 c2 c3 c4 H1 H2 H3 H4].
        inversion E; subst. auto.
      * exfalso. inversion E; subst. discriminate M2.
    + exfalso. inversion E; subst. discriminate D2.
    + exfalso. inversion E; subst. discriminate D1.
Qed.

(** On the strings of code points below 256: [Birthday] accepts exactly
    the date strings [strptime] reads -- a day of two digits, one digit, or
    a space and one digit; a month of two digits or one; a year of four
    digits, separated by full stops -- that denote a date of the calendar,
    and stores the string it was given; every other string raises
    [DateValidationError].  A string in the zero-padded format DD.MM.YYYY
    is accepted exactly when it denotes a date of the calendar. *)
Lemma Birthday_accepts_date_strings : forall v : string,
  (Birthday v = ok (mkField v) <->
     exists y m d, date_string v y m d /\ real_date y m d)
  /\ (forall f, Birthday v = ok f -> value f = v)
  /\ (~ (exists y m d, date_string v y m d /\ real_date y m d) ->
      exists msg, Birthday v = raise (DateValidationError msg))
  /\ (forall y m d, DD_MM_YYYY v = Some (y, m, d) ->
        (Birthday v = ok (mkField v) <-> real_date y m d)).
Proof.
  intros v.
  assert (Hiff : Birthday v = ok (mkField v) <->
                 exists y m d, date_string v y m d /\ real_date y m d).
  { rewrite Birthday_ok_iff. split.
    - intros [dt H]. apply strptime_ok_iff in H as [y [m [d [H1 [H2 _]]]]].
      eauto.
    - intros [y [m [d [H1 H2]]]]. exists (mkDate y m d).
      apply strptime_ok_iff. eauto 6. }
  split; [exact Hiff|]. split; [|split].
  - intros f Hf. rewrite (Birthday_ok_value v f Hf). reflexivity.
  - intros Hn. destruct (Birthday_total v) as [H|H]; [|eauto].
    exfalso. apply Hn. apply Hiff. exact H.
  - intros y m d Hfmt.
    destruct (DD_MM_YYYY_date_string v y m d Hfmt) as [Hds Huniq].
    rewrite Hiff. split.
    + intros [y' [m' [d' [H1 H2]]]].
      destruct (Huniq y' m' d' H1) as [-> [-> ->]]. exact H2.
    + intros Hreal. eauto.
Qed.

(** The dates the specification names. *)
Lemma Birthday_examples :
  Birthday "29.02.2024" = ok (mkField "29.02.2024")
  /\ Birthday "31.02.2024"
     = raise (DateValidationError "Invalid date (try using DD.MM.YYYY format)")
  /\ Birthday "29.02.2023"
     = raise (DateValidationError "Invalid date (try using DD.MM.YYYY format)").
Proof. repeat split. Qed.

(** C1 as the specification words it fails: "1.1.2024" is not in the
    zero-padded format DD.MM.YYYY, and neither is " 1.01.2024", yet
    [Birthday] accepts both. *)
Lemma Birthday_accepts_unpadded_dates :
  DD_MM_YYYY "1.1.2024" = None
  /\ Birthday "1.1.2024" = ok (mkField "1.1.2024")
  /\ DD_MM_YYYY " 1.01.2024" = None
  /\ Birthday " 1.01.2024" = ok (mkField " 1.01.2024").
Proof. repeat split. Qed.

(** ** Dates in strings of arbitrary code points *)

Section UnicodeDates.

Variable nd : Z -> option Z.

Lemma to_decimal_spec (c v : Z) :
  Unicode.to_decimal nd c = Some v <-> UnicodeDate.decimal_digit nd c v.
Proof.
  unfold Unicode.to_decimal, UnicodeDate.decimal_digit,
    UnicodeDate.ascii_digit.
  destruct (Z.leb_spec 48 c) as [L|L], (Z.leb_spec c 57) as [U|U];
    cbn [andb].
  - split.
    + intros H. injection H as <-. left. split; [lia | reflexivity].
    + intros [[_ ->]|[H _]]; [reflexivity | lia].
  - destruct (Z.ltb_spec c 256) as [B|B]; split.
    + discriminate.
    + intros [[H _]|[H _]]; lia.
    + intros H. right. split; [exact B | exact H].
    + intros [[H _]|[_ H]]; [lia | exact H].
  - split; [|intros [[H _]|[H _]]; lia].
    destruct (Z.ltb_spec c 256); [discriminate | lia].
  - split; [|intros [[H _]|[H _]]; lia].
    destruct (Z.ltb_spec c 256); [discriminate | lia].
Qed.

Lemma is_decimal_spec (c : Z) :
  Unicode.is_decimal nd c = true
  <-> exists v, UnicodeDate.decimal_digit nd c v.
Proof.
  unfold Unicode.is_decimal.
  destruct (Unicode.to_decimal nd c) as [v|] eqn:E.
  - split; [|reflexivity]. intros _. exists v. apply to_decimal_spec, E.
  - split; [discriminate|]. intros [v H]. apply to_decimal_spec in H.
    congruence.
Qed.

Lemma digit_value_decimal (c v : Z) :
  UnicodeDate.decimal_digit nd c v -> Unicode.digit_value nd c = v.
Proof.
  intros H. apply to_decimal_spec in H. unfold Unicode.digit_value.
  rewrite H. reflexivity.
Qed.

Lemma is_decimal_digit (c v : Z) :
  UnicodeDate.decimal_digit nd c v -> Unicode.is_decimal nd c = true.
Proof. intros H. apply is_decimal_spec. eauto. Qed.

Lemma ascii_digit_decimal (c v : Z) :
  UnicodeDate.ascii_digit c v -> UnicodeDate.decimal_digit nd c v.
Proof. intros H. left. exact H. Qed.

Lemma decimal_digit_not_space (c v : Z) :
  UnicodeDate.decimal_digit nd c v -> c <> 32.
Proof. intros [[H _]|[H _]]; lia. Qed.

Lemma decimal_digit_below_256 (c v : Z) :
  UnicodeDate.decimal_digit nd c v -> c < 256 ->
  UnicodeDate.ascii_digit c v.
Proof. intros [H|[H _]] L; [exact H | lia]. Qed.

Lemma unicode_in_range_spec (lo hi : ascii) (c : Z) :
  Unicode.in_range lo hi c = true
  <-> Unicode.chr lo <= c <= Unicode.chr hi.
Proof.
  unfold Unicode.in_range. rewrite andb_true_iff, !Z.leb_le. tauto.
Qed.

Lemma unicode_is_char_spec (x : ascii) (c : Z) :
  Unicode.is_char x c = true <-> c = Unicode.chr x.
Proof. unfold Unicode.is_char. apply Z.eqb_eq. Qed.

(** Character classes as facts about code points. *)
Ltac chrs :=
  change (Unicode.chr "0") with 48 in *;
  change (Unicode.chr "1") with 49 in *;
  change (Unicode.chr "2") with 50 in *;
  change (Unicode.chr "3") with 51 in *;
  change (Unicode.chr "9") with 57 in *;
  change (Unicode.chr " ") with 32 in *;
  change (Unicode.chr ".") with 46 in *.

Ltac ucodes :=
  repeat match goal with
    | H : Unicode.in_range _ _ _ = true |- _ =>
        apply unicode_in_range_spec in H
    | H : Unicode.is_char _ _ = true |- _ =>
        apply unicode_is_char_spec in H
    end;
  chrs.

Lemma lstrip_not_space_u (a : Z) (s : Unicode.ustr) :
  a <> 32 -> Unicode.lstrip (a :: s) = a :: s.
Proof.
  intros H. cbn [Unicode.lstrip]. chrs.
  destruct (Z.eqb_spec a 32); [contradiction | reflexivity].
Qed.

(** The integer [strptime] reads from a field is the number the field
    denotes. *)
Lemma unicode_day_field_int (ds : Unicode.ustr) (d : Z) :
  UnicodeDate.day_field nd ds d -> Unicode.int nd ds = d.
Proof.
  intros [a b va vb Ha Hb _|a va Ha|a va Ha]; unfold Unicode.int.
  - apply ascii_digit_decimal in Ha.
    rewrite lstrip_not_space_u by (apply (decimal_digit_not_space _ _ Ha)).
    cbn [Unicode.digits_value].
    rewrite (digit_value_decimal _ _ Ha), (digit_value_decimal _ _ Hb). lia.
  - apply ascii_digit_decimal in Ha.
    rewrite lstrip_not_space_u by (apply (decimal_digit_not_space _ _ Ha)).
    cbn [Unicode.digits_value].
    rewrite (digit_value_decimal _ _ Ha). lia.
  - apply ascii_digit_decimal in Ha.
    change (Unicode.lstrip [32; a]) with (Unicode.lstrip [a]).
    rewrite lstrip_not_space_u by (apply (decimal_digit_not_space _ _ Ha)).
    cbn [Unicode.digits_value].
    rewrite (digit_value_decimal _ _ Ha). lia.
Qed.

Lemma unicode_month_field_int (ms : Unicode.ustr) (m : Z) :
  UnicodeDate.month_field ms m -> Unicode.int nd ms = m.
Proof.
  intros [a b va vb Ha Hb|a va Ha]; unfold Unicode.int;
    apply ascii_digit_decimal in Ha;
    rewrite lstrip_not_space_u by (apply (decimal_digit_not_space _ _ Ha));
    cbn [Unicode.digits_value]; rewrite (digit_value_decimal _ _ Ha).
  - apply ascii_digit_decimal in Hb.
    rewrite (digit_value_decimal _ _ Hb). lia.
  - lia.
Qed.

Lemma unicode_year_field_int (ys : Unicode.ustr) (y : Z) :
  UnicodeDate.year_field nd ys y -> Unicode.int nd ys = y.
Proof.
  intros [a b c d va vb vc vd Ha Hb Hc Hd]. unfold Unicode.int.
  rewrite lstrip_not_space_u by (apply (decimal_digit_not_space _ _ Ha)).
  cbn [Unicode.digits_value].
  rewrite (digit_value_decimal _ _ Ha), (digit_value_decimal _ _ Hb),
    (digit_value_decimal _ _ Hc), (digit_value_decimal _ _ Hd). lia.
Qed.

(** *** The regular expression *)

Lemma unicode_alt_Some {R : Type}
    (brs : list (Unicode.ustr -> option (Unicode.ustr * Unicode.ustr)))
    (k : Unicode.ustr -> Unicode.ustr -> option R) (s : Unicode.ustr)
    (r : R) :
  Unicode.alt brs k s = Some r ->
  exists br g s', In br brs /\ br s = Some (g, s') /\ k g s' = Some r.
Proof.
  induction brs as [|br brs IH]; cbn [Unicode.alt]; [discriminate|].
  destruct (br s) as [[g s']|] eqn:E.
  - destruct (k g s') as [r'|] eqn:K.
    + intros H. injection H as <-. exists br, g, s'.
      split; [left; reflexivity | auto].
    + intros H. destruct (IH H) as [br' [g' [s'' [Hin H']]]].
      exists br', g', s''. split; [right; exact Hin | exact H'].
  - intros H. destruct (IH H) as [br' [g' [s'' [Hin H']]]].
    exists br', g', s''. split; [right; exact Hin | exact H'].
Qed.

Lemma unicode_seq1_Some (p : Z -> bool) (s g s' : Unicode.ustr) :
  Unicode.seq1 p s = Some (g, s') ->
  exists a, s = a :: s' /\ g = [a] /\ p a = true.
Proof.
  unfold Unicode.seq1. destruct s as [|a r]; [discriminate|].
  destruct (p a) eqn:P; [|discriminate]. intros H. injection H as <- <-.
  eauto.
Qed.

Lemma unicode_seq2_Some (p q : Z -> bool) (s g s' : Unicode.ustr) :
  Unicode.seq2 p q s = Some (g, s') ->
  exists a b, s = a :: b :: s' /\ g = [a; b] /\ p a = true /\ q b = true.
Proof.
  unfold Unicode.seq2. destruct s as [|a [|b r]]; try discriminate.
  destruct (p a) eqn:P; [|discriminate].
  destruct (q b) eqn:Q; [|discriminate]. cbn [andb].
  intros H. injection H as <- <-. exists a, b. auto.
Qed.

Lemma unicode_lit_Some {R : Type} (c : ascii)
    (k : Unicode.ustr -> option R) (s : Unicode.ustr) (r : R) :
  Unicode.lit c k s = Some r ->
  exists s', s = Unicode.chr c :: s' /\ k s' = Some r.
Proof.
  unfold Unicode.lit. destruct s as [|a s']; [discriminate|].
  destruct (Unicode.is_char c a) eqn:E; [|discriminate].
  apply unicode_is_char_spec in E. subst a. eauto.
Qed.

Lemma unicode_year4_Some {R : Type}
    (k : Unicode.ustr -> Unicode.ustr -> option R) (s : Unicode.ustr)
    (r : R) :
  Unicode.year4 nd k s = Some r ->
  exists g s' y,
    s = (g ++ s')%list /\ UnicodeDate.year_field nd g y /\ k g s' = Some r.
Proof.
  unfold Unicode.year4. destruct s as [|a [|b [|c [|d s']]]]; try discriminate.
  destruct (Unicode.is_decimal nd a) eqn:A; [|discriminate].
  destruct (Unicode.is_decimal nd b) eqn:B; [|discriminate].
  destruct (Unicode.is_decimal nd c) eqn:C; [|discriminate].
  destruct (Unicode.is_decimal nd d) eqn:D; [|discriminate].
  cbn [andb]. intros H.
  apply is_decimal_spec in A as [va A], B as [vb B], C as [vc C],
    D as [vd D].
  eexists [a; b; c; d], s', _. split; [reflexivity|].
  split; [|exact H]. constructor; eassumption.
Qed.

Lemma unicode_alts_d_sound
    (br : Unicode.ustr -> option (Unicode.ustr * Unicode.ustr))
    (s g s' : Unicode.ustr) :
  In br (Unicode.alts_d nd) -> br s = Some (g, s') ->
  s = (g ++ s')%list /\ exists d, UnicodeDate.day_field nd g d.
Proof.
  unfold Unicode.alts_d. cbn [In].
  intros [<-|[<-|[<-|[<-|[<-|[]]]]]] H;
    first [ apply unicode_seq2_Some in H as [a [b [-> [-> [Ha Hb]]]]]
          | apply unicode_seq1_Some in H as [a [-> [-> Ha]]] ];
    (split; [reflexivity|]); ucodes.
  - exists (10 * (a - 48) + (b - 48)).
    apply UnicodeDate.day_two_digits; [split; lia | left; split; lia |].
    intros _ _. split; lia.
  - apply is_decimal_spec in Hb as [vb Hb].
    exists (10 * (a - 48) + vb).
    apply UnicodeDate.day_two_digits; [split; lia | exact Hb | lia].
  - exists (10 * (a - 48) + (b - 48)).
    apply UnicodeDate.day_two_digits; [split; lia | left; split; lia |].
    intros _ _. split; lia.
  - exists (a - 48). apply UnicodeDate.day_one_digit. split; lia.
  - subst a. exists (b - 48). apply UnicodeDate.day_space_digit. split; lia.
Qed.

Lemma unicode_alts_m_sound
    (br : Unicode.ustr -> option (Unicode.ustr * Unicode.ustr))
    (s g s' : Unicode.ustr) :
  In br Unicode.alts_m -> br s = Some (g, s') ->
  s = (g ++ s')%list /\ exists m, UnicodeDate.month_field g m.
Proof.
  unfold Unicode.alts_m. cbn [In].
  intros [<-|[<-|[<-|[]]]] H;
    first [ apply unicode_seq2_Some in H as [a [b [-> [-> [Ha Hb]]]]]
          | apply unicode_seq1_Some in H as [a [-> [-> Ha]]] ];
    (split; [reflexivity|]); ucodes.
  - exists (10 * (a - 48) + (b - 48)).
    apply UnicodeDate.month_two_digits; split; lia.
  - exists (10 * (a - 48) + (b - 48)).
    apply UnicodeDate.month_two_digits; split; lia.
  - exists (a - 48). apply UnicodeDate.month_one_digit. split; lia.
Qed.

(** A match splits the input into the three fields, the two separators and
    what is left. *)
Lemma unicode_format_regex_match_sound (s : Unicode.ustr)
    (f : Unicode.found) :
  Unicode.format_regex_match nd s = Some f ->
  s = (Unicode.group_d f ++ [46] ++ Unicode.group_m f ++ [46]
       ++ Unicode.group_Y f ++ Unicode.unconverted f)%list
  /\ (exists d, UnicodeDate.day_field nd (Unicode.group_d f) d)
  /\ (exists m, UnicodeDate.month_field (Unicode.group_m f) m)
  /\ (exists y, UnicodeDate.year_field nd (Unicode.group_Y f) y).
Proof.
  unfold Unicode.format_regex_match. intros H.
  apply unicode_alt_Some in H as [br [gd [s1 [Hbr [Hd H]]]]].
  apply unicode_lit_Some in H as [s2 [-> H]].
  apply unicode_alt_Some in H as [br' [gm [s3 [Hbr' [Hm H]]]]].
  apply unicode_lit_Some in H as [s4 [-> H]].
  apply unicode_year4_Some in H as [gy [s5 [y [-> [Hy H]]]]].
  injection H as <-. cbn [Unicode.group_d Unicode.group_m Unicode.group_Y
                          Unicode.unconverted].
  destruct (unicode_alts_d_sound _ _ _ _ Hbr Hd) as [-> Dd].
  destruct (unicode_alts_m_sound _ _ _ _ Hbr' Hm) as [-> Dm].
  split; [reflexivity|]. split; [exact Dd|]. split; [exact Dm|].
  exists y. exact Hy.
Qed.

(** Decide the character tests of a goal, keeping each outcome as a fact
    about code points. *)
Ltac ubool_cases :=
  repeat match goal with
    | |- context [Unicode.is_char ?x ?c] =>
        let E := fresh "E" in
        destruct (Unicode.is_char x c) eqn:E;
        [ apply unicode_is_char_spec in E
        | apply not_true_iff_false in E; rewrite unicode_is_char_spec in E ]
    | |- context [Unicode.in_range ?x ?y ?c] =>
        let E := fresh "E" in
        destruct (Unicode.in_range x y c) eqn:E;
        [ apply unicode_in_range_spec in E
        | apply not_true_iff_false in E;
          rewrite unicode_in_range_spec in E ]
    end.

Lemma is_decimal_full_stop : Unicode.is_decimal nd 46 = false.
Proof. reflexivity. Qed.

Lemma unicode_alts_d_complete (ds : Unicode.ustr) (d : Z) :
  UnicodeDate.day_field nd ds d -> 1 <= d <= 31 ->
  forall (R : Type) (k : Unicode.ustr -> Unicode.ustr -> option R)
    (rest : Unicode.ustr) (r : R),
    k ds (46 :: rest) = Some r ->
    Unicode.alt (Unicode.alts_d nd) k (ds ++ 46 :: rest)%list = Some r.
Proof.
  intros [a b va vb [Ha Ea] Hb Hc|a va [Ha Ea]|a va [Ha Ea]] Hd R k rest r Hk;
    cbn [app Unicode.alt Unicode.alts_d Unicode.seq1 Unicode.seq2].
  - pose proof (is_decimal_digit _ _ Hb) as Db. rewrite Db.
    destruct (Z.eq_dec va 1) as [E1|E1];
      [|destruct (Z.eq_dec va 2) as [E2|E2]].
    + ubool_cases; chrs; cbn [andb]; rewrite ?Hk; try reflexivity; lia.
    + ubool_cases; chrs; cbn [andb]; rewrite ?Hk; try reflexivity; lia.
    + destruct (Hc E1 E2) as [Hb' Eb].
      ubool_cases; chrs; cbn [andb]; rewrite ?Hk; try reflexivity; lia.
  - rewrite is_decimal_full_stop.
    ubool_cases; chrs; cbn [andb]; rewrite ?Hk; try reflexivity; lia.
  - ubool_cases; chrs; cbn [andb]; rewrite ?Hk; try reflexivity; lia.
Qed.

Lemma unicode_alts_m_complete (ms : Unicode.ustr) (m : Z) :
  UnicodeDate.month_field ms m -> 1 <= m <= 12 ->
  forall (R : Type) (k : Unicode.ustr -> Unicode.ustr -> option R)
    (rest : Unicode.ustr) (r : R),
    k ms (46 :: rest) = Some r ->
    Unicode.alt Unicode.alts_m k (ms ++ 46 :: rest)%list = Some r.
Proof.
  intros [a b va vb [Ha Ea] [Hb Eb]|a va [Ha Ea]] Hm R k rest r Hk;
    cbn [app Unicode.alt Unicode.alts_m Unicode.seq1 Unicode.seq2];
    ubool_cases; chrs; cbn [andb]; rewrite ?Hk; try reflexivity; lia.
Qed.

Lemma unicode_year4_complete (ys : Unicode.ustr) (y : Z) :
  UnicodeDate.year_field nd ys y ->
  forall (R : Type) (k : Unicode.ustr -> Unicode.ustr -> option R)
    (rest : Unicode.ustr),
    Unicode.year4 nd k (ys ++ rest)%list = k ys rest.
Proof.
  intros [a b c d va vb vc vd Ha Hb Hc Hd] R k rest.
  cbn [app Unicode.year4].
  rewrite (is_decimal_digit _ _ Ha), (is_decimal_digit _ _ Hb),
    (is_decimal_digit _ _ Hc), (is_decimal_digit _ _ Hd). reflexivity.
Qed.

Lemma unicode_lit_same {R : Type} (k : Unicode.ustr -> option R)
    (s : Unicode.ustr) :
  Unicode.lit "." k (46 :: s) = k s.
Proof. reflexivity. Qed.

(** A date string whose day and month are in range is matched whole, with
    its fields as the groups. *)
Lemma unicode_format_regex_match_complete (ds ms ys : Unicode.ustr)
    (y m d : Z) :
  UnicodeDate.day_field nd ds d -> UnicodeDate.month_field ms m ->
  UnicodeDate.year_field nd ys y ->
  1 <= d <= 31 -> 1 <= m <= 12 ->
  Unicode.format_regex_match nd (ds ++ [46] ++ ms ++ [46] ++ ys)%list
  = Some (Unicode.mkFound ds ms ys []).
Proof.
  intros Hd Hm Hy Rd Rm. unfold Unicode.format_regex_match.
  change (ds ++ [46] ++ ms ++ [46] ++ ys)%list
    with (ds ++ 46 :: (ms ++ 46 :: ys))%list.
  apply (unicode_alts_d_complete ds d Hd Rd). rewrite unicode_lit_same.
  apply (unicode_alts_m_complete ms m Hm Rm). rewrite unicode_lit_same.
  rewrite <- (app_nil_r ys) at 1.
  rewrite (unicode_year4_complete ys y Hy). reflexivity.
Qed.

(** *** [strptime] and [Birthday] *)

Lemma unicode_strptime_ok_iff (s : Unicode.ustr) (dt : datetime) :
  Unicode.strptime nd s = ok dt <->
  exists y m d,
    UnicodeDate.date_string nd s y m d /\ real_date y m d
    /\ dt = mkDate y m d.
Proof.
  unfold Unicode.strptime. split.
  - destruct (Unicode.format_regex_match nd s) as [f|] eqn:F; [|discriminate].
    destruct (Unicode.unconverted f) as [|c u] eqn:U; [|discriminate].
    intros H. apply new_ok_iff in H as [Hreal ->].
    destruct (unicode_format_regex_match_sound s f F)
      as [Hs [[d Hd] [[m Hm] [y Hy]]]].
    rewrite U, app_nil_r in Hs.
    rewrite (unicode_day_field_int _ _ Hd), (unicode_month_field_int _ _ Hm),
      (unicode_year_field_int _ _ Hy) in *.
    exists y, m, d. split; [|auto].
    exists (Unicode.group_d f), (Unicode.group_m f), (Unicode.group_Y f).
    auto.
  - intros [y [m [d [[ds [ms [ys [-> [Hd [Hm Hy]]]]]] [Hreal ->]]]]].
    pose proof (month_length_le_31 y m) as Hle.
    rewrite (unicode_format_regex_match_complete ds ms ys y m d Hd Hm Hy)
      by (unfold real_date in Hreal; lia).
    cbn [Unicode.unconverted Unicode.group_d Unicode.group_m
         Unicode.group_Y].
    rewrite (unicode_day_field_int _ _ Hd), (unicode_month_field_int _ _ Hm),
      (unicode_year_field_int _ _ Hy).
    apply new_ok_iff. auto.
Qed.

Lemma unicode_strptime_total (s : Unicode.ustr) :
  (exists dt, Unicode.strptime nd s = ok dt)
  \/ Unicode.strptime nd s = raise ValueError.
Proof.
  unfold Unicode.strptime.
  destruct (Unicode.format_regex_match nd s) as [f|]; [|auto].
  destruct (Unicode.unconverted f); [|auto].
  unfold new. destruct (check_date_fields _ _ _); eauto.
Qed.

Lemma unicode_Birthday_ok_iff (v : Unicode.ustr) :
  Unicode.Birthday nd v = ok (Unicode.mkField v)
  <-> exists dt, Unicode.strptime nd v = ok dt.
Proof.
  unfold Unicode.Birthday.
  destruct (unicode_strptime_total v) as [[dt H]|H]; rewrite H.
  - split; eauto.
  - split; [discriminate | intros [dt' H']; discriminate].
Qed.

Lemma unicode_Birthday_total (v : Unicode.ustr) :
  Unicode.Birthday nd v = ok (Unicode.mkField v)
  \/ Unicode.Birthday nd v
     = raise (DateValidationError "Invalid date (try using DD.MM.YYYY format)").
Proof.
  unfold Unicode.Birthday.
  destruct (unicode_strptime_total v) as [[dt H]|H]; rewrite H; auto.
Qed.

Lemma unicode_Birthday_ok_value (v : Unicode.ustr) (f : Unicode.Field) :
  Unicode.Birthday nd v = ok f -> f = Unicode.mkField v.
Proof.
  destruct (unicode_Birthday_total v) as [H|H]; rewrite H; intros E.
  - apply ok_inj in E. symmetry. exact E.
  - discriminate E.
Qed.

(** A string in the format DD.MM.YYYY is a date string in one way only. *)
Lemma is_ascii_digit_spec (c : Z) :
  UnicodeDate.is_ascii_digit c = true <-> 48 <= c <= 57.
Proof.
  unfold UnicodeDate.is_ascii_digit. rewrite andb_true_iff, !Z.leb_le. tauto.
Qed.

Lemma ascii_digit_value (c v : Z) :
  48 <= c <= 57 -> UnicodeDate.decimal_digit nd c v -> v = c - 48.
Proof. intros R [[_ H]|[H _]]; [exact H | lia]. Qed.

Lemma unicode_DD_MM_YYYY_date_string (v : Unicode.ustr) (y m d : Z) :
  UnicodeDate.DD_MM_YYYY v = Some (y, m, d) ->
  UnicodeDate.date_string nd v y m d
  /\ forall y' m' d',
       UnicodeDate.date_string nd v y' m' d' -> y' = y /\ m' = m /\ d' = d.
Proof.
  unfold UnicodeDate.DD_MM_YYYY.
  destruct v as [|d1 [|d2 [|p1 [|m1 [|m2 [|p2 [|y1 [|y2 [|y3 [|y4 [|? ?]]]]]]]]]]];
    try discriminate.
  destruct (UnicodeDate.is_ascii_digit d1) eqn:D1; [|discriminate].
  destruct (UnicodeDate.is_ascii_digit d2) eqn:D2; [|discriminate].
  destruct (UnicodeDate.is_ascii_digit m1) eqn:M1; [|discriminate].
  destruct (UnicodeDate.is_ascii_digit m2) eqn:M2; [|discriminate].
  destruct (UnicodeDate.is_ascii_digit y1) eqn:Y1; [|discriminate].
  destruct (UnicodeDate.is_ascii_digit y2) eqn:Y2; [|discriminate].
  destruct (UnicodeDate.is_ascii_digit y3) eqn:Y3; [|discriminate].
  destruct (UnicodeDate.is_ascii_digit y4) eqn:Y4; [|discriminate].
  destruct (Z.eqb_spec p1 46) as [->|]; [|discriminate].
  destruct (Z.eqb_spec p2 46) as [->|]; [|discriminate].
  cbn [andb]. intros H.
  apply is_ascii_digit_spec in D1, D2, M1, M2, Y1, Y2, Y3, Y4.
  assert (Ey : y = 1000 * (y1 - 48) + 100 * (y2 - 48) + 10 * (y3 - 48)
                   + (y4 - 48)) by congruence.
  assert (Em : m = 10 * (m1 - 48) + (m2 - 48)) by congruence.
  assert (Ed : d = 10 * (d1 - 48) + (d2 - 48)) by congruence.
  subst y m d. clear H. split.
  - exists [d1; d2], [m1; m2], [y1; y2; y3; y4].
    split; [reflexivity|]. split; [|split].
    + apply UnicodeDate.day_two_digits;
        [split; [exact D1 | reflexivity]
        | left; split; [exact D2 | reflexivity]
        | intros _ _; split; [exact D2 | reflexivity]].
    + apply UnicodeDate.month_two_digits;
        (split; [assumption | reflexivity]).
    + apply UnicodeDate.year_four_digits;
        (left; split; [assumption | reflexivity]).
  - intros y' m' d' [ds [ms [ys [E [Hd [Hm Hy]]]]]].
    destruct Hd as [a b va vb [Ha Ea] Hb _|a va Ha|a va Ha]; cbn [app] in E.
    + destruct Hm as [a' b' va' vb' [Ha' Ea'] [Hb' Eb']|a' va' Ha'];
        cbn [app] in E.
      * destruct Hy as [c1 c2 c3 c4 v1 v2 v3 v4 H1 H2 H3 H4].
        inversion E; subst.
        rewrite (ascii_digit_value _ _ D2 Hb), (ascii_digit_value _ _ Y1 H1),
          (ascii_digit_value _ _ Y2 H2), (ascii_digit_value _ _ Y3 H3),
          (ascii_digit_value _ _ Y4 H4).
        auto.
      * exfalso. inversion E; subst. lia.
    + exfalso. inversion E; subst. lia.
    + exfalso. inversion E; subst. lia.
Qed.

(** *** Strings of code points below 256

    On these strings the functions on code points are the functions on
    characters. *)

Lemma chr_range (a : ascii) : 0 <= Unicode.chr a < 256.
Proof.
  unfold Unicode.chr, PyStr.code. pose proof (nat_ascii_bounded a). lia.
Qed.

Lemma is_char_chr (x a : ascii) :
  Unicode.is_char x (Unicode.chr a) = is_char x a.
Proof.
  unfold Unicode.is_char, is_char, Unicode.chr.
  destruct (Z.eqb_spec (Z.of_nat (PyStr.code a)) (Z.of_nat (PyStr.code x))),
    (Nat.eqb_spec (PyStr.code a) (PyStr.code x)); try reflexivity; lia.
Qed.

Lemma in_range_chr (lo hi a : ascii) :
  Unicode.in_range lo hi (Unicode.chr a) = PyStr.in_range lo hi a.
Proof.
  unfold Unicode.in_range, PyStr.in_range, Unicode.chr.
  destruct (Z.leb_spec (Z.of_nat (PyStr.code lo)) (Z.of_nat (PyStr.code a))),
    (Nat.leb_spec (PyStr.code lo) (PyStr.code a));
    destruct (Z.leb_spec (Z.of_nat (PyStr.code a)) (Z.of_nat (PyStr.code hi))),
    (Nat.leb_spec (PyStr.code a) (PyStr.code hi)); try reflexivity; lia.
Qed.

Lemma is_decimal_chr (a : ascii) :
  Unicode.is_decimal nd (Unicode.chr a) = PyStr.is_decimal a.
Proof.
  pose proof (chr_range a) as R.
  unfold PyStr.is_decimal. rewrite <- in_range_chr.
  unfold Unicode.is_decimal, Unicode.to_decimal, Unicode.in_range. chrs.
  destruct ((48 <=? Unicode.chr a) && (Unicode.chr a <=? 57));
    [reflexivity|].
  destruct (Z.ltb_spec (Unicode.chr a) 256); [reflexivity | lia].
Qed.

Lemma seq1_of_string (p' : Z -> bool) (p : ascii -> bool) :
  (forall a, p' (Unicode.chr a) = p a) ->
  simulates (Unicode.seq1 p') (seq1 p).
Proof.
  intros Hp [|a s]; [reflexivity|].
  cbn [Unicode.of_string Unicode.seq1 seq1]. rewrite Hp.
  destruct (p a); reflexivity.
Qed.

Lemma seq2_of_string (p' q' : Z -> bool) (p q : ascii -> bool) :
  (forall a, p' (Unicode.chr a) = p a) ->
  (forall a, q' (Unicode.chr a) = q a) ->
  simulates (Unicode.seq2 p' q') (seq2 p q).
Proof.
  intros Hp Hq [|a [|b s]]; try reflexivity.
  cbn [Unicode.of_string Unicode.seq2 seq2]. rewrite Hp, Hq.
  destruct (p a && q b); reflexivity.
Qed.

Lemma alt_of_string {R R' : Type} (f : R -> R')
    (brs' : list (Unicode.ustr -> option (Unicode.ustr * Unicode.ustr)))
    (brs : list (string -> option (string * string)))
    (k' : Unicode.ustr -> Unicode.ustr -> option R')
    (k : string -> string -> option R) :
  Forall2 simulates brs' brs ->
  (forall g r,
     k' (Unicode.of_string g) (Unicode.of_string r) = option_map f (k g r)) ->
  forall s,
    Unicode.alt brs' k' (Unicode.of_string s) = option_map f (alt brs k s).
Proof.
  intros Hbrs Hk s. induction Hbrs as [|br' br brs' brs Hbr _ IH];
    cbn [Unicode.alt alt]; [reflexivity|].
  rewrite (Hbr s). destruct (br s) as [[g r]|];
    cbn [option_map groups_of_string fst snd]; [|exact IH].
  rewrite Hk. destruct (k g r); cbn [option_map]; [reflexivity | exact IH].
Qed.

Lemma lit_of_string {R R' : Type} (f : R -> R') (c : ascii)
    (k' : Unicode.ustr -> option R') (k : string -> option R) :
  (forall r, k' (Unicode.of_string r) = option_map f (k r)) ->
  forall s,
    Unicode.lit c k' (Unicode.of_string s) = option_map f (lit c k s).
Proof.
  intros Hk [|a s]; [reflexivity|].
  cbn [Unicode.of_string Unicode.lit lit]. rewrite is_char_chr.
  destruct (is_char c a); [apply Hk | reflexivity].
Qed.

Lemma year4_of_string {R R' : Type} (f : R -> R')
    (k' : Unicode.ustr -> Unicode.ustr -> option R')
    (k : string -> string -> option R) :
  (forall g r,
     k' (Unicode.of_string g) (Unicode.of_string r) = option_map f (k g r)) ->
  forall s,
    Unicode.year4 nd k' (Unicode.of_string s) = option_map f (year4 k s).
Proof.
  intros Hk [|a [|b [|c [|d s]]]]; try reflexivity.
  cbn [Unicode.of_string Unicode.year4 year4]. rewrite !is_decimal_chr.
  destruct (PyStr.is_decimal a && PyStr.is_decimal b && PyStr.is_decimal c
            && PyStr.is_decimal d); [|reflexivity].
  apply (Hk (String a (String b (String c (String d ""))))).
Qed.

Lemma format_regex_match_of_string (s : string) :
  Unicode.format_regex_match nd (Unicode.of_string s)
  = option_map found_of_string (format_regex_match s).
Proof.
  unfold Unicode.format_regex_match, format_regex_match.
  apply alt_of_string.
  { unfold Unicode.alts_d, alts_d.
    repeat first
      [ apply Forall2_nil
      | apply Forall2_cons
      | apply seq2_of_string
      | apply seq1_of_string
      | intros a; apply is_char_chr
      | intros a; apply in_range_chr
      | intros a; apply is_decimal_chr ]. }
  intros gd s1. apply lit_of_string. intros s2. apply alt_of_string.
  { unfold Unicode.alts_m, alts_m.
    repeat first
      [ apply Forall2_nil
      | apply Forall2_cons
      | apply seq2_of_string
      | apply seq1_of_string
      | intros a; apply is_char_chr
      | intros a; apply in_range_chr ]. }
  intros gm s3. apply lit_of_string. intros s4. apply year4_of_string.
  intros gy s5. reflexivity.
Qed.

Lemma decimal_digit_chr (a : ascii) :
  decimal_digit a ->
  UnicodeDate.ascii_digit (Unicode.chr a) (PyStr.digit_value a).
Proof.
  intros H. apply decimal_digit_spec in H.
  unfold UnicodeDate.ascii_digit, Unicode.chr, PyStr.digit_value. lia.
Qed.

Lemma day_field_of_string (g : string) (d : Z) :
  day_field g d -> UnicodeDate.day_field nd (Unicode.of_string g) d.
Proof.
  intros [a b Ha Hb|a Ha|a Ha]; apply decimal_digit_chr in Ha.
  - apply decimal_digit_chr in Hb.
    apply UnicodeDate.day_two_digits;
      [exact Ha | left; exact Hb | intros _ _; exact Hb].
  - apply UnicodeDate.day_one_digit. exact Ha.
  - apply (UnicodeDate.day_space_digit nd (Unicode.chr a)). exact Ha.
Qed.

Lemma month_field_of_string (g : string) (m : Z) :
  month_field g m -> UnicodeDate.month_field (Unicode.of_string g) m.
Proof.
  intros [a b Ha Hb|a Ha]; apply decimal_digit_chr in Ha.
  - apply decimal_digit_chr in Hb.
    apply UnicodeDate.month_two_digits; assumption.
  - apply UnicodeDate.month_one_digit. exact Ha.
Qed.

Lemma year_field_of_string (g : string) (y : Z) :
  year_field g y -> UnicodeDate.year_field nd (Unicode.of_string g) y.
Proof.
  intros [a b c d Ha Hb Hc Hd].
  apply decimal_digit_chr in Ha, Hb, Hc, Hd.
  apply UnicodeDate.year_four_digits; left; assumption.
Qed.

Lemma strptime_of_string (s : string) :
  Unicode.strptime nd (Unicode.of_string s) = strptime s.
Proof.
  unfold Unicode.strptime, strptime. rewrite format_regex_match_of_string.
  destruct (format_regex_match s) as [f|] eqn:F; cbn [option_map];
    [|reflexivity].
  destruct (format_regex_match_sound s f F) as [_ [[d Hd] [[m Hm] [y Hy]]]].
  unfold found_of_string.
  cbn [Unicode.unconverted Unicode.group_d Unicode.group_m Unicode.group_Y].
  destruct (unconverted f) as [|c u]; [|reflexivity].
  cbn [Unicode.of_string String.eqb negb].
  rewrite (unicode_day_field_int _ _ (day_field_of_string _ _ Hd)),
    (unicode_month_field_int _ _ (month_field_of_string _ _ Hm)),
    (unicode_year_field_int _ _ (year_field_of_string _ _ Hy)),
    (day_field_int _ _ Hd), (month_field_int _ _ Hm),
    (year_field_int _ _ Hy).
  reflexivity.
Qed.

Lemma Birthday_of_string (s : string) :
  Unicode.Birthday nd (Unicode.of_string s)
  = match Birthday s with
    | inr f => ok (Unicode.mkField (Unicode.of_string (value f)))
    | inl e => raise e
    end.
Proof.
  unfold Unicode.Birthday, Birthday. rewrite strptime_of_string.
  destruct (strptime s) as [e|dt]; [destruct e|]; reflexivity.
Qed.

End UnicodeDates.

(** Digits of other scripts, with the database of version 14.0: the year
    and the second digit of a day from 10 to 29 may be written with them
    ("15.02." and the Arabic-Indic digits of 2024; "1", the Arabic-Indic
    digit five and ".02.2024"); the first digit of a day and the month may
    not. *)
Lemma Birthday_other_decimal_digits :
  Unicode.Birthday Unicode.decimal_14
    (Unicode.of_string "15.02." ++ [0x662; 0x660; 0x662; 0x664])%list
  = ok (Unicode.mkField
          (Unicode.of_string "15.02." ++ [0x662; 0x660; 0x662; 0x664])%list)
  /\ Unicode.strptime Unicode.decimal_14
       (Unicode.of_string "15.02." ++ [0x662; 0x660; 0x662; 0x664])%list
     = ok (mkDate 2024 2 15)
  /\ Unicode.strptime Unicode.decimal_14
       ([49; 0x665] ++ Unicode.of_string ".02.2024")%list
     = ok (mkDate 2024 2 15)
  /\ Unicode.strptime Unicode.decimal_14
       ([0x661; 0x665] ++ Unicode.of_string ".02.2024")%list
     = raise ValueError
  /\ Unicode.strptime Unicode.decimal_14
       (Unicode.of_string "15.0" ++ [0x662] ++ Unicode.of_string ".2024")%list
     = raise ValueError.
Proof. repeat split. Qed.

(** C1, as the code has it.  [Birthday] accepts exactly the date strings
    [strptime] reads that denote a date of the calendar, and stores the
    string it was given; every other string raises [DateValidationError].
    A date string is a day field, a full stop, a month field, a full stop
    and a year field, with nothing else: a day of two digits, one digit, or
    a space and one digit; a month of two digits or one; a year of four
    digits.  The digits of the year, and the second digit of a day that
    starts with 1 or 2, are any decimal digits of Unicode; the other digits
    are ASCII digits.  A string in the zero-padded format DD.MM.YYYY of
    ASCII digits is accepted exactly when it denotes a date of the
    calendar.  On the strings of code points below 256 this is the
    [Birthday] of the records. *)
Theorem Birthday_accepts_exactly_strptime_dates :
  forall (nd : Z -> option Z) (v : Unicode.ustr),
  (Unicode.Birthday nd v = ok (Unicode.mkField v) <->
     exists y m d, UnicodeDate.date_string nd v y m d /\ real_date y m d)
  /\ (forall f, Unicode.Birthday nd v = ok f -> Unicode.value f = v)
  /\ (~ (exists y m d,
           UnicodeDate.date_string nd v y m d /\ real_date y m d) ->
      exists msg, Unicode.Birthday nd v = raise (DateValidationError msg))
  /\ (forall y m d, UnicodeDate.DD_MM_YYYY v = Some (y, m, d) ->
        (Unicode.Birthday nd v = ok (Unicode.mkField v) <-> real_date y m d))
  /\ (forall s : string, v = Unicode.of_string s ->
        (Unicode.Birthday nd v = ok (Unicode.mkField v)
         <-> Birthday s = ok (mkField s))).
Proof.
  intros nd v.
  assert (Hiff : Unicode.Birthday nd v = ok (Unicode.mkField v) <->
                 exists y m d,
                   UnicodeDate.date_string nd v y m d /\ real_date y m d).
  { rewrite unicode_Birthday_ok_iff. split.
    - intros [dt H].
      apply unicode_strptime_ok_iff in H as [y [m [d [H1 [H2 _]]]]]. eauto.
    - intros [y [m [d [H1 H2]]]]. exists (mkDate y m d).
      apply unicode_strptime_ok_iff. eauto 6. }
  split; [exact Hiff|]. split; [|split; [|split]].
  - intros f Hf. rewrite (unicode_Birthday_ok_value nd v f Hf). reflexivity.
  - intros Hn. destruct (unicode_Birthday_total nd v) as [H|H]; [|eauto].
    exfalso. apply Hn. apply Hiff. exact H.
  - intros y m d Hfmt.
    destruct (unicode_DD_MM_YYYY_date_string nd v y m d Hfmt) as [Hds Huniq].
    rewrite Hiff. split.
    + intros [y' [m' [d' [H1 H2]]]].
      destruct (Huniq y' m' d' H1) as [-> [-> ->]]. exact H2.
    + intros Hreal. eauto.
  - intros s ->. rewrite Birthday_of_string.
    destruct (Birthday_total s) as [H|H]; rewrite H.
    + split; reflexivity.
    + split; intros E; discriminate E.
Qed.

(** ** Upcoming birthdays *)

Lemma date_ltb_spec (a b : datetime) : date_ltb a b = true <-> date_lt a b.
Proof.
  unfold date_ltb, date_lt.
  repeat rewrite ?orb_true_iff, ?andb_true_iff, ?Z.ltb_lt, ?Z.eqb_eq.
  tauto.
Qed.

Lemma date_eqb_spec (a b : datetime) : date_eqb a b = true <-> a = b.
Proof.
  unfold date_eqb. rewrite !andb_true_iff, !Z.eqb_eq.
  destruct a, b; simpl. split.
  - intros [[-> ->] ->]. reflexivity.
  - intros [= -> -> ->]. auto.
Qed.

Lemma toordinal_ltb (a b : datetime) :
  valid_date a -> valid_date b -> (toordinal a <? toordinal b) = date_ltb a b.
Proof.
  intros Ha Hb. apply eq_true_iff_eq.
  rewrite Z.ltb_lt, date_ltb_spec. apply toordinal_lt_iff; assumption.
Qed.

Lemma ord2ymd_of_toordinal (dt : datetime) :
  valid_date dt -> ord2ymd (toordinal dt) = dt.
Proof.
  intros H. pose proof (toordinal_range dt H) as R.
  destruct (ord2ymd_toordinal _ R) as [V E].
  apply toordinal_inj; assumption.
Qed.

Lemma add_days_ok (dt : datetime) (k : Z) (c : datetime) :
  valid_date dt ->
  add_days dt k = ok c -> valid_date c /\ toordinal c = toordinal dt + k.
Proof.
  intros Hv. unfold add_days.
  destruct (Z.ltb_spec 0 (toordinal dt + k)); [|discriminate].
  destruct (Z.leb_spec (toordinal dt + k) MAXORDINAL); [|discriminate].
  cbn [andb]. intros E. apply (ok_inj (ord2ymd (toordinal dt + k))) in E.
  subst c. apply ord2ymd_toordinal. lia.
Qed.

Lemma add_days_in_range (dt : datetime) (k : Z) :
  0 < toordinal dt + k <= MAXORDINAL ->
  add_days dt k = ok (ord2ymd (toordinal dt + k)).
Proof.
  intros H. unfold add_days.
  destruct (Z.ltb_spec 0 (toordinal dt + k)); [|lia].
  destruct (Z.leb_spec (toordinal dt + k) MAXORDINAL); [|lia].
  reflexivity.
Qed.

(** The window, by ordinals: the test of the code. *)
Lemma in_window_ordinals (today occ : datetime) :
  valid_date today -> valid_date occ ->
  in_window today occ
  = (0 <=? toordinal occ - toordinal today)
    && (toordinal occ - toordinal today <=? 7).
Proof.
  intros Ht Ho. apply eq_true_iff_eq.
  rewrite andb_true_iff, !Z.leb_le.
  pose proof (toordinal_range today Ht) as Rt.
  pose proof (toordinal_range occ Ho) as Ro.
  unfold in_window, window. rewrite existsb_exists. split.
  - intros [d [Hin E]]. apply date_eqb_spec in E. subst d.
    apply in_flat_map in Hin as [k [Hk Hd]].
    destruct (add_days today k) as [e|c] eqn:A; [destruct Hd|].
    destruct Hd as [<-|[]].
    apply add_days_ok in A as [_ A]; [|exact Ht].
    simpl in Hk. lia.
  - intros H. exists occ. split; [|apply date_eqb_spec; reflexivity].
    apply in_flat_map. exists (toordinal occ - toordinal today). split.
    + simpl. lia.
    + rewrite add_days_in_range by lia.
      replace (toordinal today + (toordinal occ - toordinal today))
        with (toordinal occ) by lia.
      rewrite ord2ymd_of_toordinal by exact Ho. left. reflexivity.
Qed.

Lemma weekday_range (dt : datetime) : 0 <= weekday dt < 7.
Proof. unfold weekday. apply Z.mod_pos_bound. lia. Qed.

(** No Saturday or Sunday is among the last two days of the calendar. *)
Lemma find_next_weekday_monday (occ : datetime) :
  valid_date occ -> 5 <= weekday occ ->
  find_next_weekday occ 0
  = ok (ord2ymd (toordinal occ + (7 - weekday occ)))
  /\ toordinal occ + (7 - weekday occ) <= MAXORDINAL.
Proof.
  intros Hv Hw. pose proof (toordinal_range occ Hv) as R.
  pose proof (weekday_range occ) as Rw.
  assert (Hmax : toordinal occ + (7 - weekday occ) <= MAXORDINAL).
  { unfold weekday, MAXORDINAL in *. divmod. }
  split; [|exact Hmax].
  unfold find_next_weekday.
  destruct (Z.leb_spec (0 - weekday occ) 0); [|lia].
  replace (0 - weekday occ + 7) with (7 - weekday occ) by lia.
  apply add_days_in_range. lia.
Qed.

Lemma adjust_for_weekend_total (occ : datetime) :
  valid_date occ -> exists c, adjust_for_weekend occ = ok c.
Proof.
  intros Hv. unfold adjust_for_weekend.
  destruct (Z.leb_spec 5 (weekday occ)) as [Hw|Hw]; [|eauto].
  destruct (find_next_weekday_monday occ Hv Hw) as [-> _]. eauto.
Qed.

Lemma adjust_for_weekend_spec (occ c : datetime) :
  valid_date occ -> adjust_for_weekend occ = ok c -> congratulation_day occ c.
Proof.
  intros Hv. unfold adjust_for_weekend, congratulation_day.
  destruct (Z.leb_spec 5 (weekday occ)) as [Hw|Hw].
  - destruct (find_next_weekday_monday occ Hv Hw) as [-> Hmax].
    intros E. apply ok_inj in E. subst c. right. split; [exact Hw|].
    pose proof (toordinal_range occ Hv) as R.
    pose proof (weekday_range occ) as Rw.
    destruct (ord2ymd_toordinal (toordinal occ + (7 - weekday occ)))
      as [Vc Ec]; [lia|].
    unfold next_monday_after. split; [exact Vc|]. split; [|split].
    + unfold weekday in *. rewrite Ec. divmod.
    + apply toordinal_lt_iff; auto. lia.
    + intros x Vx L1 L2.
      apply toordinal_lt_iff in L1; auto.
      apply toordinal_lt_iff in L2; auto.
      rewrite Ec in L2. unfold weekday in *. divmod.
  - intros E. apply ok_inj in E. subst c. left. auto.
Qed.

(** *** Printing dates *)

Lemma digit_char_decimal (k : Z) :
  0 <= k <= 9 ->
  PyStr.is_decimal (digit_char k) = true
  /\ PyStr.digit_value (digit_char k) = k.
Proof.
  intros H.
  assert (C : k = 0 \/ k = 1 \/ k = 2 \/ k = 3 \/ k = 4 \/ k = 5 \/ k = 6
              \/ k = 7 \/ k = 8 \/ k = 9) by lia.
  repeat (destruct C as [C|C]); subst k; split; reflexivity.
Qed.

Lemma decimal_four_digits (y : Z) :
  1000 <= y <= 9999 ->
  decimal y
  = String (digit_char (y / 10 / 10 / 10))
      (String (digit_char ((y / 10 / 10) mod 10))
         (String (digit_char ((y / 10) mod 10))
            (String (digit_char (y mod 10)) ""))).
Proof.
  intros Hy. unfold decimal.
  assert (L : 9 <= Z.log2 y).
  { change 9 with (Z.log2 1000). apply Z.log2_le_mono. lia. }
  destruct (Z.to_nat (Z.log2 y)) as [|[|[|n]]] eqn:E; try lia.
  cbn [decimal_from].
  destruct (Z.ltb_spec y 10); [lia|].
  destruct (Z.ltb_spec (y / 10) 10); [divmod|].
  destruct (Z.ltb_spec (y / 10 / 10) 10); [divmod|].
  destruct (Z.ltb_spec (y / 10 / 10 / 10) 10); [|divmod].
  rewrite (Z.mod_small (y / 10 / 10 / 10) 10) by divmod.
  reflexivity.
Qed.

(** From the year 1000 on, a date is printed in the format DD.MM.YYYY, and
    the digits denote the date. *)
Lemma strftime_DD_MM_YYYY (dt : datetime) :
  valid_date dt -> 1000 <= year dt ->
  DD_MM_YYYY (strftime dt) = Some (year dt, month dt, day dt).
Proof.
  destruct dt as [y m d]. unfold valid_date. cbn [year month day].
  intros [Hy [Hm Hd]] Hy'. pose proof (month_length_le_31 y m) as Hl.
  unfold strftime. cbn [year month day].
  rewrite decimal_four_digits by lia. unfold two_digits. cbn [append].
  unfold DD_MM_YYYY.
  destruct (digit_char_decimal (d / 10)) as [-> ->]; [divmod|].
  destruct (digit_char_decimal (d mod 10)) as [-> ->]; [divmod|].
  destruct (digit_char_decimal (m / 10)) as [-> ->]; [divmod|].
  destruct (digit_char_decimal (m mod 10)) as [-> ->]; [divmod|].
  destruct (digit_char_decimal (y / 10 / 10 / 10)) as [-> ->]; [divmod|].
  destruct (digit_char_decimal ((y / 10 / 10) mod 10)) as [-> ->]; [divmod|].
  destruct (digit_char_decimal ((y / 10) mod 10)) as [-> ->]; [divmod|].
  destruct (digit_char_decimal (y mod 10)) as [-> ->]; [divmod|].
  cbn [andb Ascii.eqb Bool.eqb].
  f_equal. f_equal; [f_equal|]; divmod.
Qed.

Lemma replace_year_cases (bday : datetime) (y : Z) :
  (valid_date (occurrence bday y)
   /\ replace_year bday y = ok (occurrence bday y))
  \/ (~ valid_date (occurrence bday y)
      /\ replace_year bday y = raise ValueError).
Proof.
  unfold replace_year, new, occurrence, valid_date. cbn [year month day].
  rewrite <- check_date_fields_iff.
  destruct (check_date_fields y (month bday) (day bday));
    [left; split; reflexivity | right; split; [discriminate | reflexivity]].
Qed.

(** *** The loop over the directory, on a given day *)

Section Today.

Variable today : datetime.
Hypothesis today_valid : valid_date today.

(** The loop body for one record with a birthday, by cases. *)
Lemma upcoming_entry_cases (nm : string) (b : Field) :
  (upcoming_entry today nm b = raise ValueError
   /\ (strptime (value b) = raise ValueError
       \/ exists bday,
            strptime (value b) = ok bday
            /\ (~ valid_date (occurrence bday (year today))
                \/ ~ valid_date (next_occurrence today bday))))
  \/ exists bday,
       strptime (value b) = ok bday
       /\ valid_date (occurrence bday (year today))
       /\ valid_date (next_occurrence today bday)
       /\ ((in_window today (next_occurrence today bday) = false
            /\ upcoming_entry today nm b = ok None)
           \/ (in_window today (next_occurrence today bday) = true
               /\ exists cday,
                    congratulation_day (next_occurrence today bday) cday
                    /\ upcoming_entry today nm b
                       = ok (Some (mkCongratulation nm
                                     (date_to_string cday))))).
Proof.
  unfold upcoming_entry.
  destruct (strptime_total (value b)) as [[bday S]|S]; rewrite S;
    cbn [bind ok raise]; [|left; auto].
  destruct (replace_year_cases bday (year today)) as [[V1 R1]|[V1 R1]];
    rewrite R1; cbn [bind ok raise]; [|left; split; eauto].
  rewrite toordinal_ltb by assumption. unfold next_occurrence.
  destruct (date_ltb (occurrence bday (year today)) today) eqn:L.
  - destruct (replace_year_cases bday (year today + 1)) as [[V2 R2]|[V2 R2]];
      rewrite R2; cbn [bind ok raise].
    + right. exists bday. rewrite L. split; [reflexivity|].
      split; [assumption|]. split; [assumption|].
      rewrite <- in_window_ordinals by assumption.
      destruct (in_window today (occurrence bday (year today + 1))) eqn:W;
        [right|left; auto].
      split; [reflexivity|].
      destruct (adjust_for_weekend_total _ V2) as [cday A].
      exists cday. split; [apply adjust_for_weekend_spec; assumption|].
      rewrite A. reflexivity.
    + left. split; [reflexivity|]. right. exists bday. rewrite L. auto.
  - cbn [bind ok raise]. right. exists bday. rewrite L.
    split; [reflexivity|]. split; [assumption|]. split; [assumption|].
    rewrite <- in_window_ordinals by assumption.
    destruct (in_window today (occurrence bday (year today))) eqn:W;
      [right|left; auto].
    split; [reflexivity|].
    destruct (adjust_for_weekend_total _ V1) as [cday A].
    exists cday. split; [apply adjust_for_weekend_spec; assumption|].
    rewrite A. reflexivity.
Qed.

Lemma upcoming_loop_acc (data : AddressBook) (acc : list congratulation) :
  upcoming_loop today data acc
  = (l <- upcoming_loop today data [] ;; ok (acc ++ l)%list).
Proof.
  revert acc. induction data as [|[nm r] data IH]; intros acc.
  - cbn [upcoming_loop bind ok]. rewrite app_nil_r. reflexivity.
  - cbn [upcoming_loop]. destruct (birthday r) as [b|]; [|apply IH].
    destruct (upcoming_entry today nm b) as [e|[c|]]; cbn [bind];
      [reflexivity| |apply IH].
    rewrite (IH (acc ++ [c])%list), (IH ([] ++ [c])%list).
    destruct (upcoming_loop today data []) as [e|l]; cbn [bind ok];
      [reflexivity|].
    rewrite <- app_assoc. reflexivity.
Qed.

Lemma get_upcoming_birthdays_cons (nm : string) (r : ContactRecord)
    (data : AddressBook) :
  get_upcoming_birthdays today ((nm, r) :: data)
  = match birthday r with
    | Some b =>
        e <- upcoming_entry today nm b ;;
        l <- get_upcoming_birthdays today data ;;
        ok (match e with Some c => c :: l | None => l end)
    | None => get_upcoming_birthdays today data
    end.
Proof.
  unfold get_upcoming_birthdays. cbn [upcoming_loop].
  destruct (birthday r) as [b|]; [|reflexivity].
  destruct (upcoming_entry today nm b) as [e|[c|]]; cbn [bind];
    [reflexivity| |].
  - rewrite upcoming_loop_acc. reflexivity.
  - destruct (upcoming_loop today data []); reflexivity.
Qed.

Lemma year_le_of_ordinal (a b : datetime) :
  valid_date a -> valid_date b -> toordinal a <= toordinal b ->
  year a <= year b.
Proof.
  intros Ha Hb H. destruct (Z.le_gt_cases (year a) (year b)) as [L|L]; auto.
  assert (D : date_lt b a) by (left; lia).
  apply toordinal_lt in D; auto. lia.
Qed.

Lemma congratulation_day_later (occ c : datetime) :
  valid_date occ -> congratulation_day occ c ->
  valid_date c /\ toordinal occ <= toordinal c.
Proof.
  intros Hv [[_ ->]|[_ [Vc [_ [L _]]]]].
  - split; [assumption | lia].
  - split; [assumption|]. apply toordinal_lt in L; auto. lia.
Qed.

Lemma reported_for_cons (e : string * ContactRecord) (book : AddressBook)
    (c : congratulation) :
  reported_for today book c -> reported_for today (e :: book) c.
Proof.
  intros [r [b [bday [cday [Hin H]]]]]. exists r, b, bday, cday.
  split; [right; exact Hin | exact H].
Qed.

Lemma upcoming_entry_reported (nm : string) (r : ContactRecord) (b : Field)
    (c : congratulation) (book : AddressBook) :
  birthday r = Some b ->
  upcoming_entry today nm b = ok (Some c) ->
  reported_for today ((nm, r) :: book) c.
Proof.
  intros Hb He.
  destruct (upcoming_entry_cases nm b)
    as [[E _]|[bday [S [V1 [V2 [[W E]|[W [cday [C E]]]]]]]]];
    rewrite E in He.
  - exfalso. exact (ok_not_raise _ _ (eq_sym He)).
  - apply ok_inj in He. discriminate He.
  - apply ok_inj in He. injection He as <-.
    exists r, b, bday, cday. cbn [c_name congratulation_date].
    split; [left; reflexivity|].
    repeat (split; [assumption|]). split; [reflexivity|].
    intros Hy.
    destruct (congratulation_day_later _ _ V2 C) as [Vc Lc].
    rewrite (in_window_ordinals today _ today_valid V2) in W.
    apply andb_true_iff in W as [W1 W2]. apply Z.leb_le in W1.
    apply strftime_DD_MM_YYYY; [exact Vc|].
    pose proof (year_le_of_ordinal today cday today_valid Vc ltac:(lia)). lia.
Qed.

(** Whatever the directory, every element of a result is reported for one
    of its records. *)
Lemma get_upcoming_birthdays_reported (book : AddressBook)
    (l : list congratulation) :
  get_upcoming_birthdays today book = ok l ->
  Forall (reported_for today book) l.
Proof.
  revert l. induction book as [|[nm r] book IH]; intros l.
  - intros H. apply ok_inj in H. subst l. constructor.
  - rewrite get_upcoming_birthdays_cons.
    destruct (birthday r) as [b|] eqn:B.
    + destruct (upcoming_entry today nm b) as [e|o] eqn:E; cbn [bind];
        [intros H; exfalso; exact (ok_not_raise _ _ (eq_sym H))|].
      destruct (get_upcoming_birthdays today book) as [e|l'] eqn:G;
        cbn [bind]; [intros H; exfalso; exact (ok_not_raise _ _ (eq_sym H))|].
      intros H. apply ok_inj in H. subst l.
      assert (Hl' : Forall (reported_for today ((nm, r) :: book)) l').
      { eapply Forall_impl; [|apply IH; reflexivity].
        intros c. apply reported_for_cons. }
      destruct o as [c|]; [|exact Hl'].
      constructor; [|exact Hl'].
      eapply upcoming_entry_reported; eassumption.
    + intros H. eapply Forall_impl; [|apply IH; exact H].
      intros c. apply reported_for_cons.
Qed.

(** When every stored birthday has its occurrences, the call returns the
    records that are due, in the order of the directory. *)
Lemma get_upcoming_birthdays_due (book : AddressBook) :
  (forall nm r b, In (nm, r) book -> birthday r = Some b ->
     exists bday,
       strptime (value b) = ok bday
       /\ valid_date (occurrence bday (year today))
       /\ valid_date (next_occurrence today bday)) ->
  exists l,
    get_upcoming_birthdays today book = ok l
    /\ map c_name l = map fst (filter (fun kv => due today (snd kv)) book).
Proof.
  induction book as [|[nm r] book IH]; intros Hb.
  - exists []. split; reflexivity.
  - assert (Hb' : forall nm' r' b', In (nm', r') book ->
                    birthday r' = Some b' ->
                    exists bday,
                      strptime (value b') = ok bday
                      /\ valid_date (occurrence bday (year today))
                      /\ valid_date (next_occurrence today bday)).
    { intros nm' r' b' Hin Hbd.
      apply (Hb nm' r' b'); [right; exact Hin | exact Hbd]. }
    specialize (IH Hb'). destruct IH as [l [Hl Hn]].
    rewrite get_upcoming_birthdays_cons. cbn [filter snd].
    unfold due at 1. rewrite Hl.
    destruct (birthday r) as [b|] eqn:B; [|exists l; auto].
    destruct (Hb nm r b (or_introl eq_refl) B) as [bday [S [V1 V2]]].
    rewrite S.
    destruct (upcoming_entry_cases nm b)
      as [[_ [S'|[bd [S' [V|V]]]]]|[bd [S' [_ [_ [[W E]|[W [cday [C E]]]]]]]]];
      rewrite S in S';
      try (exfalso; exact (ok_not_raise _ _ S'));
      apply ok_inj in S'; subst bd; try contradiction;
      rewrite E; cbn [bind ok]; rewrite W.
    + exists l. auto.
    + eexists. split; [reflexivity|]. cbn [map c_name fst]. rewrite Hn.
      reflexivity.
Qed.

(** A record whose birthday cannot be moved to the year in question makes
    the call raise, wherever it stands in the directory. *)
Lemma upcoming_entry_outcome (nm : string) (b : Field) :
  (exists e, upcoming_entry today nm b = ok e)
  \/ upcoming_entry today nm b = raise ValueError.
Proof.
  destruct (upcoming_entry_cases nm b)
    as [[E _]|[bd [_ [_ [_ [[_ E]|[_ [cday [_ E]]]]]]]]]; eauto.
Qed.

Lemma get_upcoming_birthdays_raises (book : AddressBook) (nm : string)
    (r : ContactRecord) (b : Field) :
  In (nm, r) book -> birthday r = Some b ->
  upcoming_entry today nm b = raise ValueError ->
  get_upcoming_birthdays today book = raise ValueError.
Proof.
  intros Hin Hb He. induction book as [|[nm' r'] book IH]; [destruct Hin|].
  rewrite get_upcoming_birthdays_cons.
  destruct Hin as [[= -> ->]|Hin].
  - rewrite Hb, He. reflexivity.
  - rewrite (IH Hin). destruct (birthday r') as [b'|]; [|reflexivity].
    destruct (upcoming_entry_outcome nm' b') as [[e ->]| ->];
      reflexivity.
Qed.

End Today.

(** *** What the query reports *)

(** C4: every element of a result of [get_upcoming_birthdays] names a record
    of the directory whose birthday has its next occurrence in the window;
    its congratulation date is that occurrence when it falls on a working
    day, and the first Monday after it when it falls on a Saturday or a
    Sunday; the date is printed in the format DD.MM.YYYY. *)
Theorem congratulation_date_skips_weekend : forall (today : datetime)
    (book : AddressBook) (l : list congratulation),
  valid_date today ->
  1000 <= year today ->
  get_upcoming_birthdays today book = ok l ->
  Forall (fun c =>
            exists r b bday cday,
              In (c_name c, r) book
              /\ birthday r = Some b
              /\ strptime (value b) = ok bday
              /\ in_window today (next_occurrence today bday) = true
              /\ (weekday (next_occurrence today bday) < 5 ->
                  cday = next_occurrence today bday)
              /\ (5 <= weekday (next_occurrence today bday) ->
                  next_monday_after (next_occurrence today bday) cday)
              /\ congratulation_date c = date_to_string cday
              /\ DD_MM_YYYY (congratulation_date c)
                 = Some (year cday, month cday, day cday)) l.
Proof.
  intros today book l Ht Hy Hl.
  eapply Forall_impl;
    [|apply (get_upcoming_birthdays_reported today Ht book l Hl)].
  intros c [r [b [bday [cday [Hin [Hb [S [V [W [C [D F]]]]]]]]]]].
  exists r, b, bday, cday.
  repeat (split; [assumption|]). split; [|split; [|auto]].
  - intros Hw. destruct C as [[_ E]|[Hw' _]]; [exact E | lia].
  - intros Hw. destruct C as [[Hw' _]|[_ N]]; [lia | exact N].
Qed.

(** The example of the specification: on Monday 2024-06-10 the birthday
    "15.06.1990" falls on Saturday 2024-06-15 and is reported for Monday
    "17.06.2024". *)
Lemma congratulation_date_example :
  weekday (mkDate 2024 6 10) = 0
  /\ weekday (mkDate 2024 6 15) = 5
  /\ get_upcoming_birthdays (mkDate 2024 6 10)
       [("Ann", mkRecord (Name "Ann") [] (Some (mkField "15.06.1990")))]
     = ok [mkCongratulation "Ann" "17.06.2024"]
  /\ Forall (fun c =>
            exists r b bday cday,
              In (c_name c, r)
                [("Ann", mkRecord (Name "Ann") [] (Some (mkField "15.06.1990")))]
              /\ birthday r = Some b
              /\ strptime (value b) = ok bday
              /\ in_window (mkDate 2024 6 10)
                   (next_occurrence (mkDate 2024 6 10) bday) = true
              /\ (weekday (next_occurrence (mkDate 2024 6 10) bday) < 5 ->
                  cday = next_occurrence (mkDate 2024 6 10) bday)
              /\ (5 <= weekday (next_occurrence (mkDate 2024 6 10) bday) ->
                  next_monday_after
                    (next_occurrence (mkDate 2024 6 10) bday) cday)
              /\ congratulation_date c = date_to_string cday
              /\ DD_MM_YYYY (congratulation_date c)
                 = Some (year cday, month cday, day cday))
       [mkCongratulation "Ann" "17.06.2024"].
Proof.
  split; [reflexivity|]. split; [reflexivity|]. split; [reflexivity|].
  apply (congratulation_date_skips_weekend (mkDate 2024 6 10)
           [("Ann", mkRecord (Name "Ann") [] (Some (mkField "15.06.1990")))]
           [mkCongratulation "Ann" "17.06.2024"]).
  - repeat split; cbv; intros H; discriminate H.
  - cbv. intros H. discriminate H.
  - reflexivity.
Defined.

Lemma strptime_29_February (yyyy : string) (y : Z) :
  year_field yyyy y -> 1 <= y -> is_leap y = true ->
  strptime ("29.02." ++ yyyy) = ok (mkDate y 2 29).
Proof.
  intros Hy Hy1 Hl. apply strptime_ok_iff. exists y, 2, 29.
  split; [|split; [|reflexivity]].
  - exists "29", "02", yyyy. split; [reflexivity|].
    split; [|split; [|exact Hy]].
    + apply (day_two_digits "2" "9"); reflexivity.
    + apply (month_two_digits "0" "2"); reflexivity.
  - unfold real_date.
    change (month_length y 2) with (if is_leap y then 29 else 28).
    rewrite Hl.
    destruct Hy as [a b c d Ha Hb Hc Hd].
    apply digit_value_range in Ha, Hb, Hc, Hd. lia.
Qed.

(** C5: a record whose stored birthday is "29.02.YYYY", YYYY a leap year --
    a string [Birthday] accepts -- makes [get_upcoming_birthdays] raise
    [ValueError] in every year that is not a leap year, whatever else the
    directory holds; the handler of the birthdays command then answers with
    the text it has for [ValueError]. *)
Theorem get_upcoming_birthdays_raises_on_29_February : forall
    (today : datetime) (book : AddressBook) (nm : string)
    (r : ContactRecord) (yyyy : string) (y : Z),
  valid_date today ->
  is_leap (year today) = false ->
  year_field yyyy y -> 1 <= y -> is_leap y = true ->
  In (nm, r) book ->
  birthday r = Some (mkField ("29.02." ++ yyyy)) ->
  Birthday ("29.02." ++ yyyy) = ok (mkField ("29.02." ++ yyyy))
  /\ get_upcoming_birthdays today book = raise ValueError
  /\ birthdays today book
     = (book, ok (Fore_RED ++ nl
                  ++ "Invalid command format (name/phone missing)")).
Proof.
  intros today book nm r yyyy y Ht Hnl Hy Hy1 Hl Hin Hb.
  pose proof (strptime_29_February yyyy y Hy Hy1 Hl) as S.
  assert (G : get_upcoming_birthdays today book = raise ValueError).
  { apply (get_upcoming_birthdays_raises today Ht book nm r _ Hin Hb).
    destruct (upcoming_entry_cases today Ht nm (mkField ("29.02." ++ yyyy)))
      as [[E _]|[bd [S' [V _]]]]; [exact E|].
    exfalso. cbn [value] in S'. rewrite S in S'. apply ok_inj in S'. subst bd.
    unfold valid_date, real_date, occurrence in V.
    cbn [year month day] in V.
    change (month_length (year today) 2)
      with (if is_leap (year today) then 29 else 28) in V.
    rewrite Hnl in V. lia. }
  split; [|split; [exact G|]].
  - apply Birthday_ok_iff. eauto.
  - unfold birthdays, input_error, birthdays_body. rewrite G. reflexivity.
Qed.

Lemma get_upcoming_birthdays_raises_witness :
  Birthday ("29.02." ++ "2024") = ok (mkField ("29.02." ++ "2024"))
  /\ get_upcoming_birthdays (mkDate 2025 11 3)
       [("Ann", mkRecord (Name "Ann") [mkField "0123456789"] None);
        ("Bob", mkRecord (Name "Bob") [] (Some (mkField ("29.02." ++ "2024"))))]
     = raise ValueError
  /\ birthdays (mkDate 2025 11 3)
       [("Ann", mkRecord (Name "Ann") [mkField "0123456789"] None);
        ("Bob", mkRecord (Name "Bob") [] (Some (mkField ("29.02." ++ "2024"))))]
     = ([("Ann", mkRecord (Name "Ann") [mkField "0123456789"] None);
         ("Bob", mkRecord (Name "Bob") []
                   (Some (mkField ("29.02." ++ "2024"))))],
        ok (Fore_RED ++ nl ++ "Invalid command format (name/phone missing)")).
Proof.
  apply (get_upcoming_birthdays_raises_on_29_February (mkDate 2025 11 3)
           [("Ann", mkRecord (Name "Ann") [mkField "0123456789"] None);
            ("Bob", mkRecord (Name "Bob") []
                      (Some (mkField ("29.02." ++ "2024"))))]
           "Bob"
           (mkRecord (Name "Bob") [] (Some (mkField ("29.02." ++ "2024"))))
           "2024" 2024).
  - repeat split; cbv; intros H; discriminate H.
  - reflexivity.
  - apply (year_four_digits "2" "0" "2" "4"); reflexivity.
  - lia.
  - reflexivity.
  - simpl. auto.
  - reflexivity.
Defined.

(** C3, at an input where it fails: on 2023-06-10 the birthday "10.06.1990"
    is due and a directory that holds only its record reports it, but next to
    a record with the birthday "29.02.2024" the call raises [ValueError] and
    reports nothing. *)
Lemma get_upcoming_birthdays_loses_due_record :
  Birthday "29.02.2024" = ok (mkField "29.02.2024")
  /\ Birthday "10.06.1990" = ok (mkField "10.06.1990")
  /\ due (mkDate 2023 6 10)
       (mkRecord (Name "Bob") [] (Some (mkField "10.06.1990"))) = true
  /\ get_upcoming_birthdays (mkDate 2023 6 10)
       [("Bob", mkRecord (Name "Bob") [] (Some (mkField "10.06.1990")))]
     = ok [mkCongratulation "Bob" "12.06.2023"]
  /\ get_upcoming_birthdays (mkDate 2023 6 10)
       [("Ann", mkRecord (Name "Ann") [] (Some (mkField "29.02.2024")));
        ("Bob", mkRecord (Name "Bob") [] (Some (mkField "10.06.1990")))]
     = raise ValueError.
Proof. repeat split. Qed.

(** The other examples of the specification, on 2024-06-10: a birthday that
    is ten days away is left out, a birthday that is today is reported for
    today. *)
Lemma get_upcoming_birthdays_examples :
  get_upcoming_birthdays (mkDate 2024 6 10)
    [("Ann", mkRecord (Name "Ann") [] (Some (mkField "20.06.1990")));
     ("Bob", mkRecord (Name "Bob") [] (Some (mkField "10.06.1990")));
     ("Eve", mkRecord (Name "Eve") [mkField "0123456789"] None)]
  = ok [mkCongratulation "Bob" "10.06.2024"].
Proof. reflexivity. Qed.

(** * Further properties *)

(** ** Phones of a record *)

Lemma find_phone_in_value (p : string) (l : list Field) :
  In p (map value l) -> find_phone_in p l = Some (mkField p).
Proof.
  intros Hin. destruct (find_phone_in p l) as [ph|] eqn:E.
  - apply find_phone_in_Some in E as [_ E]. destruct ph as [v].
    simpl in E. subst v. reflexivity.
  - apply find_phone_in_None in E. contradiction.
Qed.

Lemma find_phone_in_filter_other (v w : string) (l : list Field) :
  w <> v ->
  find_phone_in w (filter (fun ph => negb (String.eqb (value ph) v)) l)
  = find_phone_in w l.
Proof.
  intros Hne. induction l as [|ph l IH]; [reflexivity|].
  cbn [filter]. destruct (String.eqb_spec (value ph) v) as [E|E]; cbn [negb].
  - cbn [find_phone_in]. rewrite IH.
    destruct (String.eqb_spec w (value ph)) as [E'|E']; [congruence|].
    reflexivity.
  - cbn [find_phone_in]. rewrite IH. reflexivity.
Qed.

Lemma find_phone_in_app_other (v w : string) (l : list Field) :
  w <> v -> find_phone_in w (l ++ [mkField v]) = find_phone_in w l.
Proof.
  intros Hne. induction l as [|ph l IH]; cbn [app find_phone_in value].
  - apply String.eqb_neq in Hne. rewrite Hne. reflexivity.
  - rewrite IH. reflexivity.
Qed.

Lemma values_filter (v w : string) (l : list Field) :
  In w (map value (filter (fun ph => negb (String.eqb (value ph) v)) l))
  <-> In w (map value l) /\ w <> v.
Proof.
  rewrite !in_map_iff. split.
  - intros [ph [E Hin]]. apply filter_In in Hin as [Hin Hv].
    apply negb_true_iff, String.eqb_neq in Hv. subst w. split; eauto.
  - intros [[ph [E Hin]] Hne]. exists ph. split; [exact E|].
    apply filter_In. split; [exact Hin|].
    apply negb_true_iff, String.eqb_neq. congruence.
Qed.

Lemma filter_absent (v : string) (l : list Field) :
  ~ In v (map value l) ->
  filter (fun ph => negb (String.eqb (value ph) v)) l = l.
Proof.
  induction l as [|ph l IH]; [reflexivity|]. cbn [map filter]. intros Hn.
  destruct (String.eqb_spec (value ph) v) as [E|E]; cbn [negb].
  - exfalso. apply Hn. left. exact E.
  - rewrite IH; [reflexivity|]. intros H. apply Hn. right. exact H.
Qed.

(** X1: adding a valid phone and looking it up finds it; removing a phone
    and looking it up finds nothing; neither changes what a lookup of
    another value finds. *)
Theorem add_find_remove_phone : forall (r : ContactRecord) (v w : string),
  valid_phone v ->
  find_phone v (fst (add_phone v r)) = Some (mkField v)
  /\ find_phone v (fst (remove_phone v r)) = None
  /\ (w <> v ->
      find_phone w (fst (add_phone v r)) = find_phone w r
      /\ find_phone w (fst (remove_phone v r)) = find_phone w r).
Proof.
  intros r v w Hv. unfold find_phone. split; [|split].
  - apply find_phone_in_value.
    destruct (add_phone_cases v r) as [[e [He _]]|[[_ [Hin ->]]|[_ [_ ->]]]].
    + rewrite (valid_phone_ok v Hv) in He. discriminate He.
    + exact Hin.
    + cbn [fst phones set_phones]. rewrite map_app. apply in_or_app.
      right. left. reflexivity.
  - apply find_phone_in_None. cbn [remove_phone fst phones set_phones].
    rewrite values_filter. tauto.
  - intros Hne. split.
    + destruct (add_phone_cases v r) as [[e [_ ->]]|[[_ [_ ->]]|[_ [_ ->]]]];
        try reflexivity.
      cbn [fst phones set_phones]. apply find_phone_in_app_other. exact Hne.
    + cbn [remove_phone fst phones set_phones].
      apply find_phone_in_filter_other. exact Hne.
Qed.

Lemma add_find_remove_phone_witness :
  find_phone "0123456789" (fst (add_phone "0123456789" (new_record "Ann")))
  = Some (mkField "0123456789")
  /\ find_phone "0123456789"
       (fst (remove_phone "0123456789" (new_record "Ann"))) = None
  /\ ("0000000000" <> "0123456789" ->
      find_phone "0000000000" (fst (add_phone "0123456789" (new_record "Ann")))
      = find_phone "0000000000" (new_record "Ann")
      /\ find_phone "0000000000"
           (fst (remove_phone "0123456789" (new_record "Ann")))
         = find_phone "0000000000" (new_record "Ann")).
Proof.
  apply (add_find_remove_phone (new_record "Ann") "0123456789" "0000000000").
  exists (mkField "0123456789"). reflexivity.
Defined.

(** X2: [remove_phone] never raises; afterwards no phone has the value and
    the phones with another value are all still there; a value that is not
    there leaves the record as it was; a second removal changes nothing;
    name and birthday stay. *)
Theorem remove_phone_removes_value : forall (r : ContactRecord) (v : string),
  snd (remove_phone v r) = ok tt
  /\ ~ In v (map value (phones (fst (remove_phone v r))))
  /\ (forall ph, In ph (phones (fst (remove_phone v r))) <->
                 In ph (phones r) /\ value ph <> v)
  /\ (~ In v (map value (phones r)) -> fst (remove_phone v r) = r)
  /\ fst (remove_phone v (fst (remove_phone v r))) = fst (remove_phone v r)
  /\ name (fst (remove_phone v r)) = name r
  /\ birthday (fst (remove_phone v r)) = birthday r.
Proof.
  intros r v. cbn [remove_phone fst snd phones set_phones name birthday].
  split; [reflexivity|]. split; [rewrite values_filter; tauto|].
  split; [|split; [|split; [|split; reflexivity]]].
  - intros ph. rewrite filter_In, negb_true_iff, String.eqb_neq. tauto.
  - intros Hn. rewrite (filter_absent v _ Hn). destruct r; reflexivity.
  - unfold set_phones. cbn [name phones birthday]. f_equal.
    apply filter_absent. rewrite values_filter. tauto.
Qed.

Lemma Phone_invalid (v : string) :
  ~ valid_phone v -> exists msg, Phone v = raise (PhoneValidationError msg).
Proof.
  intros Hn. destruct (Phone_total v) as [H|H]; [|exact H].
  exfalso. apply Hn. exists (mkField v). exact H.
Qed.

Lemma edit_phone_found (o n : string) (r : ContactRecord) :
  In o (map value (phones r)) ->
  edit_phone o n r = (_ <-- add_phone n ;;; remove_phone o) r.
Proof.
  intros Hin. unfold edit_phone, find_phone.
  rewrite (find_phone_in_value o _ Hin). reflexivity.
Qed.

Lemma edit_phone_missing_unchanged (r : ContactRecord) (o n : string) :
  ~ In o (map value (phones r)) ->
  exists msg,
    msg = "Phone number to be edited is missing from the list"
    /\ edit_phone o n r = (r, raise (MissingPhoneError msg)).
Proof.
  intros Hin. unfold edit_phone, find_phone.
  apply find_phone_in_None in Hin. rewrite Hin. eexists. split; reflexivity.
Qed.

(** X3: [edit_phone] with an old value that is there and a valid new value
    different from it returns normally; the old value is gone and the new
    one is found; lookups of other values are as before.  The new phone is
    not put in the place of the old one: it goes to the end of the list, and
    when the record already had it the list just loses the old phone. *)
Theorem edit_phone_replaces : forall (r : ContactRecord)
    (old_value new_value : string),
  In old_value (map value (phones r)) ->
  valid_phone new_value ->
  new_value <> old_value ->
  snd (edit_phone old_value new_value r) = ok tt
  /\ find_phone old_value (fst (edit_phone old_value new_value r)) = None
  /\ find_phone new_value (fst (edit_phone old_value new_value r))
     = Some (mkField new_value)
  /\ (forall w, w <> old_value -> w <> new_value ->
        find_phone w (fst (edit_phone old_value new_value r))
        = find_phone w r)
  /\ (~ In new_value (map value (phones r)) ->
      phones (fst (edit_phone old_value new_value r))
      = (filter (fun ph => negb (String.eqb (value ph) old_value)) (phones r)
         ++ [mkField new_value])%list)
  /\ (In new_value (map value (phones r)) ->
      phones (fst (edit_phone old_value new_value r))
      = filter (fun ph => negb (String.eqb (value ph) old_value)) (phones r)).
Proof.
  intros r o n Hin Hv Hne. rewrite (edit_phone_found o n r Hin).
  unfold bindM, find_phone.
  assert (Hno : negb (String.eqb n o) = true)
    by (apply negb_true_iff, String.eqb_neq; exact Hne).
  destruct (add_phone_cases n r) as [[e [He _]]|[[_ [Hn ->]]|[_ [Hn ->]]]].
  - rewrite (valid_phone_ok n Hv) in He. discriminate He.
  - cbn [remove_phone fst snd phones set_phones ok].
    split; [reflexivity|]. split; [|split; [|split; [|split]]].
    + apply find_phone_in_None. rewrite values_filter. tauto.
    + apply find_phone_in_value. rewrite values_filter. tauto.
    + intros w Hw _. apply find_phone_in_filter_other. exact Hw.
    + intros Hn'. contradiction.
    + reflexivity.
  - cbn [remove_phone fst snd phones set_phones ok].
    assert (Hf : filter (fun ph => negb (String.eqb (value ph) o))
                   (phones r ++ [mkField n])
                 = (filter (fun ph => negb (String.eqb (value ph) o))
                      (phones r) ++ [mkField n])%list).
    { rewrite filter_app. cbn [filter value]. rewrite Hno. reflexivity. }
    rewrite Hf.
    split; [reflexivity|]. split; [|split; [|split; [|split]]].
    + apply find_phone_in_None. rewrite <- Hf, values_filter. tauto.
    + apply find_phone_in_value. rewrite map_app. apply in_or_app.
      right. left. reflexivity.
    + intros w Hw Hw'. rewrite find_phone_in_app_other by exact Hw'.
      apply find_phone_in_filter_other. exact Hw.
    + reflexivity.
    + intros Hn'. contradiction.
Qed.

Lemma edit_phone_replaces_witness :
  snd (edit_phone "0123456789" "1111111111"
         (mkRecord (Name "Ann") [mkField "0123456789"; mkField "5555555555"]
            None)) = ok tt
  /\ phones (fst (edit_phone "0123456789" "1111111111"
                    (mkRecord (Name "Ann")
                       [mkField "0123456789"; mkField "5555555555"] None)))
     = [mkField "5555555555"; mkField "1111111111"].
Proof.
  pose proof (edit_phone_replaces
                (mkRecord (Name "Ann")
                   [mkField "0123456789"; mkField "5555555555"] None)
                "0123456789" "1111111111") as H.
  destruct H as [H1 [_ [_ [_ [H5 _]]]]].
  - simpl. auto.
  - exists (mkField "1111111111"). reflexivity.
  - discriminate.
  - split; [exact H1|]. apply H5. simpl. intros [H|[H|[]]]; discriminate H.
Defined.

(** X4: [edit_phone] with the new value equal to the old one does not keep
    the phone: the call returns normally and the record no longer has it. *)
Theorem edit_phone_same_value_removes : forall (r : ContactRecord)
    (v : string),
  In v (map value (phones r)) ->
  valid_phone v ->
  snd (edit_phone v v r) = ok tt
  /\ find_phone v (fst (edit_phone v v r)) = None
  /\ phones (fst (edit_phone v v r))
     = filter (fun ph => negb (String.eqb (value ph) v)) (phones r).
Proof.
  intros r v Hin Hv. rewrite (edit_phone_found v v r Hin). unfold bindM.
  rewrite (add_phone_present v r Hv Hin). unfold find_phone.
  cbn [remove_phone fst snd phones set_phones ok].
  split; [reflexivity|]. split; [|reflexivity].
  apply find_phone_in_None. rewrite values_filter. tauto.
Qed.

Lemma edit_phone_same_value_witness :
  snd (edit_phone "0123456789" "0123456789"
         (mkRecord (Name "Ann") [mkField "0123456789"] None)) = ok tt
  /\ find_phone "0123456789"
       (fst (edit_phone "0123456789" "0123456789"
               (mkRecord (Name "Ann") [mkField "0123456789"] None))) = None
  /\ phones (fst (edit_phone "0123456789" "0123456789"
                    (mkRecord (Name "Ann") [mkField "0123456789"] None)))
     = filter (fun ph => negb (String.eqb (value ph) "0123456789"))
         (phones (mkRecord (Name "Ann") [mkField "0123456789"] None)).
Proof.
  apply (edit_phone_same_value_removes
           (mkRecord (Name "Ann") [mkField "0123456789"] None) "0123456789").
  - simpl. auto.
  - exists (mkField "0123456789"). reflexivity.
Defined.

(** X5: [edit_phone] with an old value that is there and a new value that
    [Phone] rejects raises [PhoneValidationError] and leaves the record as it
    was, the old phone included. *)
Theorem edit_phone_invalid_new_value : forall (r : ContactRecord)
    (old_value new_value : string),
  In old_value (map value (phones r)) ->
  ~ valid_phone new_value ->
  exists msg,
    edit_phone old_value new_value r = (r, raise (PhoneValidationError msg)).
Proof.
  intros r o n Hin Hn. rewrite (edit_phone_found o n r Hin). unfold bindM.
  destruct (Phone_invalid n Hn) as [msg Hmsg]. exists msg.
  rewrite (add_phone_invalid n r _ Hmsg). reflexivity.
Qed.

Lemma edit_phone_invalid_new_value_witness :
  exists msg,
    edit_phone "0123456789" "12345"
      (mkRecord (Name "Ann") [mkField "0123456789"] None)
    = (mkRecord (Name "Ann") [mkField "0123456789"] None,
       raise (PhoneValidationError msg)).
Proof.
  apply (edit_phone_invalid_new_value
           (mkRecord (Name "Ann") [mkField "0123456789"] None)
           "0123456789" "12345").
  - simpl. auto.
  - intros [f H]. discriminate H.
Defined.

(** ** Well-formed records *)

Lemma new_record_ok (n : string) : record_ok (new_record n).
Proof.
  split; [constructor|]. split; [intros ph []|discriminate].
Qed.

Lemma add_phone_record_ok (v : string) (r : ContactRecord) :
  record_ok r -> record_ok (fst (add_phone v r)).
Proof.
  intros [Hd [Hv Hb]]. split; [apply add_phone_distinct; exact Hd|].
  destruct (add_phone_cases v r) as [[e [_ ->]]|[[_ [_ ->]]|[Hvv [_ ->]]]];
    cbn [fst]; auto.
  cbn [phones birthday set_phones]. split; [|exact Hb].
  intros ph Hin. apply in_app_or in Hin as [Hin|[<-|[]]]; auto.
Qed.

Lemma remove_phone_record_ok (v : string) (r : ContactRecord) :
  record_ok r -> record_ok (fst (remove_phone v r)).
Proof.
  intros [Hd [Hv Hb]]. split; [apply remove_phone_distinct; exact Hd|].
  cbn [remove_phone fst phones birthday set_phones]. split; [|exact Hb].
  intros ph Hin. apply filter_In in Hin as [Hin _]. auto.
Qed.

Lemma edit_phone_record_ok (o n : string) (r : ContactRecord) :
  record_ok r -> record_ok (fst (edit_phone o n r)).
Proof.
  intros Hr. unfold edit_phone. destruct (find_phone o r); [|exact Hr].
  unfold bindM. pose proof (add_phone_record_ok n r Hr) as H1.
  destruct (add_phone n r) as [r1 [e|[]]]; cbn [fst] in *; auto.
  apply remove_phone_record_ok. exact H1.
Qed.

Lemma add_birthday_record_ok (b : string) (r : ContactRecord) :
  record_ok r -> record_ok (fst (add_birthday b r)).
Proof.
  intros Hr. unfold add_birthday. destruct (Birthday b) as [e|f] eqn:E;
    cbn [fst]; [exact Hr|].
  destruct Hr as [Hd [Hv Hb]]. split; [exact Hd|]. split; [exact Hv|].
  cbn [birthday set_birthday]. intros b' H.
  assert (Eb : b' = f) by congruence. subst b'.
  pose proof (Birthday_ok_value b f E) as Ef. subst f. exact E.
Qed.

(** X6: every record the script can build -- [Record(name)] followed by any
    calls of its methods, whether they return or raise -- has distinct
    phones, each a string [Phone] accepts, and a birthday, if any, that
    [Birthday] accepts. *)
Theorem record_built_well_formed : forall r : ContactRecord,
  record_built r -> record_ok r.
Proof.
  induction 1 as [n|v r _ IH|v r _ IH|o n r _ IH|b r _ IH].
  - apply new_record_ok.
  - apply add_phone_record_ok. exact IH.
  - apply remove_phone_record_ok. exact IH.
  - apply edit_phone_record_ok. exact IH.
  - apply add_birthday_record_ok. exact IH.
Qed.

Lemma record_built_well_formed_witness :
  record_ok
    (fst (add_birthday "24.12.1990"
            (fst (edit_phone "0123456789" "1111111111"
                    (fst (add_phone "0123456789" (new_record "Ann"))))))).
Proof.
  apply (record_built_well_formed
           (fst (add_birthday "24.12.1990"
              (fst (edit_phone "0123456789" "1111111111"
                      (fst (add_phone "0123456789" (new_record "Ann")))))))).
  apply built_add_birthday, built_edit_phone, built_add_phone, built_new.
Defined.

(** ** The dictionary *)

Lemma dict_get_None_keys (k : string) (d : AddressBook) :
  dict_get k d = None <-> ~ In k (keys d).
Proof.
  unfold keys. induction d as [|[k' v] d IH]; cbn [dict_get map fst In].
  - tauto.
  - destruct (String.eqb_spec k k') as [E|E].
    + split; [discriminate | intros H; exfalso; apply H; left; congruence].
    + rewrite IH. split; [intros H [H'|H']; [congruence|auto] | tauto].
Qed.

Lemma dict_get_Some_keys (k : string) (d : AddressBook) (r : ContactRecord) :
  dict_get k d = Some r -> In k (keys d).
Proof.
  intros H. apply dict_get_In in H. unfold keys.
  apply (in_map fst) in H. exact H.
Qed.

Lemma keys_set_absent (k : string) (v : ContactRecord) (d : AddressBook) :
  dict_get k d = None -> keys (dict_set k v d) = (keys d ++ [k])%list.
Proof.
  unfold keys. induction d as [|[k' v'] d IH]; cbn [dict_get dict_set map fst app].
  - reflexivity.
  - destruct (String.eqb k k'); [discriminate|].
    intros H. cbn [map fst]. rewrite (IH H). reflexivity.
Qed.

Lemma dict_set_get_id (k : string) (v : ContactRecord) (d : AddressBook) :
  dict_get k d = Some v -> dict_set k v d = d.
Proof.
  induction d as [|[k' v'] d IH]; cbn [dict_get dict_set]; [discriminate|].
  destruct (String.eqb k k').
  - intros H. congruence.
  - intros H. rewrite (IH H). reflexivity.
Qed.

Lemma dict_get_pop_other (k k0 : string) (d : AddressBook) :
  k0 <> k -> dict_get k0 (dict_pop k d) = dict_get k0 d.
Proof.
  intros Hne. induction d as [|[k' v'] d IH]; cbn [dict_get dict_pop].
  - reflexivity.
  - destruct (String.eqb_spec k k') as [E|E]; cbn [dict_get].
    + subst k'. apply String.eqb_neq in Hne. rewrite Hne. reflexivity.
    + rewrite IH. reflexivity.
Qed.

Lemma keys_pop_incl (k k0 : string) (d : AddressBook) :
  In k0 (keys (dict_pop k d)) -> In k0 (keys d).
Proof.
  unfold keys. rewrite !in_map_iff. intros [e [E Hin]].
  exists e. split; [exact E|]. apply (In_dict_pop k). exact Hin.
Qed.

Lemma keys_pop_NoDup (k : string) (d : AddressBook) :
  NoDup (keys d) ->
  NoDup (keys (dict_pop k d)) /\ ~ In k (keys (dict_pop k d)).
Proof.
  induction d as [|[k' v'] d IH]; cbn [dict_pop keys map fst].
  - intros _. split; [constructor | intros []].
  - intros H. inversion H as [|? ? Hk' Hd]; subst.
    fold (keys d) in Hk', Hd. destruct (IH Hd) as [IH1 IH2].
    destruct (String.eqb_spec k k') as [E|E].
    + subst k'. fold (keys d). auto.
    + cbn [map fst]. fold (keys (dict_pop k d)). split.
      * constructor; [|exact IH1]. intros Hin. apply Hk'.
        apply (keys_pop_incl k). exact Hin.
      * intros [H'|H']; [congruence | auto].
Qed.

Lemma length_pop (k : string) (d : AddressBook) (r : ContactRecord) :
  dict_get k d = Some r -> S (List.length (dict_pop k d)) = List.length d.
Proof.
  induction d as [|[k' v'] d IH]; cbn [dict_get dict_pop List.length];
    [discriminate|].
  destruct (String.eqb k k'); [reflexivity|].
  intros H. cbn [List.length]. rewrite (IH H). reflexivity.
Qed.

Lemma keys_set_NoDup (k : string) (v : ContactRecord) (d : AddressBook) :
  NoDup (keys d) -> NoDup (keys (dict_set k v d)).
Proof.
  intros H. destruct (dict_get k d) as [r|] eqn:E.
  - rewrite (keys_set_present k v r d E). exact H.
  - rewrite (keys_set_absent k v d E). apply NoDup_app.
    repeat split; auto.
    + constructor; [intros []|constructor].
    + intros x Hx [<-|[]]. apply dict_get_None_keys in E. auto.
Qed.

(** X7: [add_record] followed by [find] under the record's name gives the
    record back, and [find] under any other name gives what it gave before.
    A name that was there keeps its place among the keys, a new name goes to
    the end, and no key ever appears twice. *)
Theorem add_record_then_find : forall (book : AddressBook)
    (record : ContactRecord),
  find (value (name record)) (add_record record book) = Some record
  /\ (forall nm, nm <> value (name record) ->
        find nm (add_record record book) = find nm book)
  /\ (find (value (name record)) book = None ->
      keys (add_record record book)
      = (keys book ++ [value (name record)])%list)
  /\ (find (value (name record)) book <> None ->
      keys (add_record record book) = keys book)
  /\ (NoDup (keys book) -> NoDup (keys (add_record record book))).
Proof.
  intros book record. unfold add_record. rewrite !find_dict_get.
  split; [apply dict_get_set_same|]. split; [|split; [|split]].
  - intros nm Hne. rewrite ?find_dict_get. apply dict_get_set_other. exact Hne.
  - apply keys_set_absent.
  - destruct (dict_get (value (name record)) book) as [r|] eqn:E;
      [|congruence].
    intros _. apply (keys_set_present _ _ r). exact E.
  - apply keys_set_NoDup.
Qed.

(** X8: [delete] of a name that is not there leaves the directory as it is.
    After [delete] of a name of a dictionary, [find] under that name gives
    nothing and the directory has one entry fewer; [find] under any other
    name gives what it gave before. *)
Theorem delete_then_find : forall (book : AddressBook) (nm : string),
  (find nm book = None -> delete nm book = book)
  /\ (NoDup (keys book) -> find nm (delete nm book) = None)
  /\ (forall k, k <> nm -> find k (delete nm book) = find k book)
  /\ (find nm book <> None -> S (List.length (delete nm book)) = List.length book)
  /\ (NoDup (keys book) -> NoDup (keys (delete nm book))).
Proof.
  intros book nm. rewrite !find_dict_get. unfold delete, dict_mem.
  destruct (dict_get nm book) as [r|] eqn:E.
  - split; [discriminate|]. split; [|split; [|split]].
    + intros Hd. rewrite ?find_dict_get. apply dict_get_None_keys.
      apply (keys_pop_NoDup nm book Hd).
    + intros k Hne. rewrite ?find_dict_get. apply dict_get_pop_other.
      exact Hne.
    + intros _. apply (length_pop nm book r E).
    + intros Hd. apply (keys_pop_NoDup nm book Hd).
  - split; [reflexivity|]. split; [|split; [|split]].
    + intros _. rewrite ?find_dict_get. exact E.
    + reflexivity.
    + congruence.
    + auto.
Qed.

(** ** Dates of the address book *)

Lemma find_next_weekday_ahead (start_date : datetime) (wd : Z) :
  0 <= wd <= 6 ->
  find_next_weekday start_date wd
  = add_days start_date (((wd - weekday start_date - 1) mod 7) + 1)
  /\ 1 <= ((wd - weekday start_date - 1) mod 7) + 1 <= 7.
Proof.
  intros Hwd. pose proof (weekday_range start_date) as Hw.
  unfold find_next_weekday. split; [|divmod].
  destruct (Z.leb_spec (wd - weekday start_date) 0); f_equal; divmod.
Qed.

(** X9: [find_next_weekday] of a date and a weekday (0 Monday .. 6 Sunday)
    gives the first date after the start that falls on that weekday: one to
    seven days later, never the start itself.  It can raise [OverflowError]
    only from a start in the last seven days of the year 9999. *)
Theorem find_next_weekday_first_after : forall (start_date : datetime)
    (wd : Z),
  valid_date start_date ->
  0 <= wd <= 6 ->
  (exists c,
     find_next_weekday start_date wd = ok c
     /\ valid_date c
     /\ weekday c = wd
     /\ 1 <= toordinal c - toordinal start_date <= 7
     /\ forall x, valid_date x -> date_lt start_date x -> date_lt x c ->
                  weekday x <> wd)
  \/ (find_next_weekday start_date wd = raise OverflowError
      /\ MAXORDINAL - 7 < toordinal start_date).
Proof.
  intros start wd Hv Hwd.
  destruct (find_next_weekday_ahead start wd Hwd) as [-> Hk].
  set (k := (wd - weekday start - 1) mod 7 + 1) in *.
  pose proof (toordinal_range start Hv) as R.
  pose proof (weekday_range start) as Hw.
  destruct (Z.le_gt_cases (toordinal start + k) MAXORDINAL) as [Hle|Hgt].
  - left. exists (ord2ymd (toordinal start + k)).
    rewrite add_days_in_range by lia.
    destruct (ord2ymd_toordinal (toordinal start + k)) as [Vc Ec]; [lia|].
    split; [reflexivity|]. split; [exact Vc|]. rewrite Ec.
    split; [|split; [lia|]].
    + unfold weekday in *. rewrite Ec. subst k. divmod.
    + intros x Vx L1 L2.
      apply toordinal_lt_iff in L1; auto.
      apply toordinal_lt_iff in L2; auto. rewrite Ec in L2.
      unfold weekday in *. subst k. divmod.
  - right. split; [|lia]. unfold add_days.
    destruct (Z.leb_spec (toordinal start + k) MAXORDINAL); [lia|].
    rewrite andb_false_r. reflexivity.
Qed.

Lemma find_next_weekday_first_after_witness :
  (exists c,
     find_next_weekday (mkDate 2024 6 10) 0 = ok c
     /\ valid_date c
     /\ weekday c = 0
     /\ 1 <= toordinal c - toordinal (mkDate 2024 6 10) <= 7
     /\ forall x, valid_date x -> date_lt (mkDate 2024 6 10) x ->
                  date_lt x c -> weekday x <> 0)
  \/ (find_next_weekday (mkDate 2024 6 10) 0 = raise OverflowError
      /\ MAXORDINAL - 7 < toordinal (mkDate 2024 6 10)).
Proof.
  apply (find_next_weekday_first_after (mkDate 2024 6 10) 0).
  - repeat split; cbv; intros H; discriminate H.
  - lia.
Defined.

Lemma congratulation_day_bounds (occ c : datetime) :
  valid_date occ -> congratulation_day occ c ->
  valid_date c /\ weekday c < 5
  /\ toordinal occ <= toordinal c <= toordinal occ + 2.
Proof.
  intros Hv [[Hw ->]|[Hw [Vc [Wc [L N]]]]].
  - split; [exact Hv|]. split; [exact Hw | lia].
  - split; [exact Vc|]. split; [lia|].
    apply toordinal_lt in L; auto. split; [lia|].
    destruct (Z.le_gt_cases (toordinal c) (toordinal occ + 2)) as [H|H];
      [exact H|exfalso].
    pose proof (toordinal_range occ Hv) as Ro.
    pose proof (toordinal_range c Vc) as Rc.
    pose proof (weekday_range occ) as Rw.
    destruct (ord2ymd_toordinal (toordinal occ + (7 - weekday occ)))
      as [Vx Ex]; [lia|].
    apply (N (ord2ymd (toordinal occ + (7 - weekday occ))) Vx).
    + apply toordinal_lt_iff; auto. lia.
    + apply toordinal_lt_iff; auto. lia.
    + unfold weekday in *. rewrite Ex. divmod.
Qed.

(** X10: [adjust_for_weekend] returns for every date of the calendar; the
    date it gives is never a Saturday or a Sunday, is the date itself on a
    working day and is otherwise one or two days later. *)
Theorem adjust_for_weekend_working_day : forall b : datetime,
  valid_date b ->
  exists c,
    adjust_for_weekend b = ok c
    /\ valid_date c
    /\ weekday c < 5
    /\ toordinal b <= toordinal c <= toordinal b + 2
    /\ (weekday b < 5 -> c = b)
    /\ (5 <= weekday b -> toordinal b < toordinal c).
Proof.
  intros b Hv. destruct (adjust_for_weekend_total b Hv) as [c Hc].
  exists c. split; [exact Hc|].
  pose proof (adjust_for_weekend_spec b c Hv Hc) as Hd.
  destruct (congratulation_day_bounds b c Hv Hd) as [Vc [Wc Rc]].
  repeat (split; [assumption|]). split.
  - intros Hw. destruct Hd as [[_ E]|[Hw' _]]; [exact E | lia].
  - intros Hw. destruct Hd as [[Hw' _]|[_ [_ [_ [L _]]]]]; [lia|].
    apply toordinal_lt; assumption.
Qed.

Lemma adjust_for_weekend_working_day_witness :
  exists c,
    adjust_for_weekend (mkDate 2024 6 16) = ok c
    /\ valid_date c
    /\ weekday c < 5
    /\ toordinal (mkDate 2024 6 16) <= toordinal c
       <= toordinal (mkDate 2024 6 16) + 2
    /\ (weekday (mkDate 2024 6 16) < 5 -> c = mkDate 2024 6 16)
    /\ (5 <= weekday (mkDate 2024 6 16) ->
        toordinal (mkDate 2024 6 16) < toordinal c).
Proof.
  apply (adjust_for_weekend_working_day (mkDate 2024 6 16)).
  repeat split; cbv; intros H; discriminate H.
Defined.

Lemma strptime_date_to_string (dt : datetime) :
  valid_date dt -> 1000 <= year dt -> strptime (date_to_string dt) = ok dt.
Proof.
  intros Hv Hy. apply strptime_ok_iff.
  exists (year dt), (month dt), (day dt).
  pose proof (strftime_DD_MM_YYYY dt Hv Hy) as H.
  apply DD_MM_YYYY_date_string in H as [H _].
  split; [exact H|]. split; [exact Hv|]. destruct dt; reflexivity.
Qed.

(** X11: from the year 1000 on, the string [date_to_string] prints for a
    date of the calendar is read back by [strptime] as the same date, and
    [Birthday] accepts it. *)
Theorem date_to_string_reads_back : forall dt : datetime,
  valid_date dt ->
  1000 <= year dt ->
  strptime (date_to_string dt) = ok dt
  /\ Birthday (date_to_string dt) = ok (mkField (date_to_string dt)).
Proof.
  intros dt Hv Hy. pose proof (strptime_date_to_string dt Hv Hy) as H.
  split; [exact H|]. apply Birthday_ok_iff. eauto.
Qed.

Lemma date_to_string_reads_back_witness :
  strptime (date_to_string (mkDate 2024 2 29)) = ok (mkDate 2024 2 29)
  /\ Birthday (date_to_string (mkDate 2024 2 29))
     = ok (mkField (date_to_string (mkDate 2024 2 29))).
Proof.
  apply (date_to_string_reads_back (mkDate 2024 2 29)).
  - repeat split; cbv; intros H; discriminate H.
  - cbv. intros H. discriminate H.
Defined.

(** ** The query for upcoming birthdays *)

Lemma occurrence_valid (bday : datetime) (y : Z) :
  valid_date bday -> february_29 bday = false -> 1 <= y <= 9999 ->
  valid_date (occurrence bday y).
Proof.
  destruct bday as [y0 m d].
  unfold valid_date, real_date, occurrence, february_29.
  cbn [year month day]. intros [_ [Hm Hd]] Hf Hy.
  split; [exact Hy|]. split; [exact Hm|].
  unfold month_length in *.
  destruct (Z.eqb_spec m 2) as [E|E]; [|exact Hd].
  cbn [andb] in Hf. apply Z.eqb_neq in Hf.
  destruct (is_leap y0), (is_leap y); lia.
Qed.

Lemma next_occurrence_valid (today bday : datetime) :
  valid_date today -> year today < 9999 ->
  valid_date bday -> february_29 bday = false ->
  valid_date (occurrence bday (year today))
  /\ valid_date (next_occurrence today bday).
Proof.
  intros Ht Hy Hb Hf. destruct Ht as [Hty Ht]. split.
  - apply occurrence_valid; auto.
  - unfold next_occurrence. destruct (date_ltb _ _);
      apply occurrence_valid; auto; lia.
Qed.

(** X12: when every stored birthday is a string [strptime] reads and none
    is a 29 February, then in every year before 9999
    [get_upcoming_birthdays] returns, and its result names exactly the
    records that are due -- a birthday whose next occurrence is today or one
    of the seven days after it -- in the order of the directory. *)
Theorem get_upcoming_birthdays_without_29_February : forall
    (today : datetime) (book : AddressBook),
  valid_date today ->
  year today < 9999 ->
  (forall nm r b, In (nm, r) book -> birthday r = Some b ->
     exists bday, strptime (value b) = ok bday /\ february_29 bday = false) ->
  exists l,
    get_upcoming_birthdays today book = ok l
    /\ map c_name l = map fst (filter (fun kv => due today (snd kv)) book).
Proof.
  intros today book Ht Hy Hb.
  apply (get_upcoming_birthdays_due today Ht book).
  intros nm r b Hin Hbd. destruct (Hb nm r b Hin Hbd) as [bday [S F]].
  exists bday. split; [exact S|].
  apply next_occurrence_valid; auto. apply (strptime_valid _ _ S).
Qed.

Lemma get_upcoming_birthdays_without_29_February_witness :
  exists l,
    get_upcoming_birthdays (mkDate 2024 6 10)
      [("Ann", mkRecord (Name "Ann") [] (Some (mkField "20.06.1990")));
       ("Bob", mkRecord (Name "Bob") [] (Some (mkField "16.06.1990")));
       ("Eve", mkRecord (Name "Eve") [mkField "0123456789"] None)]
    = ok l
    /\ map c_name l
       = map fst
           (filter (fun kv => due (mkDate 2024 6 10) (snd kv))
              [("Ann", mkRecord (Name "Ann") [] (Some (mkField "20.06.1990")));
               ("Bob", mkRecord (Name "Bob") [] (Some (mkField "16.06.1990")));
               ("Eve", mkRecord (Name "Eve") [mkField "0123456789"] None)]).
Proof.
  apply (get_upcoming_birthdays_without_29_February (mkDate 2024 6 10)).
  - repeat split; cbv; intros H; discriminate H.
  - reflexivity.
  - intros nm r b [H|[H|[H|[]]]] Hb; inversion H; subst; cbn in Hb;
      try discriminate Hb; inversion Hb; subst; eexists;
      (split; [reflexivity|reflexivity]).
Defined.

(** X13: whatever the directory, every element of a result of
    [get_upcoming_birthdays] carries a key of the directory and a date
    string that reads back as a working day (Monday to Friday), not before
    today and at most nine days after it. *)
Theorem upcoming_dates_are_working_days : forall (today : datetime)
    (book : AddressBook) (l : list congratulation),
  valid_date today ->
  1000 <= year today ->
  get_upcoming_birthdays today book = ok l ->
  Forall (fun c =>
            In (c_name c) (keys book)
            /\ exists cday,
                 strptime (congratulation_date c) = ok cday
                 /\ weekday cday < 5
                 /\ 0 <= toordinal cday - toordinal today <= 9) l.
Proof.
  intros today book l Ht Hy Hl.
  eapply Forall_impl;
    [|apply (get_upcoming_birthdays_reported today Ht book l Hl)].
  intros c [r [b [bday [cday [Hin [Hb [S [V [W [C [D F]]]]]]]]]]].
  split; [apply (in_map fst) in Hin; exact Hin|].
  destruct (congratulation_day_bounds _ _ V C) as [Vc [Wc Rc]].
  rewrite (in_window_ordinals today _ Ht V) in W.
  apply andb_true_iff in W as [W1 W2]. apply Z.leb_le in W1, W2.
  exists cday. rewrite D. split; [|split; [exact Wc | lia]].
  apply strptime_date_to_string; [exact Vc|].
  pose proof (year_le_of_ordinal today cday Ht Vc ltac:(lia)). lia.
Qed.

Lemma upcoming_dates_are_working_days_witness :
  Forall (fun c =>
            In (c_name c)
              (keys [("Ann", mkRecord (Name "Ann") []
                               (Some (mkField "15.06.1990")))])
            /\ exists cday,
                 strptime (congratulation_date c) = ok cday
                 /\ weekday cday < 5
                 /\ 0 <= toordinal cday - toordinal (mkDate 2024 6 10) <= 9)
    [mkCongratulation "Ann" "17.06.2024"].
Proof.
  apply (upcoming_dates_are_working_days (mkDate 2024 6 10)
           [("Ann", mkRecord (Name "Ann") [] (Some (mkField "15.06.1990")))]
           [mkCongratulation "Ann" "17.06.2024"]).
  - repeat split; cbv; intros H; discriminate H.
  - cbv. intros H. discriminate H.
  - reflexivity.
Defined.

Lemma occurrence_same_fields (d bday : datetime) :
  month d = month bday -> day d = day bday -> d = occurrence bday (year d).
Proof. destruct d. unfold occurrence. cbn. intros -> ->. reflexivity. Qed.

Lemma first_week_is_january (y m d : Z) :
  1 <= m <= 12 -> 1 <= d -> days_before_month y m + d <= 7 -> m = 1.
Proof.
  intros Hm Hd H. unfold days_before_month in H.
  month_cases m; try reflexivity; exfalso; revert H; tables;
    destruct (is_leap y); cbn [andb]; lia.
Qed.

(** For a birthday that is not a 29 February, in every year before 9999,
    the next occurrence is within the window exactly when one of the eight
    days from today on has the day and the month of the birthday -- also
    across the turn of the year. *)
Lemma next_occurrence_in_window_iff : forall today bday : datetime,
  valid_date today ->
  year today < 9999 ->
  valid_date bday ->
  february_29 bday = false ->
  in_window today (next_occurrence today bday) = true
  <-> exists k d,
        0 <= k <= 7 /\ add_days today k = ok d
        /\ month d = month bday /\ day d = day bday.
Proof.
  intros today bday Ht Hy Hb Hf.
  destruct (next_occurrence_valid today bday Ht Hy Hb Hf) as [V1 V2].
  pose proof (toordinal_range today Ht) as Rt.
  split.
  - intros W. rewrite (in_window_ordinals today _ Ht V2) in W.
    apply andb_true_iff in W as [W1 W2]. apply Z.leb_le in W1, W2.
    pose proof (toordinal_range _ V2) as Ro.
    exists (toordinal (next_occurrence today bday) - toordinal today),
      (next_occurrence today bday).
    split; [lia|]. split.
    + rewrite add_days_in_range by lia.
      replace (toordinal today
               + (toordinal (next_occurrence today bday) - toordinal today))
        with (toordinal (next_occurrence today bday)) by lia.
      rewrite (ord2ymd_of_toordinal _ V2). reflexivity.
    + unfold next_occurrence. destruct (date_ltb _ _); split; reflexivity.
  - intros [k [d [Hk [A [Hm Hd]]]]].
    destruct (add_days_ok today k d Ht A) as [Vd Ed].
    pose proof (occurrence_same_fields d bday Hm Hd) as Eocc.
    pose proof (year_le_of_ordinal today d Ht Vd ltac:(lia)) as Hy1.
    pose proof (toordinal_in_year d Vd) as Hd1.
    pose proof (toordinal_in_year today Ht) as Ht1.
    assert (Hy2 : year d <= year today + 1).
    { destruct (Z.le_gt_cases (year d) (year today + 1)) as [H|H]; [exact H|].
      pose proof (days_before_year_mono (year today + 2) (year d)
                    ltac:(lia)) as M.
      pose proof (days_before_year_succ (year today + 1)) as S1.
      replace (year today + 1 + 1) with (year today + 2) in S1 by lia.
      destruct (is_leap (year today + 1)); lia. }
    assert (Hnext : next_occurrence today bday = d).
    { unfold next_occurrence.
      rewrite <- (toordinal_ltb _ _ V1 Ht).
      destruct (Z.eq_dec (year d) (year today)) as [E|E].
      - rewrite E in Eocc. rewrite <- Eocc.
        destruct (Z.ltb_spec (toordinal d) (toordinal today)); [lia|].
        reflexivity.
      - assert (E' : year d = year today + 1) by lia.
        rewrite E' in Eocc.
        destruct Vd as [_ [Vm Vday]].
        assert (Td : toordinal d
                     = days_before_year (year today + 1)
                       + days_before_month (year today + 1) (month d)
                       + day d).
        { unfold toordinal, ymd2ord. rewrite E'. reflexivity. }
        assert (M1 : month d = 1).
        { apply (first_week_is_january (year today + 1) (month d) (day d));
            [exact Vm | lia | lia]. }
        rewrite M1 in Td. unfold days_before_month in Td. revert Td. tables.
        cbn [andb]. intros Td.
        pose proof (days_before_year_succ (year today)) as S1.
        assert (L : toordinal (occurrence bday (year today))
                    < toordinal today).
        { unfold toordinal at 1, ymd2ord, occurrence. cbn [year month day].
          rewrite <- Hm, <- Hd, M1. unfold days_before_month. tables.
          cbn [andb]. destruct (is_leap (year today)); lia. }
        destruct (Z.ltb_spec (toordinal (occurrence bday (year today)))
                    (toordinal today)); [|lia].
        symmetry. exact Eocc. }
    rewrite Hnext. rewrite (in_window_ordinals today d Ht Vd).
    apply andb_true_iff. rewrite !Z.leb_le. lia.
Qed.

(** X27: when every stored birthday is a string [strptime] reads and none
    is a 29 February, then in every year before 9999
    [get_upcoming_birthdays] returns, and a name is in its result exactly
    when the directory has a record under that name whose birthday has the
    day and the month of today or of one of the seven days after it -- also
    when these days cross the turn of the year. *)
Theorem upcoming_names_are_birthdays_within_a_week : forall
    (today : datetime) (book : AddressBook),
  valid_date today ->
  year today < 9999 ->
  (forall nm r b, In (nm, r) book -> birthday r = Some b ->
     exists bday, strptime (value b) = ok bday /\ february_29 bday = false) ->
  exists l,
    get_upcoming_birthdays today book = ok l
    /\ forall nm,
         In nm (map c_name l) <->
         exists r b bday k d,
           In (nm, r) book /\ birthday r = Some b
           /\ strptime (value b) = ok bday
           /\ 0 <= k <= 7 /\ add_days today k = ok d
           /\ month d = month bday /\ day d = day bday.
Proof.
  intros today book Ht Hy Hb.
  destruct (get_upcoming_birthdays_due today Ht book) as [l [Hl Hn]].
  { intros nm r b Hin Hbd. destruct (Hb nm r b Hin Hbd) as [bday [S F]].
    exists bday. split; [exact S|].
    apply next_occurrence_valid; auto. apply (strptime_valid _ _ S). }
  exists l. split; [exact Hl|]. intros nm. rewrite Hn, in_map_iff. split.
  - intros [[nm' r] [E Hin]]. cbn [fst] in E. subst nm'.
    apply filter_In in Hin as [Hin Hdue]. cbn [snd] in Hdue.
    unfold due in Hdue. destruct (birthday r) as [b|] eqn:B; [|discriminate].
    destruct (Hb nm r b Hin B) as [bday [S F]]. rewrite S in Hdue.
    apply (next_occurrence_in_window_iff today bday Ht Hy
             (strptime_valid _ _ S) F) in Hdue.
    destruct Hdue as [k [d [Hk [A [Hm Hd]]]]].
    exists r, b, bday, k, d. auto 8.
  - intros [r [b [bday [k [d [Hin [B [S [Hk [A [Hm Hd]]]]]]]]]]].
    exists (nm, r). split; [reflexivity|].
    apply filter_In. split; [exact Hin|]. cbn [snd].
    unfold due. rewrite B, S.
    destruct (Hb nm r b Hin B) as [bday' [S' F]].
    rewrite S in S'. apply ok_inj in S'. subst bday'.
    apply (next_occurrence_in_window_iff today bday Ht Hy
             (strptime_valid _ _ S) F).
    exists k, d. auto.
Qed.

Lemma upcoming_names_are_birthdays_within_a_week_witness :
  exists l,
    get_upcoming_birthdays (mkDate 2024 12 29)
      [("Ann", mkRecord (Name "Ann") [] (Some (mkField "03.01.1990")));
       ("Bob", mkRecord (Name "Bob") [] (Some (mkField "28.12.1990")))]
    = ok l
    /\ forall nm,
         In nm (map c_name l) <->
         exists r b bday k d,
           In (nm, r)
             [("Ann", mkRecord (Name "Ann") []
                        (Some (mkField "03.01.1990")));
              ("Bob", mkRecord (Name "Bob") []
                        (Some (mkField "28.12.1990")))]
           /\ birthday r = Some b
           /\ strptime (value b) = ok bday
           /\ 0 <= k <= 7 /\ add_days (mkDate 2024 12 29) k = ok d
           /\ month d = month bday /\ day d = day bday.
Proof.
  apply (upcoming_names_are_birthdays_within_a_week (mkDate 2024 12 29)).
  - repeat split; cbv; intros H; discriminate H.
  - reflexivity.
  - intros nm r b [H|[H|[]]] Hb; inversion H; subst; cbn in Hb;
      try discriminate Hb; inversion Hb; subst; eexists;
      (split; [reflexivity|reflexivity]).
Defined.

(** ** Command handlers *)

Lemma add_phone_raises (v : string) (r r' : ContactRecord) (e : exn) :
  add_phone v r = (r', inl e) -> r' = r /\ e <> OverflowError.
Proof.
  destruct (add_phone_cases v r) as [[e' [He ->]]|[[_ [_ ->]]|[_ [_ ->]]]];
    try discriminate.
  intros H. destruct (Phone_total v) as [P|[msg P]]; rewrite P in He;
    [discriminate He|].
  unfold raise in *. split; [congruence|]. intros ->.
  assert (E : e' = OverflowError) by congruence. subst e'. discriminate He.
Qed.

Lemma edit_phone_raises (o n : string) (r r' : ContactRecord) (e : exn) :
  edit_phone o n r = (r', inl e) -> r' = r /\ e <> OverflowError.
Proof.
  unfold edit_phone. destruct (find_phone o r).
  - unfold bindM. destruct (add_phone n r) as [r1 [e1|[]]] eqn:A.
    + intros H. assert (r1 = r' /\ e1 = e) as [-> ->] by (split; congruence).
      apply (add_phone_raises n r r' e A).
    + cbn [remove_phone]. discriminate.
  - unfold raise. intros H. split; [congruence|]. intros ->. discriminate H.
Qed.

Lemma add_birthday_raises (b : string) (r r' : ContactRecord) (e : exn) :
  add_birthday b r = (r', inl e) -> r' = r /\ e <> OverflowError.
Proof.
  unfold add_birthday. destruct (Birthday_total b) as [B|B]; rewrite B.
  - discriminate.
  - unfold raise. intros H. split; [congruence|]. intros ->. discriminate H.
Qed.

Lemma on_record_raises {A : Type} (nm : string) (m : M ContactRecord A)
    (book book' : AddressBook) (e : exn) :
  (forall r r' e, m r = (r', inl e) -> r' = r /\ e <> OverflowError) ->
  on_record nm m book = (book', inl e) ->
  book' = book /\ e <> OverflowError.
Proof.
  intros Hm. unfold on_record.
  destruct (dict_get nm book) as [r|] eqn:G.
  - destruct (m r) as [r' [e'|a]] eqn:E; [|discriminate].
    destruct (Hm r r' e' E) as [-> Hne]. intros H.
    rewrite (dict_set_get_id nm r book G) in H.
    split; [congruence|]. congruence.
  - unfold raise. intros H. split; [congruence|]. intros ->. discriminate H.
Qed.

Lemma prefix_red_red (s : string) :
  String.prefix Fore_RED (Fore_RED ++ s) = true.
Proof. destruct s; reflexivity. Qed.

Lemma prefix_red_green (s : string) :
  String.prefix Fore_RED (Fore_GREEN ++ s) = false.
Proof. reflexivity. Qed.

Lemma add_contact_body_behaves (args : list string) (book : AddressBook) :
  behaves (add_contact_body args) book.
Proof.
  unfold behaves, add_contact_body.
  destruct args as [|nm [|phone rest]];
    try (cbn [raiseM raise]; split; [reflexivity | discriminate]).
  destruct (find nm book).
  - unfold bindM, ret.
    destruct (on_record nm (add_phone phone) book) as [b' [e|[]]] eqn:E.
    + apply (on_record_raises nm _ book b' e (add_phone_raises phone) E).
    + apply prefix_red_green.
  - destruct (add_phone phone (new_record nm)) as [rec [e|[]]] eqn:E.
    + split; [reflexivity|]. apply (add_phone_raises _ _ _ _ E).
    + apply prefix_red_green.
Qed.

Lemma change_contact_body_behaves (args : list string) (book : AddressBook) :
  behaves (change_contact_body args) book.
Proof.
  unfold behaves, change_contact_body.
  destruct args as [|nm [|o [|n rest]]];
    try (cbn [raiseM raise]; split; [reflexivity | discriminate]).
  destruct (find nm book); [|split; [reflexivity | discriminate]].
  unfold bindM, ret.
  destruct (on_record nm (edit_phone o n) book) as [b' [e|[]]] eqn:E.
  - apply (on_record_raises nm _ book b' e (edit_phone_raises o n) E).
  - apply prefix_red_green.
Qed.

Lemma add_birthday_body_behaves (args : list string) (book : AddressBook) :
  behaves (add_birthday_body args) book.
Proof.
  unfold behaves, add_birthday_body.
  destruct args as [|nm [|b rest]];
    try (cbn [raiseM raise]; split; [reflexivity | discriminate]).
  unfold bindM, ret.
  destruct (on_record nm (add_birthday b) book) as [b' [e|[]]] eqn:E.
  - apply (on_record_raises nm _ book b' e (add_birthday_raises b) E).
  - apply prefix_red_green.
Qed.

Lemma show_phone_body_behaves (args : list string) (book : AddressBook) :
  behaves (show_phone_body args) book.
Proof.
  unfold behaves, show_phone_body. destruct args as [|nm rest].
  - cbn [raiseM raise]. split; [reflexivity | discriminate].
  - destruct (dict_get nm book);
      [apply prefix_red_green | split; [reflexivity | discriminate]].
Qed.

Lemma show_birthday_body_behaves (args : list string) (book : AddressBook) :
  behaves (show_birthday_body args) book.
Proof.
  unfold behaves, show_birthday_body. destruct args as [|nm rest].
  - cbn [raiseM raise]. split; [reflexivity | discriminate].
  - destruct (find nm book) as [r|]; [destruct (birthday r)|];
      apply prefix_red_green.
Qed.

Lemma get_upcoming_birthdays_outcome (today : datetime) (book : AddressBook) :
  valid_date today ->
  (exists l, get_upcoming_birthdays today book = ok l)
  \/ get_upcoming_birthdays today book = raise ValueError.
Proof.
  intros Ht. induction book as [|[nm r] book IH].
  - left. exists []. reflexivity.
  - rewrite get_upcoming_birthdays_cons.
    destruct (birthday r) as [b|]; [|exact IH].
    destruct (upcoming_entry_outcome today Ht nm b) as [[e ->]| ->];
      [|right; reflexivity].
    destruct IH as [[l ->]| ->]; [left|right; reflexivity].
    cbn [bind ok]. eauto.
Qed.

Lemma birthdays_body_behaves (today : datetime) (book : AddressBook) :
  valid_date today -> behaves (birthdays_body today) book.
Proof.
  intros Ht. unfold behaves, birthdays_body.
  destruct (get_upcoming_birthdays_outcome today book Ht) as [[l ->]| ->].
  - destruct l; apply prefix_red_green.
  - split; [reflexivity | discriminate].
Qed.

Lemma input_error_behaves (body : M AddressBook string) (book : AddressBook) :
  behaves body book ->
  exists out,
    input_error body book = (fst (body book), ok out)
    /\ (String.prefix Fore_RED out = true -> fst (body book) = book).
Proof.
  unfold behaves, input_error.
  destruct (body book) as [book' [e|out]]; cbn [fst].
  - intros [-> Hne]. destruct e; try congruence; eexists;
      (split; [reflexivity | reflexivity]).
  - intros Hp. exists out. split; [reflexivity|]. congruence.
Qed.

Lemma handle_behaves (today : datetime) (c : command) (book : AddressBook) :
  valid_date today ->
  exists out,
    handle today c book = (fst (handle today c book), ok out)
    /\ (String.prefix Fore_RED out = true -> fst (handle today c book) = book).
Proof.
  intros Ht.
  assert (H : forall body, behaves body book ->
                exists out,
                  input_error body book = (fst (input_error body book), ok out)
                  /\ (String.prefix Fore_RED out = true ->
                      fst (input_error body book) = book)).
  { intros body Hb. rewrite input_error_state.
    apply input_error_behaves. exact Hb. }
  destruct c as [args|args|args|args|args| |]; cbn [handle].
  - apply H, add_contact_body_behaves.
  - apply H, change_contact_body_behaves.
  - apply H, show_phone_body_behaves.
  - apply H, add_birthday_body_behaves.
  - apply H, show_birthday_body_behaves.
  - apply H, birthdays_body_behaves. exact Ht.
  - unfold show_all_contacts. destruct book as [|e book]; eexists;
      (split; [reflexivity | reflexivity]).
Qed.

(** X14: no exception leaves a handler: for every command, all arguments and
    every directory, on any day of the calendar, the handler returns a
    text. *)
Theorem handlers_always_answer : forall (today : datetime) (c : command)
    (book : AddressBook),
  valid_date today ->
  exists out, snd (handle today c book) = ok out.
Proof.
  intros today c book Ht.
  destruct (handle_behaves today c book Ht) as [out [H _]].
  exists out. rewrite H. reflexivity.
Qed.

Lemma handlers_always_answer_witness :
  exists out,
    snd (handle (mkDate 2023 6 10) CmdBirthdays
           [("Ann", mkRecord (Name "Ann") [] (Some (mkField "29.02.2024")))])
    = ok out.
Proof.
  apply (handlers_always_answer (mkDate 2023 6 10) CmdBirthdays
           [("Ann", mkRecord (Name "Ann") [] (Some (mkField "29.02.2024")))]).
  repeat split; cbv; intros H; discriminate H.
Defined.

(** X15: a command that is answered in red -- with the text of an error --
    has changed nothing in the directory; and the four commands that only
    show something (phone, show-birthday, birthdays, all) never change it. *)
Theorem red_answer_changes_nothing : forall (today : datetime) (c : command)
    (book : AddressBook),
  valid_date today ->
  (forall out, snd (handle today c book) = ok out ->
               String.prefix Fore_RED out = true ->
               fst (handle today c book) = book)
  /\ match c with
     | CmdPhone _ | CmdShowBirthday _ | CmdBirthdays | CmdAll =>
         fst (handle today c book) = book
     | _ => True
     end.
Proof.
  intros today c book Ht. split.
  - intros out Hout Hp.
    destruct (handle_behaves today c book Ht) as [out' [H Hred]].
    rewrite H in Hout. cbn [snd] in Hout. apply ok_inj in Hout. subst out'.
    exact (Hred Hp).
  - destruct c as [args|args|args|args|args| |]; cbn [handle]; auto;
      unfold show_phone, show_birthday, birthdays;
      rewrite ?input_error_state.
    + apply show_phone_body_state.
    + apply show_birthday_body_state.
    + apply birthdays_body_state.
    + apply show_all_contacts_state.
Qed.

Lemma red_answer_changes_nothing_witness :
  (forall out,
     snd (handle (mkDate 2024 6 10) (CmdAdd ["Ann"; "12345"])
            [("Ann", new_record "Ann")]) = ok out ->
     String.prefix Fore_RED out = true ->
     fst (handle (mkDate 2024 6 10) (CmdAdd ["Ann"; "12345"])
            [("Ann", new_record "Ann")]) = [("Ann", new_record "Ann")])
  /\ True.
Proof.
  apply (red_answer_changes_nothing (mkDate 2024 6 10)
           (CmdAdd ["Ann"; "12345"]) [("Ann", new_record "Ann")]).
  repeat split; cbv; intros H; discriminate H.
Defined.

(** ** What the commands do *)

Lemma dict_set_absent (k : string) (v : ContactRecord) (d : AddressBook) :
  dict_get k d = None -> dict_set k v d = (d ++ [(k, v)])%list.
Proof.
  induction d as [|[k' v'] d IH]; cbn [dict_get dict_set app].
  - reflexivity.
  - destruct (String.eqb k k'); [discriminate|].
    intros H. rewrite (IH H). reflexivity.
Qed.

(** X16: the add command with a name that is not in the directory and a
    valid phone puts a new record at the end of the directory -- the name,
    that one phone, no birthday -- and answers in green; all other entries
    stay as they are. *)
Theorem add_contact_new_name : forall (book : AddressBook)
    (nm phone : string) (rest : list string),
  find nm book = None ->
  valid_phone phone ->
  add_contact (nm :: phone :: rest) book
  = ((book ++ [(nm, mkRecord (Name nm) [mkField phone] None)])%list,
     ok (Fore_GREEN ++ nl ++ "Contact/phone added: " ++ nm ++ " " ++ phone)).
Proof.
  intros book nm phone rest Hf Hv.
  unfold add_contact, input_error, add_contact_body. rewrite Hf.
  rewrite (add_phone_absent phone (new_record nm) Hv) by (intros []).
  unfold add_record. cbn [set_phones new_record name phones birthday value
                          Name app].
  rewrite find_dict_get in Hf. rewrite (dict_set_absent nm _ book Hf).
  reflexivity.
Qed.

Lemma add_contact_new_name_witness :
  add_contact ["Bob"; "0123456789"] [("Ann", new_record "Ann")]
  = (([("Ann", new_record "Ann")]
      ++ [("Bob", mkRecord (Name "Bob") [mkField "0123456789"] None)])%list,
     ok (Fore_GREEN ++ nl ++ "Contact/phone added: " ++ "Bob" ++ " "
         ++ "0123456789")).
Proof.
  apply (add_contact_new_name [("Ann", new_record "Ann")] "Bob" "0123456789"
           []).
  - reflexivity.
  - exists (mkField "0123456789"). reflexivity.
Defined.

(** X17: the add command never stores a phone that [Phone] rejects: with
    such a phone the directory stays as it is, whether the name is there or
    not, and the answer is the text of the [PhoneValidationError] in red.
    With fewer than two arguments the directory stays as it is too. *)
Theorem add_contact_rejects : forall (book : AddressBook)
    (args : list string),
  (forall nm phone rest, args = nm :: phone :: rest -> ~ valid_phone phone ->
     exists msg,
       Phone phone = raise (PhoneValidationError msg)
       /\ add_contact args book = (book, ok (Fore_RED ++ nl ++ msg)))
  /\ ((List.length args < 2)%nat ->
      add_contact args book
      = (book, ok (Fore_RED ++ nl
                   ++ "Invalid command format (name/phone missing)"))).
Proof.
  intros book args. split.
  - intros nm phone rest -> Hn.
    destruct (Phone_invalid phone Hn) as [msg Hmsg]. exists msg.
    split; [exact Hmsg|].
    unfold add_contact, input_error, add_contact_body.
    rewrite find_dict_get. destruct (dict_get nm book) as [r|] eqn:G.
    + unfold bindM, on_record. rewrite G.
      rewrite (add_phone_invalid phone r _ Hmsg).
      rewrite (dict_set_get_id nm r book G). reflexivity.
    + rewrite (add_phone_invalid phone (new_record nm) _ Hmsg). reflexivity.
  - intros Hl. destruct args as [|nm [|phone rest]]; [reflexivity..|].
    cbn [List.length] in Hl. lia.
Qed.

(** X18: the change command on a contact of the directory.  When the old
    phone is not among the contact's phones, or the new one is rejected by
    [Phone], the directory stays as it is and the answer is the error text
    in red; otherwise the contact's record becomes what [edit_phone] makes of
    it, the keys and the other records stay, and the answer is green. *)
Theorem change_contact_on_existing : forall (book : AddressBook)
    (nm old_phone new_phone : string) (rest : list string)
    (r : ContactRecord),
  dict_get nm book = Some r ->
  (~ In old_phone (map value (phones r)) ->
   change_contact (nm :: old_phone :: new_phone :: rest) book
   = (book, ok (Fore_RED ++ nl
                ++ "Phone number to be edited is missing from the list")))
  /\ (In old_phone (map value (phones r)) -> ~ valid_phone new_phone ->
      exists msg,
        change_contact (nm :: old_phone :: new_phone :: rest) book
        = (book, ok (Fore_RED ++ nl ++ msg)))
  /\ (In old_phone (map value (phones r)) -> valid_phone new_phone ->
      change_contact (nm :: old_phone :: new_phone :: rest) book
      = (dict_set nm (fst (edit_phone old_phone new_phone r)) book,
         ok (Fore_GREEN ++ nl ++ nm ++ ": phone " ++ old_phone
             ++ " changed to " ++ new_phone))
      /\ keys (dict_set nm (fst (edit_phone old_phone new_phone r)) book)
         = keys book
      /\ forall k, k <> nm ->
           dict_get k (dict_set nm (fst (edit_phone old_phone new_phone r))
                         book)
           = dict_get k book).
Proof.
  intros book nm o n rest r G.
  unfold change_contact, input_error, change_contact_body.
  rewrite find_dict_get, G. unfold bindM, on_record. rewrite G.
  split; [|split].
  - intros Hn. destruct (edit_phone_missing_unchanged r o n Hn) as [msg [-> ->]].
    unfold raise. cbv beta iota.
    rewrite (dict_set_get_id nm r book G). reflexivity.
  - intros Hin Hn.
    destruct (Phone_invalid n Hn) as [msg Hmsg]. exists msg.
    rewrite (edit_phone_found o n r Hin). unfold bindM.
    rewrite (add_phone_invalid n r _ Hmsg).
    unfold raise. cbv beta iota.
    rewrite (dict_set_get_id nm r book G). reflexivity.
  - intros Hin Hv. split; [|split].
    + rewrite (edit_phone_found o n r Hin). unfold bindM.
      destruct (add_phone_cases n r)
        as [[e [He _]]|[[_ [_ ->]]|[_ [_ ->]]]]; [|reflexivity..].
      rewrite (valid_phone_ok n Hv) in He. discriminate He.
    + apply (keys_set_present nm _ r book G).
    + intros k Hk. apply dict_get_set_other. exact Hk.
Qed.

Lemma change_contact_on_existing_witness :
  change_contact ["Ann"; "0123456789"; "1111111111"]
    [("Ann", mkRecord (Name "Ann") [mkField "0123456789"] None)]
  = ([("Ann", mkRecord (Name "Ann") [mkField "1111111111"] None)],
     ok (Fore_GREEN ++ nl ++ "Ann" ++ ": phone " ++ "0123456789"
         ++ " changed to " ++ "1111111111")).
Proof.
  pose proof (change_contact_on_existing
                [("Ann", mkRecord (Name "Ann") [mkField "0123456789"] None)]
                "Ann" "0123456789" "1111111111" []
                (mkRecord (Name "Ann") [mkField "0123456789"] None)
                eq_refl) as [_ [_ H]].
  destruct H as [H _].
  - simpl. auto.
  - exists (mkField "1111111111"). reflexivity.
  - exact H.
Defined.

(** X19: the commands on a name that is not in the directory: change, phone
    and add-birthday leave the directory as it is and answer "Contact
    doesn't exist" in red; show-birthday answers in green that the contact
    does not exist. *)
Theorem unknown_contact_answers : forall (book : AddressBook) (nm : string)
    (a b : string) (rest : list string),
  find nm book = None ->
  change_contact (nm :: a :: b :: rest) book
  = (book, ok (Fore_RED ++ nl ++ "Contact doesn't exist"))
  /\ show_phone (nm :: rest) book
     = (book, ok (Fore_RED ++ nl ++ "Contact doesn't exist"))
  /\ add_birthday_handler (nm :: a :: rest) book
     = (book, ok (Fore_RED ++ nl ++ "Contact doesn't exist"))
  /\ show_birthday (nm :: rest) book
     = (book, ok (Fore_GREEN ++ nl ++ "Contact " ++ quotation_mark ++ nm
                  ++ quotation_mark ++ " doesn't exist")).
Proof.
  intros book nm a b rest Hf. pose proof Hf as Hg.
  rewrite find_dict_get in Hg.
  unfold change_contact, show_phone, add_birthday_handler, show_birthday,
    input_error, change_contact_body, show_phone_body, add_birthday_body,
    show_birthday_body, bindM, on_record.
  rewrite Hf, Hg. repeat split.
Qed.

Lemma unknown_contact_answers_witness :
  change_contact ["Bob"; "0123456789"; "1111111111"] [("Ann", new_record "Ann")]
  = ([("Ann", new_record "Ann")],
     ok (Fore_RED ++ nl ++ "Contact doesn't exist"))
  /\ show_phone ["Bob"] [("Ann", new_record "Ann")]
     = ([("Ann", new_record "Ann")],
        ok (Fore_RED ++ nl ++ "Contact doesn't exist"))
  /\ add_birthday_handler ["Bob"; "0123456789"] [("Ann", new_record "Ann")]
     = ([("Ann", new_record "Ann")],
        ok (Fore_RED ++ nl ++ "Contact doesn't exist"))
  /\ show_birthday ["Bob"] [("Ann", new_record "Ann")]
     = ([("Ann", new_record "Ann")],
        ok (Fore_GREEN ++ nl ++ "Contact " ++ quotation_mark ++ "Bob"
            ++ quotation_mark ++ " doesn't exist")).
Proof.
  apply (unknown_contact_answers [("Ann", new_record "Ann")] "Bob"
           "0123456789" "1111111111" []).
  reflexivity.
Defined.

(** X20: after the add-birthday command with a date [Birthday] accepts, on
    a contact of the directory, the show-birthday command shows that date
    string; the command replaces any birthday the contact had and leaves its
    phones, the keys and the other records as they were.  With a date
    [Birthday] rejects the directory stays as it is. *)
Theorem add_birthday_then_show : forall (book : AddressBook)
    (nm b : string) (rest : list string) (r : ContactRecord),
  dict_get nm book = Some r ->
  (Birthday b = ok (mkField b) ->
   add_birthday_handler (nm :: b :: rest) book
   = (dict_set nm (mkRecord (name r) (phones r) (Some (mkField b))) book,
      ok (Fore_GREEN ++ nl ++ "Birthday added: " ++ nm ++ " " ++ b))
   /\ show_birthday [nm]
        (fst (add_birthday_handler (nm :: b :: rest) book))
      = (fst (add_birthday_handler (nm :: b :: rest) book),
         ok (Fore_GREEN ++ nl ++ nm ++ ": " ++ b))
   /\ keys (fst (add_birthday_handler (nm :: b :: rest) book)) = keys book
   /\ forall k, k <> nm ->
        dict_get k (fst (add_birthday_handler (nm :: b :: rest) book))
        = dict_get k book)
  /\ (Birthday b <> ok (mkField b) ->
      exists msg,
        add_birthday_handler (nm :: b :: rest) book
        = (book, ok (Fore_RED ++ nl ++ msg))).
Proof.
  intros book nm b rest r G.
  unfold add_birthday_handler, input_error, add_birthday_body, bindM,
    on_record, add_birthday. rewrite G. split.
  - intros Hb. rewrite Hb. unfold ret, set_birthday, ok. cbv beta iota.
    cbn [fst]. split; [reflexivity|]. split; [|split].
    + unfold show_birthday, input_error, show_birthday_body.
      rewrite find_dict_get, dict_get_set_same. reflexivity.
    + apply (keys_set_present nm _ r book G).
    + intros k Hk. apply dict_get_set_other. exact Hk.
  - intros Hb. destruct (Birthday_total b) as [H|H]; [contradiction|].
    rewrite H. unfold raise. cbv beta iota.
    rewrite (dict_set_get_id nm r book G). eexists. reflexivity.
Qed.

Lemma add_birthday_then_show_witness :
  show_birthday ["Ann"]
    (fst (add_birthday_handler ["Ann"; "24.12.1990"]
            [("Ann", mkRecord (Name "Ann") [mkField "0123456789"]
                       (Some (mkField "01.01.2000")))]))
  = (fst (add_birthday_handler ["Ann"; "24.12.1990"]
            [("Ann", mkRecord (Name "Ann") [mkField "0123456789"]
                       (Some (mkField "01.01.2000")))]),
     ok (Fore_GREEN ++ nl ++ "Ann" ++ ": " ++ "24.12.1990")).
Proof.
  pose proof (add_birthday_then_show
                [("Ann", mkRecord (Name "Ann") [mkField "0123456789"]
                           (Some (mkField "01.01.2000")))]
                "Ann" "24.12.1990" []
                (mkRecord (Name "Ann") [mkField "0123456789"]
                   (Some (mkField "01.01.2000")))
                eq_refl) as [H _].
  destruct (H eq_refl) as [_ [H2 _]]. exact H2.
Defined.

(** X21: after the add command with a valid phone, whether the name was in
    the directory or not, the phone command for that name lists the phone
    among the contact's phones. *)
Theorem add_contact_then_show_phone : forall (book : AddressBook)
    (nm phone : string) (rest : list string),
  valid_phone phone ->
  exists r,
    dict_get nm (fst (add_contact (nm :: phone :: rest) book)) = Some r
    /\ In phone (map value (phones r))
    /\ show_phone [nm] (fst (add_contact (nm :: phone :: rest) book))
       = (fst (add_contact (nm :: phone :: rest) book),
          ok (Fore_GREEN ++ nl ++ nm ++ ": "
              ++ join "; " (map value (phones r)))).
Proof.
  intros book nm phone rest Hv.
  assert (H : exists r,
             dict_get nm (fst (add_contact (nm :: phone :: rest) book))
             = Some r /\ In phone (map value (phones r))).
  { unfold add_contact. rewrite input_error_state.
    unfold add_contact_body. rewrite find_dict_get.
    destruct (dict_get nm book) as [r|] eqn:G.
    - rewrite bindM_ret_state. unfold on_record. rewrite G.
      destruct (add_phone_cases phone r)
        as [[e [He _]]|[[_ [Hin ->]]|[_ [_ ->]]]].
      + rewrite (valid_phone_ok _ Hv) in He. discriminate He.
      + cbv beta iota. cbn [fst]. rewrite dict_get_set_same. eauto.
      + cbv beta iota. cbn [fst]. rewrite dict_get_set_same.
        eexists. split; [reflexivity|].
        cbn [phones set_phones]. rewrite map_app. apply in_or_app.
        right. left. reflexivity.
    - rewrite (add_phone_absent phone (new_record nm) Hv) by (intros []).
      unfold ok. cbv beta iota. cbn [fst]. unfold add_record.
      cbn [set_phones name new_record Name value].
      rewrite dict_get_set_same. eexists. split; [reflexivity|].
      left. reflexivity. }
  destruct H as [r [G Hin]]. exists r. split; [exact G|]. split; [exact Hin|].
  unfold show_phone, input_error, show_phone_body. rewrite G. reflexivity.
Qed.

Lemma add_contact_then_show_phone_witness :
  exists r,
    dict_get "Ann" (fst (add_contact ["Ann"; "0123456789"] [])) = Some r
    /\ In "0123456789" (map value (phones r))
    /\ show_phone ["Ann"] (fst (add_contact ["Ann"; "0123456789"] []))
       = (fst (add_contact ["Ann"; "0123456789"] []),
          ok (Fore_GREEN ++ nl ++ "Ann" ++ ": "
              ++ join "; " (map value (phones r)))).
Proof.
  apply (add_contact_then_show_phone [] "Ann" "0123456789" []).
  exists (mkField "0123456789"). reflexivity.
Defined.

(** *** The invariant of the directory *)

Lemma on_record_book_ok {A : Type} (nm : string) (m : M ContactRecord A)
    (book : AddressBook) :
  (forall r, name (fst (m r)) = name r) ->
  (forall r, record_ok r -> record_ok (fst (m r))) ->
  book_ok book -> book_ok (fst (on_record nm m book)).
Proof.
  intros Hn Hm [Hd [Hk Hr]]. split; [|split].
  - unfold on_record. destruct (dict_get nm book) as [r|] eqn:G;
      [|exact Hd].
    destruct (m r) as [r' res]. cbn [fst].
    rewrite (keys_set_present nm r' r book G). exact Hd.
  - apply on_record_keys_match; assumption.
  - unfold on_record. destruct (dict_get nm book) as [r|] eqn:G;
      [|exact Hr].
    specialize (Hm r). destruct (m r) as [r' res]. cbn [fst] in *.
    intros k x Hin. apply In_dict_set in Hin as [Hin|[_ ->]].
    + apply (Hr k x Hin).
    + apply Hm. apply (Hr nm r). apply dict_get_In. exact G.
Qed.

Lemma add_record_book_ok (r : ContactRecord) (book : AddressBook) :
  record_ok r -> book_ok book -> book_ok (add_record r book).
Proof.
  intros Hr [Hd [Hk Ho]]. split; [|split].
  - apply keys_set_NoDup. exact Hd.
  - apply add_record_keys_match. exact Hk.
  - intros k x Hin. apply In_dict_set in Hin as [Hin|[_ ->]];
      [apply (Ho k x Hin) | exact Hr].
Qed.

Lemma handle_book_ok (today : datetime) (c : command) (book : AddressBook) :
  book_ok book -> book_ok (fst (handle today c book)).
Proof.
  intros Hb.
  destruct c as [args|args|args|args|args| |]; cbn [handle];
    unfold add_contact, change_contact, show_phone, add_birthday_handler,
      show_birthday, birthdays;
    rewrite ?input_error_state.
  - unfold add_contact_body. destruct args as [|nm [|phone rest]];
      try exact Hb.
    destruct (find nm book).
    + rewrite bindM_ret_state. apply on_record_book_ok; auto.
      * intros r. apply add_phone_name.
      * intros r. apply add_phone_record_ok.
    + pose proof (add_phone_record_ok phone (new_record nm)
                    (new_record_ok nm)) as Hr.
      destruct (add_phone phone (new_record nm)) as [rec [e|u]];
        cbn [fst] in *; [exact Hb|].
      apply add_record_book_ok; assumption.
  - unfold change_contact_body. destruct args as [|nm [|o [|n rest]]];
      try exact Hb.
    destruct (find nm book); [|exact Hb].
    rewrite bindM_ret_state. apply on_record_book_ok; auto.
    + intros r. apply edit_phone_name.
    + intros r. apply edit_phone_record_ok.
  - rewrite show_phone_body_state. exact Hb.
  - unfold add_birthday_body. destruct args as [|nm [|b rest]];
      try exact Hb.
    rewrite bindM_ret_state. apply on_record_book_ok; auto.
    + intros r. apply add_birthday_name.
    + intros r. apply add_birthday_record_ok.
  - rewrite show_birthday_body_state. exact Hb.
  - rewrite birthdays_body_state. exact Hb.
  - rewrite show_all_contacts_state. exact Hb.
Qed.

(** X22: the commands keep the directory well formed: starting from a
    directory in which no key appears twice, every key is the name of its
    record, the phones of a record are distinct strings [Phone] accepts and
    every birthday is a string [Birthday] accepts, each handler leaves such a
    directory, whatever its arguments.  [add_record] of a well-formed record
    and [delete] keep it too, and the empty directory is well formed. *)
Theorem commands_keep_book_well_formed : forall book : AddressBook,
  book_ok book ->
  (forall today c, book_ok (fst (handle today c book)))
  /\ (forall r, record_ok r -> book_ok (add_record r book))
  /\ (forall nm, book_ok (delete nm book))
  /\ book_ok [].
Proof.
  intros book Hb. split; [|split; [|split]].
  - intros today c. apply handle_book_ok. exact Hb.
  - intros r Hr. apply add_record_book_ok; assumption.
  - intros nm. destruct Hb as [Hd [Hk Ho]]. unfold delete.
    destruct (dict_mem nm book);
      [|split; [exact Hd | split; [exact Hk | exact Ho]]].
    split; [apply (keys_pop_NoDup nm book Hd)|]. split.
    + intros k x Hin. apply In_dict_pop in Hin. auto.
    + intros k x Hin. apply In_dict_pop in Hin. apply (Ho k x Hin).
  - split; [constructor|]. split; intros k r [].
Qed.

Lemma commands_keep_book_well_formed_witness :
  (forall today c, book_ok (fst (handle today c [])))
  /\ (forall r, record_ok r -> book_ok (add_record r []))
  /\ (forall nm, book_ok (delete nm []))
  /\ book_ok [].
Proof.
  apply (commands_keep_book_well_formed []).
  split; [constructor|]. split; intros k r [].
Defined.

(** ** Reading a command *)

Lemma is_word_nospace (s : string) :
  is_word s = true <-> s <> "" /\ nospace s = true.
Proof.
  unfold is_word, nospace. destruct s as [|c s].
  - split; [discriminate | intros [H _]; congruence].
  - split; [intros H; split; [discriminate | exact H] | intros [_ H]; exact H].
Qed.

Lemma nospace_app (a b : string) :
  nospace (a ++ b) = nospace a && nospace b.
Proof.
  unfold nospace. induction a as [|c a IH]; cbn [append PyStr.forallb_str].
  - reflexivity.
  - rewrite IH, andb_assoc. reflexivity.
Qed.

Lemma append_nonempty_r (a : string) (c : ascii) : a ++ String c "" <> "".
Proof. destruct a; discriminate. Qed.

Lemma split_words_are_words (word s : string) :
  nospace word = true ->
  Forall (fun w => is_word w = true) (PyWords.split_words word s).
Proof.
  revert word. induction s as [|c s IH]; intros word Hw;
    cbn [PyWords.split_words].
  - destruct word as [|a word]; constructor; [|constructor].
    apply is_word_nospace. split; [discriminate | exact Hw].
  - destruct (PyWords.char_isspace c) eqn:C.
    + destruct word as [|a word]; [apply IH; reflexivity|].
      constructor; [|apply IH; reflexivity].
      apply is_word_nospace. split; [discriminate | exact Hw].
    + apply IH. rewrite nospace_app, Hw. unfold nospace.
      cbn [PyStr.forallb_str]. rewrite C. reflexivity.
Qed.

Lemma split_words_nil (word s : string) :
  PyWords.split_words word s = [] <-> word = "" /\ blank s = true.
Proof.
  revert word. unfold blank.
  induction s as [|c s IH]; intros word;
    cbn [PyWords.split_words PyStr.forallb_str].
  - destruct word; split; try discriminate; auto. intros [H _]. discriminate H.
  - destruct (PyWords.char_isspace c) eqn:C; cbn [andb].
    + destruct word as [|a word].
      * rewrite IH. tauto.
      * split; [discriminate | intros [H _]; discriminate H].
    + rewrite IH. split; [intros [H _] | intros [_ H]; discriminate H].
      exfalso. exact (append_nonempty_r word c H).
Qed.

Lemma split_words_word (acc w rest : string) :
  nospace w = true ->
  PyWords.split_words acc (w ++ rest) = PyWords.split_words (acc ++ w) rest.
Proof.
  revert acc. induction w as [|c w IH]; intros acc Hw; cbn [append].
  - rewrite append_empty_r. reflexivity.
  - unfold nospace in Hw. cbn [PyStr.forallb_str] in Hw.
    apply andb_true_iff in Hw as [Hc Hw]. apply negb_true_iff in Hc.
    cbn [PyWords.split_words]. rewrite Hc. rewrite (IH _ Hw).
    rewrite append_assoc. reflexivity.
Qed.

Lemma split_join (ws : list string) :
  Forall (fun w => is_word w = true) ws ->
  PyWords.split (join " " ws) = ws.
Proof.
  unfold PyWords.split. induction ws as [|w ws IH]; intros H.
  - reflexivity.
  - inversion H as [|? ? Hw Hws]; subst.
    apply is_word_nospace in Hw as [Hne Hns].
    destruct ws as [|w' ws].
    + cbn [join]. rewrite <- (append_empty_r w) at 1.
      rewrite (split_words_word "" w "" Hns). cbn [append PyWords.split_words].
      destruct w; [congruence | reflexivity].
    + change (join " " (w :: w' :: ws))
        with (w ++ String " " (join " " (w' :: ws))).
      rewrite (split_words_word "" w _ Hns).
      cbn [append PyWords.split_words].
      change (PyWords.char_isspace " ") with true. cbv iota.
      rewrite (IH Hws). destruct w; [congruence | reflexivity].
Qed.

Lemma reverse_reverse (s acc acc2 : string) :
  PyWords.reverse acc2 (PyWords.reverse acc s)
  = PyWords.reverse (s ++ acc2) acc.
Proof.
  revert acc. induction s as [|c s IH]; intros acc;
    cbn [PyWords.reverse append]; [reflexivity|].
  rewrite IH. reflexivity.
Qed.

Lemma nospace_reverse (s acc : string) :
  nospace (PyWords.reverse acc s) = nospace s && nospace acc.
Proof.
  revert acc. unfold nospace.
  induction s as [|c s IH]; intros acc;
    cbn [PyWords.reverse PyStr.forallb_str]; [reflexivity|].
  rewrite IH. cbn [PyStr.forallb_str].
  destruct (negb (PyWords.char_isspace c)); cbn [andb];
    [reflexivity | apply andb_false_r].
Qed.

Lemma lstrip_space_nospace (s : string) :
  nospace s = true -> PyWords.lstrip_space s = s.
Proof.
  destruct s as [|c s]; [reflexivity|]. unfold nospace.
  cbn [PyStr.forallb_str PyWords.lstrip_space]. intros H.
  apply andb_true_iff in H as [H _]. apply negb_true_iff in H.
  rewrite H. reflexivity.
Qed.

Lemma strip_nospace (s : string) : nospace s = true -> PyWords.strip s = s.
Proof.
  intros H. unfold PyWords.strip. rewrite (lstrip_space_nospace s H).
  rewrite lstrip_space_nospace
    by (rewrite nospace_reverse, H; reflexivity).
  rewrite reverse_reverse. cbn [PyWords.reverse]. apply append_empty_r.
Qed.

(** X23: [parse_input] raises [ValueError] exactly on a blank line (empty, or
    white space only).  On any other line it returns a command and
    arguments that are the words of the line, in order: no argument is empty
    or contains white space, and the command is the first word in lower
    case. *)
Theorem parse_input_words : forall user_input : string,
  (parse_input user_input = raise ValueError <-> blank user_input = true)
  /\ (blank user_input = false ->
      exists w args,
        PyWords.split user_input = w :: args
        /\ parse_input user_input = ok (PyWords.lower w, args)
        /\ is_word w = true
        /\ Forall (fun a => is_word a = true) args).
Proof.
  intros s. unfold parse_input.
  pose proof (split_words_are_words "" s eq_refl) as Hw.
  pose proof (split_words_nil "" s) as Hn. fold (PyWords.split s) in Hw, Hn.
  destruct (PyWords.split s) as [|w args]; split.
  - split; [intros _; apply Hn; reflexivity | reflexivity].
  - intros Hb. assert (blank s = true) by (apply Hn; reflexivity).
    congruence.
  - split; [discriminate|]. intros Hb.
    assert (w :: args = [] /\ True) as [H _]; [|discriminate H].
    split; [|exact I]. apply Hn. auto.
  - intros _. inversion Hw as [|? ? Hw1 Hw2]; subst.
    exists w, args. split; [reflexivity|].
    apply is_word_nospace in Hw1 as Hw1'. destruct Hw1' as [_ Hns].
    rewrite (strip_nospace w Hns). auto.
Qed.

Lemma char_lower_idempotent (c : ascii) :
  PyWords.char_lower (PyWords.char_lower c) = PyWords.char_lower c.
Proof. destruct c as [[] [] [] [] [] [] [] []]; reflexivity. Qed.

Lemma char_lower_isspace (c : ascii) :
  PyWords.char_isspace (PyWords.char_lower c) = PyWords.char_isspace c.
Proof. destruct c as [[] [] [] [] [] [] [] []]; reflexivity. Qed.

Lemma lower_idempotent (s : string) :
  PyWords.lower (PyWords.lower s) = PyWords.lower s.
Proof.
  induction s as [|c s IH]; cbn [PyWords.lower]; [reflexivity|].
  rewrite char_lower_idempotent, IH. reflexivity.
Qed.

Lemma lower_is_word (s : string) :
  is_word s = true -> is_word (PyWords.lower s) = true.
Proof.
  rewrite !is_word_nospace. intros [Hne Hns]. split.
  - destruct s; [congruence | discriminate].
  - clear Hne. unfold nospace in *.
    induction s as [|c s IH]; cbn [PyWords.lower PyStr.forallb_str] in *;
      [reflexivity|].
    apply andb_true_iff in Hns as [Hc Hs].
    rewrite char_lower_isspace, Hc, (IH Hs). reflexivity.
Qed.

Lemma parse_input_join_words (cmd : string) (args : list string) :
  is_word cmd = true ->
  Forall (fun a => is_word a = true) args ->
  parse_input (join " " (cmd :: args)) = ok (PyWords.lower cmd, args).
Proof.
  intros Hc Ha. unfold parse_input.
  rewrite split_join by (constructor; assumption).
  apply is_word_nospace in Hc as [_ Hns].
  rewrite (strip_nospace cmd Hns). reflexivity.
Qed.

(** X24: a line made of a command word and arguments joined by single
    spaces is read back as that command in lower case and those arguments,
    unchanged.  So the command word is matched whatever its letter case: the
    loop does the same for the line and for the line with its command word
    in lower case. *)
Theorem parse_input_reads_joined_words : forall (cmd : string)
    (args : list string),
  is_word cmd = true ->
  Forall (fun a => is_word a = true) args ->
  parse_input (join " " (cmd :: args)) = ok (PyWords.lower cmd, args)
  /\ forall today,
       loop_body today (join " " (cmd :: args))
       = loop_body today (join " " (PyWords.lower cmd :: args)).
Proof.
  intros cmd args Hc Ha. split; [apply parse_input_join_words; assumption|].
  intros today. unfold loop_body.
  rewrite (parse_input_join_words cmd args Hc Ha).
  rewrite (parse_input_join_words (PyWords.lower cmd) args
             (lower_is_word cmd Hc) Ha).
  rewrite lower_idempotent. reflexivity.
Qed.

Lemma parse_input_reads_joined_words_witness :
  parse_input (join " " ("ADD" :: ["Ann"; "0123456789"]))
  = ok (PyWords.lower "ADD", ["Ann"; "0123456789"])
  /\ forall today,
       loop_body today (join " " ("ADD" :: ["Ann"; "0123456789"]))
       = loop_body today
           (join " " (PyWords.lower "ADD" :: ["Ann"; "0123456789"])).
Proof.
  apply (parse_input_reads_joined_words "ADD" ["Ann"; "0123456789"]).
  - reflexivity.
  - repeat constructor.
Defined.

(** ** The loop *)




(** X25: a blank line ends the loop with [ValueError]: [parse_input] raises
    it and nothing in [main] catches it.  The run is over without
    [save_data] having been called, whatever lines would have followed. *)
Theorem blank_line_ends_the_loop : forall (today : datetime)
    (user_input : string) (rest : list (datetime * string))
    (book : AddressBook),
  blank user_input = true ->
  loop_body today user_input book = (book, raise ValueError)
  /\ main_loop ((today, user_input) :: rest) book
     = (book, [prompt], Crashed ValueError).
Proof.
  intros today s rest book Hb.
  assert (H : loop_body today s book = (book, raise ValueError)).
  { unfold loop_body.
    rewrite (proj2 (proj1 (parse_input_words s)) Hb). reflexivity. }
  split; [exact H|]. cbn [main_loop]. rewrite H. reflexivity.
Qed.

Lemma blank_line_ends_the_loop_witness :
  loop_body (mkDate 2024 6 10) "  " [("Ann", new_record "Ann")]
  = ([("Ann", new_record "Ann")], raise ValueError)
  /\ main_loop [(mkDate 2024 6 10, "  "); (mkDate 2024 6 10, "exit")]
       [("Ann", new_record "Ann")]
     = ([("Ann", new_record "Ann")], [prompt], Crashed ValueError).
Proof.
  apply (blank_line_ends_the_loop (mkDate 2024 6 10) "  "
           [(mkDate 2024 6 10, "exit")] [("Ann", new_record "Ann")]).
  reflexivity.
Defined.


